(** * movie-dashboard: the data transformation pipeline

    A shallow embedding of [src/lib/transformations/*.ts] and of the
    properties its specification states about it.

    Conventions of the embedding.
    - A JavaScript [number] that carries a measurement (popularity, vote
      average, percentages, averages) is an exact rational [Q]; integral
      numbers (ids, counts, years, indices, window sizes) are [Z].  The
      model therefore covers finite numbers and exact arithmetic: [NaN], the
      infinities and binary rounding error are outside of it.
    - A string is a sequence of code units, one [ascii] per unit.
    - Arrays are immutable lists of values; the only objects that the
      pipeline mutates after their creation are the [MonthlyData] records,
      which live in an explicit heap and are held in arrays by reference.
    - The host's [Date] and its clock are parameters ([Host]). *)

From Stdlib Require Import ZArith QArith Qround Qabs Lqa Lia.
From Stdlib Require Import String Ascii List Permutation Sorted.
From stdpp Require Import base option list strings pretty.
Import ListNotations.

Local Open Scope Z_scope.
Local Open Scope list_scope.

(** * Part I: the model *)

(** ** Host library: numbers *)

(** [Math.round]: the nearest integer, a tie going up. *)
Definition Math_round (x : Q) : Z := Qfloor (x + (1 # 2)).

(** [x === 0] and friends on numbers. *)
Definition Number_eqb (x y : Q) : bool := Qeq_bool x y.
Definition Number_ltb (x y : Q) : bool := negb (Qle_bool y x).

(** ** Host library: strings *)

(** [s.padStart(targetLength, c)] for a one-unit filler [c]. *)
Definition String_padStart (targetLength : nat) (c : ascii) (s : string) : string :=
  String.append (string_of_list_ascii
                   (replicate (targetLength - String.length s)%nat c)) s.

(** [s.split(sep)] for a one-unit separator. *)
Fixpoint String_split (sep : ascii) (s : string) : list string :=
  match s with
  | EmptyString => [EmptyString]
  | String c s' =>
      if Ascii.eqb c sep then EmptyString :: String_split sep s'
      else match String_split sep s' with
           | [] => [String c EmptyString]
           | p :: ps => String c p :: ps
           end
  end.

Definition digit_of (c : ascii) : option Z :=
  let n := Z.of_nat (nat_of_ascii c) in
  if (48 <=? n) && (n <=? 57) then Some (n - 48) else None.

Fixpoint parse_digits (s : string) (acc : option Z) : option Z :=
  match s with
  | EmptyString => acc
  | String c s' =>
      match digit_of c with
      | Some d => parse_digits s' (Some (10 * default 0 acc + d))
      | None => acc
      end
  end.

(** [parseInt(s)]: an optional sign and the longest run of decimal digits;
    [None] is [NaN].  Leading white space and the [0x] prefix are not
    modelled: the pipeline only parses the pieces of a month key. *)
Definition parseInt (s : string) : option Z :=
  match s with
  | String "-"%char s' => Z.opp <$> parse_digits s' None
  | String "+"%char s' => parse_digits s' None
  | _ => parse_digits s None
  end.

(** [String(n)] for an integral number. *)
Definition Number_toString (n : Z) : string := pretty n.

(** A string is truthy when it is not empty. *)
Definition truthy (s : string) : bool := bool_decide (s <> EmptyString).

(** The result of comparing two strings by code units, as a number. *)
Definition compareCodeUnits (a b : string) : Q :=
  match String.compare a b with
  | Lt => (-1)%Q
  | Eq => 0%Q
  | Gt => 1%Q
  end.

(** [a.localeCompare(b)].  The pipeline compares month keys only, which are
    made of decimal digits and hyphens; there the collation order is the
    order of the code units. *)
Definition localeCompare (a b : string) : Q := compareCodeUnits a b.

(** [a <= b] on strings. *)
Definition String_le (a b : string) : bool := String.leb a b.

(** ** Host library: arrays and maps *)

Section Arrays.
Context {A : Type}.

Fixpoint insertSorted (compareFn : A -> A -> Q) (x : A) (l : list A) : list A :=
  match l with
  | [] => [x]
  | y :: l' =>
      if Qle_bool (compareFn x y) 0 then x :: y :: l'
      else y :: insertSorted compareFn x l'
  end.

(** [Array.prototype.sort(compareFn)]: a stable sort (ECMAScript 2019);
    with a consistent comparator every stable sort returns this list. *)
Fixpoint Array_sort (compareFn : A -> A -> Q) (l : list A) : list A :=
  match l with
  | [] => []
  | x :: l' => insertSorted compareFn x (Array_sort compareFn l')
  end.

(** How [slice] reads a bound: negative bounds count from the end. *)
Definition relativeIndex (len i : Z) : Z :=
  if i <? 0 then Z.max (len + i) 0 else Z.min i len.

(** [Array.prototype.slice(start, end)]. *)
Definition Array_slice (l : list A) (start end_ : Z) : list A :=
  let len := Z.of_nat (length l) in
  let k := relativeIndex len start in
  let final := relativeIndex len end_ in
  take (Z.to_nat (final - k)) (drop (Z.to_nat k) l).
End Arrays.

(** A JavaScript [Map]: keys are unique and are iterated in the order of
    their first insertion. *)
Section JsMap.
Context {K V : Type} `{EqDecision K}.

Fixpoint Map_get (m : list (K * V)) (k : K) : option V :=
  match m with
  | [] => None
  | (k', v) :: m' => if decide (k = k') then Some v else Map_get m' k
  end.

Definition Map_has (m : list (K * V)) (k : K) : bool :=
  match Map_get m k with Some _ => true | None => false end.

Fixpoint Map_set (m : list (K * V)) (k : K) (v : V) : list (K * V) :=
  match m with
  | [] => [(k, v)]
  | (k', v') :: m' =>
      if decide (k = k') then (k, v) :: m' else (k', v') :: Map_set m' k v
  end.
End JsMap.

(** The host's [Date].  [Date_parse s] is the time value of [s], [None]
    standing for [NaN]; [Date_getFullYear] and [Date_getMonth] read a time
    value in the local time zone; [Date_today] is what
    [new Date().toISOString().split('T')[0]] returns when it is evaluated. *)
Record Host := mkHost {
  Date_parse : string -> option Z;
  Date_getFullYear : Z -> Z;
  Date_getMonth : Z -> Z;
  Date_today : string
}.

(** ** types: the records of the pipeline

    [Movie] carries the fields that the pipeline reads. *)

Module Movie.
Record t := mk {
  id : Z;
  title : string;
  poster_path : option string;
  release_date : string;
  genre_ids : list Z;
  popularity : Q;
  vote_average : Q;
  vote_count : Z
}.
End Movie.

Module Genre.
Record t := mk { id : Z; name : string }.
End Genre.

Module MonthlyData.
Record t := mk {
  month : string;
  year : option Z;
  movies_count : Z;
  avg_popularity : Q;
  avg_vote_average : Q;
  total_vote_count : Z;
  popularity_change_percent : option Q;
  vote_change_percent : option Q;
  popularity_moving_avg : option Q;
  vote_moving_avg : option Q
}.

Definition set_popularity_change_percent (v : option Q) (r : t) : t :=
  mk (month r) (year r) (movies_count r) (avg_popularity r)
     (avg_vote_average r) (total_vote_count r)
     v (vote_change_percent r)
     (popularity_moving_avg r) (vote_moving_avg r).

Definition set_vote_change_percent (v : option Q) (r : t) : t :=
  mk (month r) (year r) (movies_count r) (avg_popularity r)
     (avg_vote_average r) (total_vote_count r)
     (popularity_change_percent r) v
     (popularity_moving_avg r) (vote_moving_avg r).

Definition set_popularity_moving_avg (v : option Q) (r : t) : t :=
  mk (month r) (year r) (movies_count r) (avg_popularity r)
     (avg_vote_average r) (total_vote_count r)
     (popularity_change_percent r) (vote_change_percent r)
     v (vote_moving_avg r).

Definition set_vote_moving_avg (v : option Q) (r : t) : t :=
  mk (month r) (year r) (movies_count r) (avg_popularity r)
     (avg_vote_average r) (total_vote_count r)
     (popularity_change_percent r) (vote_change_percent r)
     (popularity_moving_avg r) v.
End MonthlyData.

Module TopMovie.
Record t := mk {
  id : Z;
  title : string;
  popularity : Q;
  vote_average : Q;
  poster_path : option string;
  genre_names : list string;
  release_date : string
}.
End TopMovie.

Module GenreDistribution.
Record t := mk {
  genre_id : Z;
  genre_name : string;
  count : Z;
  percentage : Q;
  avg_popularity : Q;
  avg_vote_average : Q
}.
End GenreDistribution.

Module DashboardFilters.
Record t := mk {
  startDate : string;
  endDate : string;
  genres : list Z;
  sortBy : string;
  minVoteCount : Z
}.
End DashboardFilters.

(** ** The heap of monthly records

    A [MonthlyData[]] is a list of references; the records themselves are
    shared between every array that holds them. *)

Abbreviation loc := nat (only parsing).
Abbreviation heap := (list MonthlyData.t) (only parsing).

(** Reads of a field through a reference.  A reference held by an array
    always points into the heap; the fallback value is never read on such
    states. *)
Definition avg_popularity_at (h : heap) (l : loc) : Q :=
  from_option MonthlyData.avg_popularity 0%Q (h !! l).
Definition avg_vote_average_at (h : heap) (l : loc) : Q :=
  from_option MonthlyData.avg_vote_average 0%Q (h !! l).
Definition month_at (h : heap) (l : loc) : string :=
  from_option MonthlyData.month EmptyString (h !! l).

(** Assignment to a field of the record behind a reference. *)
Definition assign (f : MonthlyData.t -> MonthlyData.t) (l : loc) (h : heap) : heap :=
  alter f l h.

(** The records an array of references denotes (its deep value). *)
Definition readArray (h : heap) (arr : list loc) : list MonthlyData.t :=
  omap (fun l => h !! l) arr.

(** Allocation of fresh records, one object per record. *)
Definition allocate (h : heap) (records : list MonthlyData.t) : heap * list loc :=
  (h ++ records, seq (length h) (length records)).

Module DateRange.
Record t := mk { start : string; end_ : string }.
End DateRange.

Module DashboardData.
Record t := mk {
  monthly_data : list loc;
  top_movies : list TopMovie.t;
  genre_distribution : list GenreDistribution.t;
  total_movies : Z;
  date_range : DateRange.t;
  filters_applied : DashboardFilters.t
}.
End DashboardData.

(** ** temporal-aggregation.ts *)

Section TemporalAggregation.
Variable host : Host.

(** The filter of step 1. *)
Definition hasValidDate (movie : Movie.t) : bool :=
  truthy (Movie.release_date movie) &&
  (10 <=? Z.of_nat (String.length (Movie.release_date movie))) &&
  match Date_parse host (Movie.release_date movie) with
  | Some _ => true
  | None => false
  end.

(** The key computed in step 2 from [new Date(movie.release_date)]; an
    invalid date prints [NaN] for both parts. *)
Definition monthKeyOf (movie : Movie.t) : string :=
  match Date_parse host (Movie.release_date movie) with
  | Some releaseDate =>
      let year := Date_getFullYear host releaseDate in
      let month :=
        String_padStart 2 "0"
          (Number_toString (Date_getMonth host releaseDate + 1)) in
      String.append (Number_toString year) (String "-" month)
  | None => "NaN-NaN"%string
  end.

(** One turn of the grouping loop. *)
Definition addToMonth (moviesByMonth : list (string * list Movie.t))
    (movie : Movie.t) : list (string * list Movie.t) :=
  let monthKey := monthKeyOf movie in
  let moviesByMonth :=
    if Map_has moviesByMonth monthKey then moviesByMonth
    else Map_set moviesByMonth monthKey [] in
  Map_set moviesByMonth monthKey
    (default [] (Map_get moviesByMonth monthKey) ++ [movie]).

(** Step 3, for one entry of the map. *)
Definition monthlyRecord (entry : string * list Movie.t) : MonthlyData.t :=
  let monthKey := fst entry in
  let moviesInMonth := snd entry in
  let parts := String_split "-" monthKey in
  let year := parts !! 0%nat ≫= parseInt in
  let totalMovies := Z.of_nat (length moviesInMonth) in
  let totalPopularity :=
    fold_left (fun sum movie => (sum + Movie.popularity movie)%Q)
              moviesInMonth 0%Q in
  let totalVoteAverage :=
    fold_left (fun sum movie => (sum + Movie.vote_average movie)%Q)
              moviesInMonth 0%Q in
  let totalVoteCount :=
    fold_left (fun sum movie => sum + Movie.vote_count movie)
              moviesInMonth 0 in
  MonthlyData.mk monthKey year totalMovies
    (inject_Z (Math_round ((totalPopularity / inject_Z totalMovies) * 100)) / 100)%Q
    (inject_Z (Math_round ((totalVoteAverage / inject_Z totalMovies) * 100)) / 100)%Q
    totalVoteCount None None None None.

(** The records of [aggregateByMonth], in the order it returns them. *)
Definition monthlyRecords (movies : list Movie.t) (genres : list Genre.t)
    : list MonthlyData.t :=
  let validMovies := List.filter hasValidDate movies in
  let moviesByMonth := fold_left addToMonth validMovies [] in
  let monthlyData := map monthlyRecord moviesByMonth in
  Array_sort
    (fun a b => localeCompare (MonthlyData.month a) (MonthlyData.month b))
    monthlyData.

(** [aggregateByMonth]: the records are new objects.  Addresses cannot be
    observed, so the objects are laid out in the order of the result. *)
Definition aggregateByMonth (h : heap) (movies : list Movie.t)
    (genres : list Genre.t) : heap * list loc :=
  allocate h (monthlyRecords movies genres).
End TemporalAggregation.

Definition filterByDateRange (h : heap) (monthlyData : list loc)
    (startDate endDate : string) : list loc :=
  let start := substring 0 7 startDate in
  let end_ := substring 0 7 endDate in
  List.filter
    (fun data => String_le start (month_at h data) &&
                 String_le (month_at h data) end_)
    monthlyData.

(** ** percentage-change.ts *)

Definition calculatePercentChange (previousValue currentValue : Q) : Q :=
  if Number_eqb previousValue 0
  then (if Number_eqb currentValue 0 then 0 else 100)%Q
  else
    let percentChange :=
      (((currentValue - previousValue) / previousValue) * 100)%Q in
    (inject_Z (Math_round (percentChange * 100)) / 100)%Q.

(** The body of the loop, at index [i] of [dataWithChanges]. *)
Definition percentageChangeStep (dataWithChanges : list loc) (h : heap)
    (i : nat) : heap :=
  match dataWithChanges !! i, dataWithChanges !! (i - 1)%nat with
  | Some current, Some previous =>
      let h :=
        assign (MonthlyData.set_popularity_change_percent
                  (Some (calculatePercentChange
                           (avg_popularity_at h previous)
                           (avg_popularity_at h current))))
               current h in
      assign (MonthlyData.set_vote_change_percent
                (Some (calculatePercentChange
                         (avg_vote_average_at h previous)
                         (avg_vote_average_at h current))))
             current h
  | _, _ => h
  end.

(** [calculatePercentageChange]: the spread copies the array, that is the
    references; the loop then writes through them. *)
Definition calculatePercentageChange (h : heap) (monthlyData : list loc)
    : heap * list loc :=
  if (length monthlyData <? 2)%nat then (h, monthlyData)
  else
    let dataWithChanges := monthlyData in
    (fold_left (percentageChangeStep dataWithChanges)
               (seq 1 (length dataWithChanges - 1)) h,
     dataWithChanges).

(** ** rolling-window.ts *)

Definition rollingAverageStep (dataWithMovingAvg : list loc) (windowSize : Z)
    (h : heap) (i : nat) : heap :=
  match dataWithMovingAvg !! i with
  | Some target =>
      let window :=
        Array_slice dataWithMovingAvg
          (Z.of_nat i - windowSize + 1) (Z.of_nat i + 1) in
      let popularitySum :=
        fold_left (fun sum data => (sum + avg_popularity_at h data)%Q)
                  window 0%Q in
      let h :=
        assign (MonthlyData.set_popularity_moving_avg
                  (Some (inject_Z (Math_round
                           ((popularitySum / inject_Z windowSize) * 100)) / 100)%Q))
               target h in
      let voteSum :=
        fold_left (fun sum data => (sum + avg_vote_average_at h data)%Q)
                  window 0%Q in
      assign (MonthlyData.set_vote_moving_avg
                (Some (inject_Z (Math_round
                         ((voteSum / inject_Z windowSize) * 100)) / 100)%Q))
             target h
  | None => h
  end.

Definition calculateRollingAverage (h : heap) (monthlyData : list loc)
    (windowSize : Z) : heap * list loc :=
  if (windowSize <? 1) || (Z.of_nat (length monthlyData) <? windowSize)
  then (h, monthlyData)
  else
    let dataWithMovingAvg := monthlyData in
    let first := Z.to_nat (windowSize - 1) in
    (fold_left (rollingAverageStep dataWithMovingAvg windowSize)
               (seq first (length dataWithMovingAvg - first)) h,
     dataWithMovingAvg).

(** ** top-movies.ts *)

Inductive Criteria := popularity | vote_average | vote_count | combined.

Definition isValidMovie (movie : Movie.t) : bool :=
  truthy (Movie.title movie) &&
  match Movie.poster_path movie with
  | Some poster => truthy poster
  | None => false
  end &&
  truthy (Movie.release_date movie) &&
  Number_ltb 0 (Movie.popularity movie) &&
  (100 <=? Movie.vote_count movie).

Definition enrichMovieWithGenres (movie : Movie.t) (genres : list Genre.t)
    : TopMovie.t :=
  let genreNames :=
    omap (fun genreId =>
            match List.find (fun g => Genre.id g =? genreId) genres with
            | Some genre => Some (Genre.name genre)
            | None => None
            end)
         (Movie.genre_ids movie) in
  TopMovie.mk
    (Movie.id movie)
    (Movie.title movie)
    (inject_Z (Math_round (Movie.popularity movie * 100)) / 100)%Q
    (inject_Z (Math_round (Movie.vote_average movie * 100)) / 100)%Q
    (Movie.poster_path movie)
    genreNames
    (Movie.release_date movie).

Definition sortMoviesByCriteria (movies : list TopMovie.t) (criteria : Criteria)
    : list TopMovie.t :=
  match criteria with
  | popularity =>
      Array_sort (fun a b => (TopMovie.popularity b - TopMovie.popularity a)%Q) movies
  | vote_average =>
      Array_sort (fun a b => (TopMovie.vote_average b - TopMovie.vote_average a)%Q) movies
  | vote_count =>
      Array_sort (fun a b => (TopMovie.popularity b - TopMovie.popularity a)%Q) movies
  | combined =>
      Array_sort
        (fun a b =>
           let scoreA := ((TopMovie.popularity a / 100) + (TopMovie.vote_average a * 10))%Q in
           let scoreB := ((TopMovie.popularity b / 100) + (TopMovie.vote_average b * 10))%Q in
           (scoreB - scoreA)%Q)
        movies
  end.

Definition getTopMovies (movies : list Movie.t) (genres : list Genre.t)
    (criteria : Criteria) (topN : Z) : list TopMovie.t :=
  let validMovies := List.filter isValidMovie movies in
  let enrichedMovies :=
    map (fun movie => enrichMovieWithGenres movie genres) validMovies in
  let sortedMovies := sortMoviesByCriteria enrichedMovies criteria in
  Array_slice sortedMovies 0 topN.

(** ** genre-analysis.ts *)

Module GenreStats.
Record t := mk {
  count : Z;
  totalPopularity : Q;
  totalVoteAverage : Q;
  totalVoteCount : Z
}.
End GenreStats.

(** What one genre id of one movie adds to the statistics. *)
Definition countGenre (movie : Movie.t) (genreStats : list (Z * GenreStats.t))
    (genreId : Z) : list (Z * GenreStats.t) :=
  match Map_get genreStats genreId with
  | Some stats =>
      Map_set genreStats genreId
        (GenreStats.mk
           (GenreStats.count stats + 1)
           (GenreStats.totalPopularity stats + Movie.popularity movie)%Q
           (GenreStats.totalVoteAverage stats + Movie.vote_average movie)%Q
           (GenreStats.totalVoteCount stats + Movie.vote_count movie))
  | None => genreStats
  end.

Definition countMovie (genreStats : list (Z * GenreStats.t)) (movie : Movie.t)
    : list (Z * GenreStats.t) :=
  if (length (Movie.genre_ids movie) =? 0)%nat then genreStats
  else fold_left (countGenre movie) (Movie.genre_ids movie) genreStats.

Definition fallbackGenreName (genreId : Z) : string :=
  String.append (String "G" (String (ascii_of_nat 233) "nero "))
                (Number_toString genreId).

(** Step 4, for one entry of [genreStats]. *)
Definition distributionRecord (genreMap : list (Z * string)) (totalMovies : Z)
    (entry : Z * GenreStats.t) : option GenreDistribution.t :=
  let genreId := fst entry in
  let stats := snd entry in
  let genreName :=
    match Map_get genreMap genreId with
    | Some name => if truthy name then name else fallbackGenreName genreId
    | None => fallbackGenreName genreId
    end in
  if 0 <? GenreStats.count stats then
    Some (GenreDistribution.mk genreId genreName (GenreStats.count stats)
            (inject_Z (Math_round
               ((inject_Z (GenreStats.count stats) / inject_Z totalMovies) * 10000)) / 100)%Q
            (inject_Z (Math_round
               ((GenreStats.totalPopularity stats / inject_Z (GenreStats.count stats)) * 100)) / 100)%Q
            (inject_Z (Math_round
               ((GenreStats.totalVoteAverage stats / inject_Z (GenreStats.count stats)) * 100)) / 100)%Q)
  else None.

Definition analyzeGenreDistribution (movies : list Movie.t)
    (genres : list Genre.t) : list GenreDistribution.t :=
  let genreMap :=
    fold_left (fun m genre => Map_set m (Genre.id genre) (Genre.name genre))
              genres [] in
  let genreStats :=
    fold_left (fun m genre => Map_set m (Genre.id genre) (GenreStats.mk 0 0 0 0))
              genres [] in
  let genreStats := fold_left countMovie movies genreStats in
  let totalMovies := Z.of_nat (length movies) in
  let distribution := omap (distributionRecord genreMap totalMovies) genreStats in
  Array_sort
    (fun a b => inject_Z (GenreDistribution.count b - GenreDistribution.count a))
    distribution.

(** ** index.ts *)

Section Orchestrator.
Variable host : Host.

Definition getEarliestDate (movies : list Movie.t) : string :=
  let validDates :=
    Array_sort compareCodeUnits
      (map Movie.release_date
           (List.filter (fun movie => truthy (Movie.release_date movie)) movies)) in
  match validDates with
  | d :: _ => d
  | [] => Date_today host
  end.

Definition getLatestDate (movies : list Movie.t) : string :=
  let validDates :=
    rev (Array_sort compareCodeUnits
           (map Movie.release_date
                (List.filter (fun movie => truthy (Movie.release_date movie)) movies))) in
  match validDates with
  | d :: _ => d
  | [] => Date_today host
  end.

(** [transformDashboardData].  The console output and the timer are
    diagnostics and are left out; no stage of the model throws, so the
    [catch] branch is never taken. *)
Definition transformDashboardData (h : heap) (movies : list Movie.t)
    (genres : list Genre.t) (filters : DashboardFilters.t)
    : heap * DashboardData.t :=
  let '(h, monthlyData) := aggregateByMonth host h movies genres in
  let monthlyData :=
    if truthy (DashboardFilters.startDate filters) &&
       truthy (DashboardFilters.endDate filters)
    then filterByDateRange h monthlyData
           (DashboardFilters.startDate filters)
           (DashboardFilters.endDate filters)
    else monthlyData in
  let '(h, monthlyData) := calculatePercentageChange h monthlyData in
  let '(h, monthlyData) := calculateRollingAverage h monthlyData 3 in
  let topMovies := getTopMovies movies genres popularity 10 in
  let genreDistribution := analyzeGenreDistribution movies genres in
  let totalMovies := Z.of_nat (length movies) in
  let dateRange :=
    DateRange.mk
      (if truthy (DashboardFilters.startDate filters)
       then DashboardFilters.startDate filters
       else getEarliestDate movies)
      (if truthy (DashboardFilters.endDate filters)
       then DashboardFilters.endDate filters
       else getLatestDate movies) in
  (h, DashboardData.mk monthlyData topMovies genreDistribution totalMovies
        dateRange filters).
End Orchestrator.

(** A host for examples: it reads calendar dates of the form [YYYY-MM-DD]
    in Coordinated Universal Time, the time value being the number of the
    month since year 0; any other text is an invalid date. *)
Definition isoField (s : string) : option Z :=
  if forallb (fun c => match digit_of c with Some _ => true | None => false end)
             (list_ascii_of_string s)
  then parse_digits s None else None.

Definition daysInMonth (y m : Z) : Z :=
  if m =? 2 then
    (if ((y mod 4 =? 0) && negb (y mod 100 =? 0)) || (y mod 400 =? 0)
     then 29 else 28)
  else if (m =? 4) || (m =? 6) || (m =? 9) || (m =? 11) then 30
  else 31.

Definition isoParse (s : string) : option Z :=
  match String_split "-" s with
  | [y; m; d] =>
      if ((String.length y =? 4) && (String.length m =? 2) &&
          (String.length d =? 2))%nat
      then
        match isoField y, isoField m, isoField d with
        | Some y, Some m, Some d =>
            if (1 <=? m) && (m <=? 12) && (1 <=? d) && (d <=? daysInMonth y m)
            then Some (12 * y + (m - 1)) else None
        | _, _, _ => None
        end
      else None
  | _ => None
  end.

Definition utcHost (today : string) : Host :=
  mkHost isoParse (fun t => t / 12) (fun t => t mod 12) today.

(** ** temporal-aggregation.ts: getMonthName *)

Definition monthNames : list string :=
  [ "Enero"; "Febrero"; "Marzo"; "Abril"; "Mayo"; "Junio";
    "Julio"; "Agosto"; "Septiembre"; "Octubre"; "Noviembre"; "Diciembre" ]%string.

(** What a template literal prints for a string that may be [undefined]. *)
Definition printOrUndefined (s : option string) : string :=
  default "undefined"%string s.

(** [monthNames[monthIndex]]: outside of the array, and at [NaN], the
    element is [undefined]. *)
Definition monthNameAt (monthIndex : option Z) : option string :=
  match monthIndex with
  | Some i => if i <? 0 then None else monthNames !! Z.to_nat i
  | None => None
  end.

Definition getMonthName (monthKey : string) : string :=
  let parts := String_split "-" monthKey in
  let year := parts !! 0%nat in
  let month := parts !! 1%nat in
  let monthIndex := (fun m => m - 1) <$> (month ≫= parseInt) in
  String.append (printOrUndefined (monthNameAt monthIndex))
    (String " " (printOrUndefined year)).

(** ** percentage-change.ts: the summaries *)

Definition popularity_change_percent_at (h : heap) (l : loc) : option Q :=
  h !! l ≫= MonthlyData.popularity_change_percent.
Definition vote_change_percent_at (h : heap) (l : loc) : option Q :=
  h !! l ≫= MonthlyData.vote_change_percent.
Definition popularity_moving_avg_at (h : heap) (l : loc) : option Q :=
  h !! l ≫= MonthlyData.popularity_moving_avg.
Definition vote_moving_avg_at (h : heap) (l : loc) : option Q :=
  h !! l ≫= MonthlyData.vote_moving_avg.

(** [o !== undefined]. *)
Definition isDefined {A} (o : option A) : bool :=
  match o with Some _ => true | None => false end.

(** The common body of [getAveragePopularityChange] and
    [getAverageVoteChange], for the field read by [change]. *)
Definition averageChange (change : loc -> option Q) (monthlyData : list loc) : Q :=
  let validChanges :=
    map (fun data => default 0%Q (change data))
        (List.filter (fun data => isDefined (change data)) monthlyData) in
  if (length validChanges =? 0)%nat then 0%Q
  else
    let sum := fold_left (fun total change => (total + change)%Q) validChanges 0%Q in
    (inject_Z (Math_round ((sum / inject_Z (Z.of_nat (length validChanges))) * 100))
     / 100)%Q.

Definition getAveragePopularityChange (h : heap) (monthlyData : list loc) : Q :=
  averageChange (popularity_change_percent_at h) monthlyData.

Definition getAverageVoteChange (h : heap) (monthlyData : list loc) : Q :=
  averageChange (vote_change_percent_at h) monthlyData.

Inductive Metric := metric_popularity | metric_vote.

(** [getTopGrowthPeriods]; [x || 0] is [x] on a number and 0 on
    [undefined]. *)
Definition getTopGrowthPeriods (h : heap) (monthlyData : list loc)
    (metric : Metric) (topN : Z) : list loc :=
  let changeField :=
    match metric with
    | metric_popularity => popularity_change_percent_at h
    | metric_vote => vote_change_percent_at h
    end in
  Array_slice
    (Array_sort
       (fun a b => (default 0 (changeField b) - default 0 (changeField a))%Q)
       (List.filter (fun data => isDefined (changeField data)) monthlyData))
    0 topN.

(** ** rolling-window.ts: the exponential moving average *)

(** [m || fallback] on a moving average that may be [undefined]: 0 is
    falsy, like [undefined]. *)
Definition orElse (m : option Q) (fallback : Q) : Q :=
  match m with
  | Some v => if Number_eqb v 0 then fallback else v
  | None => fallback
  end.

Definition emaStep (dataWithEMA : list loc) (alpha : Q) (h : heap) (i : nat)
    : heap :=
  match dataWithEMA !! i, dataWithEMA !! (i - 1)%nat with
  | Some current, Some previous =>
      let h :=
        assign (MonthlyData.set_popularity_moving_avg
                  (Some (inject_Z (Math_round
                     ((alpha * avg_popularity_at h current +
                       (1 - alpha) *
                       orElse (popularity_moving_avg_at h previous)
                              (avg_popularity_at h previous)) * 100)) / 100)%Q))
               current h in
      assign (MonthlyData.set_vote_moving_avg
                (Some (inject_Z (Math_round
                   ((alpha * avg_vote_average_at h current +
                     (1 - alpha) *
                     orElse (vote_moving_avg_at h previous)
                            (avg_vote_average_at h previous)) * 100)) / 100)%Q))
             current h
  | _, _ => h
  end.

(** The seeding of index 0. *)
Definition emaSeed (dataWithEMA : list loc) (h : heap) : heap :=
  match dataWithEMA !! 0%nat with
  | Some first =>
      let h :=
        assign (MonthlyData.set_popularity_moving_avg
                  (Some (avg_popularity_at h first))) first h in
      assign (MonthlyData.set_vote_moving_avg
                (Some (avg_vote_average_at h first))) first h
  | None => h
  end.

Definition calculateExponentialMovingAverage (h : heap)
    (monthlyData : list loc) (alpha : Q) : heap * list loc :=
  if Qle_bool alpha 0 || Number_ltb 1 alpha ||
     (length monthlyData =? 0)%nat
  then (h, monthlyData)
  else
    let dataWithEMA := monthlyData in
    let h :=
      if (0 <? length dataWithEMA)%nat then emaSeed dataWithEMA h else h in
    (fold_left (emaStep dataWithEMA alpha)
               (seq 1 (length dataWithEMA - 1)) h,
     dataWithEMA).

(** ** top-movies.ts: the other rankings *)

Definition getTopRatedMovies (movies : list Movie.t) (genres : list Genre.t)
    (minVotes : Z) (topN : Z) : list TopMovie.t :=
  let highlyVotedMovies :=
    List.filter
      (fun movie => (minVotes <=? Movie.vote_count movie) &&
                    Qle_bool 7 (Movie.vote_average movie))
      movies in
  getTopMovies highlyVotedMovies genres vote_average topN.

(** [ids.includes(genreId)]. *)
Definition Array_includes (ids : list Z) (x : Z) : bool :=
  existsb (fun y => y =? x) ids.

Definition getTopMoviesByGenre (movies : list Movie.t) (genres : list Genre.t)
    (genreId : Z) (topN : Z) : list TopMovie.t :=
  let moviesInGenre :=
    List.filter (fun movie => Array_includes (Movie.genre_ids movie) genreId)
                movies in
  getTopMovies moviesInGenre genres popularity topN.

Module TopMoviesStats.
Record t := mk {
  avgPopularity : Q;
  avgVoteAverage : Q;
  mostCommonGenres : list (string * Z);
  totalMovies : Z
}.
End TopMoviesStats.

(** One turn of the inner loop: [genreCount.set(genre, (get(genre) || 0) + 1)]. *)
Definition countGenreName (genreCount : list (string * Z)) (genre : string)
    : list (string * Z) :=
  Map_set genreCount genre (default 0 (Map_get genreCount genre) + 1).

Definition getTopMoviesStats (topMovies : list TopMovie.t) : TopMoviesStats.t :=
  if (length topMovies =? 0)%nat then TopMoviesStats.mk 0 0 [] 0
  else
    let avgPopularity :=
      (inject_Z (Math_round
         ((fold_left (fun sum movie => sum + TopMovie.popularity movie) topMovies 0
           / inject_Z (Z.of_nat (length topMovies))) * 100)) / 100)%Q in
    let avgVoteAverage :=
      (inject_Z (Math_round
         ((fold_left (fun sum movie => sum + TopMovie.vote_average movie) topMovies 0
           / inject_Z (Z.of_nat (length topMovies))) * 100)) / 100)%Q in
    let genreCount :=
      fold_left
        (fun genreCount movie =>
           fold_left countGenreName (TopMovie.genre_names movie) genreCount)
        topMovies [] in
    let mostCommonGenres :=
      Array_slice
        (Array_sort (fun a b => inject_Z (snd b - snd a)) genreCount)
        0 5 in
    TopMoviesStats.mk avgPopularity avgVoteAverage mostCommonGenres
      (Z.of_nat (length topMovies)).

(** ** genre-analysis.ts: the other queries *)

(** [getTopGenres] sorts the array it is given, in place, and returns a
    slice of it: the first component is the argument after the call, the
    second the result. *)
Definition getTopGenres (distribution : list GenreDistribution.t) (topN : Z)
    : list GenreDistribution.t * list GenreDistribution.t :=
  let distribution :=
    Array_sort
      (fun a b => inject_Z (GenreDistribution.count b - GenreDistribution.count a))
      distribution in
  (distribution, Array_slice distribution 0 topN).

Definition getGenresByPopularity (distribution : list GenreDistribution.t)
    (minMovies : Z) (topN : Z) : list GenreDistribution.t :=
  Array_slice
    (Array_sort
       (fun a b => (GenreDistribution.avg_popularity b
                    - GenreDistribution.avg_popularity a)%Q)
       (List.filter (fun genre => minMovies <=? GenreDistribution.count genre)
                    distribution))
    0 topN.

Definition getTopRatedGenres (distribution : list GenreDistribution.t)
    (minMovies : Z) (topN : Z) : list GenreDistribution.t :=
  Array_slice
    (Array_sort
       (fun a b => (GenreDistribution.avg_vote_average b
                    - GenreDistribution.avg_vote_average a)%Q)
       (List.filter (fun genre => minMovies <=? GenreDistribution.count genre)
                    distribution))
    0 topN.

(** [enrichMoviesWithGenreNames]: a movie with its [genre_names]. *)
Definition enrichMoviesWithGenreNames (movies : list Movie.t)
    (genres : list Genre.t) : list (Movie.t * list string) :=
  let genreMap :=
    fold_left (fun m genre => Map_set m (Genre.id genre) (Genre.name genre))
              genres [] in
  map (fun movie =>
         (movie, omap (fun genreId => Map_get genreMap genreId)
                      (Movie.genre_ids movie)))
      movies.

Module GenreSummary.
Record t := mk {
  totalGenres : Z;
  avgMoviesPerGenre : Q;
  mostPopularGenre : option GenreDistribution.t;
  leastPopularGenre : option GenreDistribution.t;
  genreWithHighestRating : option GenreDistribution.t
}.
End GenreSummary.

(** [array.reduce(f)] without an initial value, on a non-empty array. *)
Definition Array_reduce1 {A} (f : A -> A -> A) (l : list A) : option A :=
  match l with
  | [] => None
  | x :: l' => Some (fold_left f l' x)
  end.

Definition getGenreStats (distribution : list GenreDistribution.t)
    : GenreSummary.t :=
  if (length distribution =? 0)%nat then GenreSummary.mk 0 0 None None None
  else
    let totalMoviesAcrossGenres :=
      fold_left (fun sum genre => sum + GenreDistribution.count genre)
                distribution 0 in
    let avgMoviesPerGenre :=
      (inject_Z (Math_round
         ((inject_Z totalMoviesAcrossGenres
           / inject_Z (Z.of_nat (length distribution))) * 100)) / 100)%Q in
    let mostPopularGenre :=
      Array_reduce1
        (fun max genre =>
           if GenreDistribution.count max <? GenreDistribution.count genre
           then genre else max)
        distribution in
    let leastPopularGenre :=
      Array_reduce1
        (fun min genre =>
           if GenreDistribution.count genre <? GenreDistribution.count min
           then genre else min)
        distribution in
    let genreWithHighestRating :=
      Array_reduce1
        (fun max genre =>
           if Number_ltb (GenreDistribution.avg_vote_average max)
                         (GenreDistribution.avg_vote_average genre)
           then genre else max)
        distribution in
    GenreSummary.mk (Z.of_nat (length distribution)) avgMoviesPerGenre
      mostPopularGenre leastPopularGenre genreWithHighestRating.

Module GenreFilters.
Record t := mk {
  minCount : option Z;
  maxCount : option Z;
  minPopularity : option Q;
  minRating : option Q;
  genreNames : option (list string)
}.
End GenreFilters.




(** ** index.ts: validation and summary *)

Module Validation.
Record t := mk {
  isValid : bool;
  errors : list string;
  warnings : list string
}.
End Validation.

(** [x.toFixed(2)]: the sign, then the nearest number of hundredths of the
    magnitude (the larger one on a tie), with two decimals. *)
Definition Number_toFixed2 (x : Q) : string :=
  let n := Math_round (Qabs x * 100) in
  String.append (if Number_ltb x 0 then "-" else "")%string
    (String.append (Number_toString (n / 100))
       (String "." (String_padStart 2 "0" (Number_toString (n mod 100))))).

(** The messages, code unit by code unit. *)
Definition msgNoMonthlyData : string := "No hay datos mensuales disponibles".
Definition msgNotChronological : string :=
  String.append "Los datos mensuales no est"
    (String (ascii_of_nat 225)
       (String.append "n ordenados cronol"
          (String (ascii_of_nat 243) "gicamente"))).
Definition msgNoTopMovies : string :=
  String.append "No hay top pel"
    (String (ascii_of_nat 237) "culas disponibles").
Definition msgNoGenreDistribution : string :=
  String.append "No hay distribuci"
    (String (ascii_of_nat 243)
       (String.append "n de g" (String (ascii_of_nat 233) "neros disponible"))).
Definition msgPercentages (totalPercentage : Q) : string :=
  String.append "Los porcentajes de g"
    (String (ascii_of_nat 233)
       (String.append "neros no suman 100% (actual: "
          (String.append (Number_toFixed2 totalPercentage) "%)"))).
Definition msgInvalidRange : string :=
  String.append "El rango de fechas es inv"
    (String (ascii_of_nat 225) "lido (inicio > fin)").

(** The callback of [every]: index 0 passes, any other index compares
    its month with the month before. *)
Definition isOrderedAt (h : heap) (monthly_data : list loc) (index : nat) : bool :=
  if (index =? 0)%nat then true
  else
    match monthly_data !! index, monthly_data !! (index - 1)%nat with
    | Some curr, Some prev => String_le (month_at h prev) (month_at h curr)
    | _, _ => true
    end.

Definition validateDashboardData (h : heap) (data : DashboardData.t)
    : Validation.t :=
  let monthly_data := DashboardData.monthly_data data in
  let errors1 :=
    if (length monthly_data =? 0)%nat then [msgNoMonthlyData] else [] in
  let warnings1 :=
    if (length monthly_data =? 0)%nat then []
    else
      let isOrdered :=
        forallb (isOrderedAt h monthly_data) (seq 0 (length monthly_data)) in
      if isOrdered then [] else [msgNotChronological] in
  let warnings2 :=
    if (length (DashboardData.top_movies data) =? 0)%nat
    then [msgNoTopMovies] else [] in
  let warnings3 :=
    if (length (DashboardData.genre_distribution data) =? 0)%nat
    then [msgNoGenreDistribution]
    else
      let totalPercentage :=
        fold_left (fun sum genre => (sum + GenreDistribution.percentage genre)%Q)
                  (DashboardData.genre_distribution data) 0%Q in
      if Number_ltb 5 (Qabs (totalPercentage - 100))
      then [msgPercentages totalPercentage] else [] in
  let errors2 :=
    if String.ltb (DateRange.end_ (DashboardData.date_range data))
                  (DateRange.start (DashboardData.date_range data))
    then [msgInvalidRange] else [] in
  let errors := errors1 ++ errors2 in
  let warnings := warnings1 ++ warnings2 ++ warnings3 in
  Validation.mk (length errors =? 0)%nat errors warnings.

Module TransformationSummary.
Record t := mk {
  totalMoviesProcessed : Z;
  monthsAnalyzed : Z;
  genresFound : Z;
  topMoviesSelected : Z;
  dateRangeCovered : string;
  transformationsApplied : list string
}.
End TransformationSummary.

Definition transformationsAppliedNames : list string :=
  [ String.append "Agregaci" (String (ascii_of_nat 243) "n Temporal Mensual");
    String.append "C" (String (ascii_of_nat 225) "lculo de Cambio Porcentual");
    String.append "Promedio M"
      (String (ascii_of_nat 243)
         (String.append "vil de 3 Per" (String (ascii_of_nat 237) "odos")));
    String.append "Filtrado Top-10 Pel" (String (ascii_of_nat 237) "culas");
    String.append "An"
      (String (ascii_of_nat 225)
         (String.append "lisis de Distribuci"
            (String (ascii_of_nat 243)
               (String.append "n de G" (String (ascii_of_nat 233) "neros"))))) ].

Definition getTransformationSummary (data : DashboardData.t)
    : TransformationSummary.t :=
  TransformationSummary.mk
    (DashboardData.total_movies data)
    (Z.of_nat (length (DashboardData.monthly_data data)))
    (Z.of_nat (length (DashboardData.genre_distribution data)))
    (Z.of_nat (length (DashboardData.top_movies data)))
    (String.append (DateRange.start (DashboardData.date_range data))
       (String.append " a " (DateRange.end_ (DashboardData.date_range data))))
    transformationsAppliedNames.

(** * Part II: the vocabulary of the specification

    Definitions that the statements below use: what the specification's
    words mean on the model, the inputs of the examples, and the claims
    that do not hold, written down as they are stated. *)

(** What the specification calls "rounded to 2 decimals": [r] is a multiple
    of one hundredth and no further than half a hundredth from [x]. *)
Definition rounded_2dp (x r : Q) : Prop :=
  (exists k : Z, r == k # 100)%Q /\ (Qabs (r - x) <= 1 # 200)%Q.

(** A comparator that orders by a relation [R]: whenever it does not put
    [x] first, it agrees to put [y] first. *)
Definition orders {A : Type} (compareFn : A -> A -> Q) (R : A -> A -> Prop) : Prop :=
  (forall x y, Qle_bool (compareFn x y) 0 = true -> R x y) /\
  (forall x y, Qle_bool (compareFn x y) 0 = false -> R y x).

(** [a < b] on strings, by code units, and the orders it induces on
    records through a key. *)
Definition String_lt (a b : string) : Prop := String.compare a b = Lt.

Definition keyLe {A : Type} (key : A -> string) (a b : A) : Prop :=
  String.compare (key a) (key b) <> Gt.

Definition keyLt {A : Type} (key : A -> string) (a b : A) : Prop :=
  String_lt (key a) (key b).

(** The sum and the mean of a window, and the [W] most recent values at
    index [i], [i] included. *)
Definition Qsum (xs : list Q) : Q := fold_right Qplus 0%Q xs.

Definition mean (W : Z) (xs : list Q) : Q := (Qsum xs / inject_Z W)%Q.

Definition recentValues (W : Z) (i : nat) (xs : list Q) : list Q :=
  take (Z.to_nat W) (drop (i + 1 - Z.to_nat W) xs).

(** The series of averages an array of references denotes. *)
Definition popularities (h : heap) (arr : list loc) : list Q :=
  map (avg_popularity_at h) arr.

Definition voteAverages (h : heap) (arr : list loc) : list Q :=
  map (avg_vote_average_at h) arr.

(** Two heaps with the same averages behind every reference, and the
    assignments that keep the averages of a record. *)
Definition frozen (h0 h : heap) : Prop :=
  forall l, avg_popularity_at h l = avg_popularity_at h0 l /\
            avg_vote_average_at h l = avg_vote_average_at h0 l.

Definition keepsAverages (f : MonthlyData.t -> MonthlyData.t) : Prop :=
  forall r, MonthlyData.avg_popularity (f r) = MonthlyData.avg_popularity r /\
            MonthlyData.avg_vote_average (f r) = MonthlyData.avg_vote_average r.

(** What turn [i] of the rolling-average loop assigns, computed on the
    heap [h]. *)
Definition movingAverageUpdate (h : heap) (arr : list loc) (W : Z) (i : nat)
    (r : MonthlyData.t) : MonthlyData.t :=
  let window := Array_slice arr (Z.of_nat i - W + 1) (Z.of_nat i + 1) in
  MonthlyData.set_vote_moving_avg
    (Some (inject_Z (Math_round
       ((fold_left (fun sum data => sum + avg_vote_average_at h data) window 0
         / inject_Z W) * 100)) / 100)%Q)
    (MonthlyData.set_popularity_moving_avg
       (Some (inject_Z (Math_round
          ((fold_left (fun sum data => sum + avg_popularity_at h data) window 0
            / inject_Z W) * 100)) / 100)%Q)
       r).

(** What turn [i] of the percentage-change loop assigns, computed on the
    heap [h]. *)
Definition percentageChangeUpdate (h : heap) (arr : list loc) (i : nat)
    (r : MonthlyData.t) : MonthlyData.t :=
  match arr !! i, arr !! (i - 1)%nat with
  | Some current, Some previous =>
      MonthlyData.set_vote_change_percent
        (Some (calculatePercentChange
                 (avg_vote_average_at h previous)
                 (avg_vote_average_at h current)))
        (MonthlyData.set_popularity_change_percent
           (Some (calculatePercentChange
                    (avg_popularity_at h previous)
                    (avg_popularity_at h current)))
           r)
  | _, _ => r
  end.

(** The movies of month [k] among [movies], in their order. *)
Definition moviesOfMonth (host : Host) (k : string) (movies : list Movie.t)
    : list Movie.t :=
  List.filter (fun movie => bool_decide (monthKeyOf host movie = k)) movies.

(** How many times the movies list the genre [genreId]: the number of
    movies carrying it, as long as no movie lists a genre twice. *)
Definition genreOccurrences (genreId : Z) (movies : list Movie.t) : Z :=
  fold_right
    (fun movie n =>
       Z.of_nat (count_occ Z.eq_dec (Movie.genre_ids movie) genreId) + n)
    0 movies.

Definition countOf (genreStats : list (Z * GenreStats.t)) (genreId : Z) : Z :=
  from_option GenreStats.count 0 (Map_get genreStats genreId).

(** The order of the genre distribution: counts never increase. *)
Definition countGe (a b : GenreDistribution.t) : Prop :=
  GenreDistribution.count b <= GenreDistribution.count a.

(** The addresses of records allocated behind the heap [p]. *)
Definition relocate (p : heap) (arr : list loc) : list loc :=
  map (fun j => (length p + j)%nat) arr.

(** Stages 2 and 3 as the orchestrator chains them. *)
Definition laterStages (h : heap) (arr : list loc) : heap * list loc :=
  calculateRollingAverage
    (fst (calculatePercentageChange h arr))
    (snd (calculatePercentageChange h arr)) 3.

(** The test that guards the date-range filter. *)
Definition dateRangeApplies (filters : DashboardFilters.t) : bool :=
  truthy (DashboardFilters.startDate filters) &&
  truthy (DashboardFilters.endDate filters).

(** The deep value of a result: the monthly records behind the references,
    and the other fields. *)
Definition deepValue (result : heap * DashboardData.t) :=
  (readArray (fst result) (DashboardData.monthly_data (snd result)),
   DashboardData.top_movies (snd result),
   DashboardData.genre_distribution (snd result),
   DashboardData.total_movies (snd result),
   DashboardData.date_range (snd result),
   DashboardData.filters_applied (snd result)).

(** Two hosts that read dates alike; their clocks may differ. *)
Definition sameCalendar (host1 host2 : Host) : Prop :=
  (forall s, Date_parse host1 s = Date_parse host2 s) /\
  (forall t, Date_getFullYear host1 t = Date_getFullYear host2 t) /\
  (forall t, Date_getMonth host1 t = Date_getMonth host2 t).

(** The monthly series of a run, as a value: the stages applied to the
    records of [aggregateByMonth] in a heap of their own. *)
Definition monthlySeries (host : Host) (movies : list Movie.t)
    (genres : list Genre.t) (filters : DashboardFilters.t)
    : list MonthlyData.t :=
  let records := monthlyRecords host movies genres in
  let arr := seq 0 (length records) in
  let arr :=
    if dateRangeApplies filters
    then filterByDateRange records arr
           (DashboardFilters.startDate filters)
           (DashboardFilters.endDate filters)
    else arr in
  readArray (fst (laterStages records arr)) (snd (laterStages records arr)).

(** The ranker's tests other than the one on the release date. *)
Definition meetsQualityFloor (movie : Movie.t) : Prop :=
  Movie.title movie <> EmptyString /\
  (exists poster, Movie.poster_path movie = Some poster /\
                  poster <> EmptyString) /\
  (0 < Movie.popularity movie)%Q /\
  100 <= Movie.vote_count movie.

(** ** Vocabulary of the further properties *)

(** The fields that [aggregateByMonth] fills in. *)
Definition aggregates (r : MonthlyData.t) :=
  (MonthlyData.month r, MonthlyData.year r, MonthlyData.movies_count r,
   MonthlyData.avg_popularity r, MonthlyData.avg_vote_average r,
   MonthlyData.total_vote_count r).

(** [r'] is [r] up to its two change fields, or up to its two
    moving-average fields. *)
Definition sameButChanges (r r' : MonthlyData.t) : Prop :=
  aggregates r' = aggregates r /\
  MonthlyData.popularity_moving_avg r' = MonthlyData.popularity_moving_avg r /\
  MonthlyData.vote_moving_avg r' = MonthlyData.vote_moving_avg r.

Definition sameButMovingAverages (r r' : MonthlyData.t) : Prop :=
  aggregates r' = aggregates r /\
  MonthlyData.popularity_change_percent r' =
    MonthlyData.popularity_change_percent r /\
  MonthlyData.vote_change_percent r' = MonthlyData.vote_change_percent r.

(** A heap [h'] that holds the same objects as [h], each related to what it
    was by [P], and untouched outside of [arr]. *)
Definition updatedWithin (P : MonthlyData.t -> MonthlyData.t -> Prop)
    (arr : list loc) (h h' : heap) : Prop :=
  length h' = length h /\
  forall l,
    (~ In l arr -> h' !! l = h !! l) /\
    match h !! l, h' !! l with
    | Some r, Some r' => P r r'
    | None, None => True
    | _, _ => False
    end.

(** A series of references in strictly increasing month order. *)
Definition chronological (h : heap) (arr : list loc) : Prop :=
  StronglySorted (fun a b => String_lt (month_at h a) (month_at h b)) arr.

Definition Zsum (xs : list Z) : Z := fold_right Z.add 0 xs.

(** The values of an optional field over a series, where it is present,
    and the change field a growth metric stands for. *)
Definition presentValues (field : loc -> option Q) (arr : list loc) : list Q :=
  omap field arr.

Definition changeField (h : heap) (metric : Metric) : loc -> option Q :=
  match metric with
  | metric_popularity => popularity_change_percent_at h
  | metric_vote => vote_change_percent_at h
  end.

(** The total of [c] over the movies held by a map of months. *)
Definition weight (c : Movie.t -> Z)
    (moviesByMonth : list (string * list Movie.t)) : Z :=
  Zsum (map (fun entry => Zsum (map c (snd entry))) moviesByMonth).

(** The total of [value] over the times the movies list the genre
    [genreId], and the total that the statistics hold for it in [field]. *)
Definition genreTotal (value : Movie.t -> Q) (genreId : Z)
    (movies : list Movie.t) : Q :=
  fold_right
    (fun movie q =>
       (inject_Z (Z.of_nat (count_occ Z.eq_dec (Movie.genre_ids movie) genreId))
        * value movie + q)%Q)
    0%Q movies.

Definition totalOf (field : GenreStats.t -> Q)
    (genreStats : list (Z * GenreStats.t)) (genreId : Z) : Q :=
  from_option field 0%Q (Map_get genreStats genreId).

(** The movies that pass the date filter of [aggregateByMonth]. *)
Definition datedMovies (host : Host) (movies : list Movie.t) : list Movie.t :=
  List.filter (hasValidDate host) movies.

(** A string of decimal digits. *)
Definition isDigits (s : string) : Prop :=
  Forall (fun c => exists d, digit_of c = Some d) (list_ascii_of_string s).

(** The score by which a criterion ranks an enriched movie. *)
Definition rankingScore (criteria : Criteria) (r : TopMovie.t) : Q :=
  match criteria with
  | popularity | vote_count => TopMovie.popularity r
  | vote_average => TopMovie.vote_average r
  | combined =>
      ((TopMovie.popularity r / 100) + (TopMovie.vote_average r * 10))%Q
  end.

(** [a] is ranked no lower than [b]. *)
Definition rankedBefore (criteria : Criteria) (a b : TopMovie.t) : Prop :=
  (rankingScore criteria b <= rankingScore criteria a)%Q.

(** The movies that pass the tests of the ranker. *)
Definition rankedMovies (movies : list Movie.t) : list Movie.t :=
  List.filter isValidMovie movies.

(** The genre of [genres] that an id resolves to in [enrichMovieWithGenres]. *)
Definition resolveGenre (genres : list Genre.t) (genreId : Z) : option Genre.t :=
  List.find (fun g => Genre.id g =? genreId) genres.

(** ** Inputs of the examples *)

(** A movie that passes every test of the ranker; its popularity has
    three decimals. *)
Definition sampleMovie : Movie.t :=
  Movie.mk 1 "Avatar" (Some "/avatar.jpg") "2023-01-15" [28; 12]
           (85234 # 1000) 7 1000.

(** [sampleMovie] without a release date. *)
Definition undatedMovie : Movie.t :=
  Movie.mk 1 "Avatar" (Some "/avatar.jpg") "" [28; 12] (85234 # 1000) 7 1000.

Definition sampleGenres : list Genre.t :=
  [Genre.mk 28 "Action"; Genre.mk 12 "Adventure"; Genre.mk 35 "Comedy"].

(** No filter at all. *)
Definition noFilters : DashboardFilters.t :=
  DashboardFilters.mk "" "" [] "popularity.desc" 0.

(** The three-month series of the specification's example, with average
    popularities 10, 20 and 30. *)
Definition exampleSeries : heap :=
  [ MonthlyData.mk "2023-01" (Some 2023) 1 10 7 100 None None None None;
    MonthlyData.mk "2023-02" (Some 2023) 1 20 8 100 None None None None;
    MonthlyData.mk "2023-03" (Some 2023) 1 30 9 100 None None None None ].

(** ** Claims that do not hold, as they are stated *)

(** C9 as it is written: the averages of a month that holds a single
    movie are that movie's values. *)
Definition singleMovieMonthClaim (host : Host) (movies : list Movie.t)
    (genres : list Genre.t) (movie : Movie.t) : Prop :=
  moviesOfMonth host (monthKeyOf host movie)
    (List.filter (hasValidDate host) movies) = [movie] ->
  forall r, In r (monthlyRecords host movies genres) ->
    MonthlyData.month r = monthKeyOf host movie ->
    (MonthlyData.avg_popularity r == Movie.popularity movie)%Q /\
    (MonthlyData.avg_vote_average r == Movie.vote_average movie)%Q.

(** C7 as it is written: two runs on the same movies, genres and filters
    return deep-equal results. *)
Definition deterministicClaim (host1 host2 : Host) (h1 h2 : heap)
    (movies : list Movie.t) (genres : list Genre.t)
    (filters : DashboardFilters.t) : Prop :=
  sameCalendar host1 host2 ->
  deepValue (transformDashboardData host1 h1 movies genres filters) =
  deepValue (transformDashboardData host2 h2 movies genres filters).

(** The part of C8 about the ranker, as it is written: a movie with an
    empty release date is still eligible for the top movies, so when it is
    the only movie and passes the other tests it is returned. *)
Definition undatedEligibleClaim (host : Host) (h : heap)
    (movie : Movie.t) (genres : list Genre.t)
    (filters : DashboardFilters.t) : Prop :=
  Movie.release_date movie = EmptyString ->
  meetsQualityFloor movie ->
  In (enrichMovieWithGenres movie genres)
     (DashboardData.top_movies
        (snd (transformDashboardData host h [movie] genres filters))).

(** * Part III: properties *)

(** ** Rounding lemmas *)

Lemma Math_round_bounds (x : Q) :
  (inject_Z (Math_round x) <= x + (1 # 2))%Q /\
  (x - (1 # 2) < inject_Z (Math_round x))%Q.
Proof.
  unfold Math_round. split.
  - apply Qfloor_le.
  - pose proof (Qlt_floor (x + (1 # 2))) as H.
    rewrite inject_Z_plus in H. change (inject_Z 1) with 1%Q in H. lra.
Qed.

Lemma round_div_100 (x : Q) :
  rounded_2dp x (inject_Z (Math_round (x * 100)) / 100)%Q.
Proof.
  destruct (Math_round_bounds (x * 100)) as [Hu Hl].
  set (n := Math_round (x * 100)) in *.
  split.
  - exists n. unfold Qdiv, Qeq, inject_Z. simpl. lia.
  - apply Qabs_case; intros _.
    + assert (inject_Z n / 100 == inject_Z n * (1 # 100))%Q as -> by reflexivity.
      lra.
    + assert (inject_Z n / 100 == inject_Z n * (1 # 100))%Q as -> by reflexivity.
      lra.
Qed.

#[export] Instance Math_round_Proper : Proper (Qeq ==> eq) Math_round.
Proof. intros x y E. unfold Math_round. now rewrite E. Qed.

#[export] Instance rounded_2dp_Proper : Proper (Qeq ==> Qeq ==> iff) rounded_2dp.
Proof.
  intros x y E r s F. unfold rounded_2dp.
  split; intros [[k Hk] Hd]; (split; [exists k|]).
  - now rewrite <- F.
  - now rewrite <- E, <- F.
  - now rewrite F.
  - now rewrite E, F.
Qed.

Lemma Number_eqb_true (x y : Q) : Number_eqb x y = true <-> (x == y)%Q.
Proof. apply Qeq_bool_iff. Qed.

Lemma Number_eqb_false (x y : Q) : Number_eqb x y = false <-> ~ (x == y)%Q.
Proof.
  rewrite <- Number_eqb_true. destruct (Number_eqb x y); split; congruence.
Qed.

(** C1. [calculatePercentChange previous current] is
    [((current - previous) / previous) * 100] rounded to 2 decimals when
    [previous] is not 0; when [previous] is 0 it is 0 if [current] is 0 and
    100 otherwise; and it takes the four documented values. *)
Theorem calculatePercentChange_spec (previous current : Q) :
  (~ (previous == 0)%Q ->
     rounded_2dp (((current - previous) / previous) * 100)%Q
                 (calculatePercentChange previous current)) /\
  ((previous == 0)%Q -> (current == 0)%Q ->
     (calculatePercentChange previous current == 0)%Q) /\
  ((previous == 0)%Q -> ~ (current == 0)%Q ->
     (calculatePercentChange previous current == 100)%Q) /\
  (calculatePercentChange 0 0 == 0)%Q /\
  (calculatePercentChange 0 50 == 100)%Q /\
  (calculatePercentChange 80 92 == 15)%Q /\
  (calculatePercentChange 100 85 == -15)%Q.
Proof.
  split; [|split; [|split]].
  - intros Hp. unfold calculatePercentChange.
    apply Number_eqb_false in Hp. rewrite Hp. apply round_div_100.
  - intros Hp Hc. unfold calculatePercentChange.
    apply Number_eqb_true in Hp, Hc. now rewrite Hp, Hc.
  - intros Hp Hc. unfold calculatePercentChange.
    apply Number_eqb_true in Hp. apply Number_eqb_false in Hc.
    now rewrite Hp, Hc.
  - repeat split; vm_compute; reflexivity.
Qed.

Lemma calculatePercentChange_spec_witness :
  rounded_2dp (((92 - 80) / 80) * 100)%Q (calculatePercentChange 80 92) /\
  (calculatePercentChange 0 0 == 0)%Q /\
  (calculatePercentChange 0 50 == 100)%Q.
Proof.
  split; [|split].
  - apply (proj1 (calculatePercentChange_spec 80 92)).
    vm_compute. discriminate.
  - apply (proj1 (proj2 (calculatePercentChange_spec 0 0)));
      vm_compute; reflexivity.
  - apply (proj1 (proj2 (proj2 (calculatePercentChange_spec 0 50)))).
    + vm_compute; reflexivity.
    + vm_compute; discriminate.
Defined.

(** ** Sorting and slicing *)

Section ArrayLemmas.
Context {A : Type}.
Implicit Types (l : list A) (compareFn : A -> A -> Q).

Lemma insertSorted_Permutation compareFn x l :
  Permutation (insertSorted compareFn x l) (x :: l).
Proof.
  induction l as [|y l IH]; simpl; [reflexivity|].
  destruct (Qle_bool (compareFn x y) 0); [reflexivity|].
  rewrite IH. apply perm_swap.
Qed.

Lemma Array_sort_Permutation compareFn l :
  Permutation (Array_sort compareFn l) l.
Proof.
  induction l as [|x l IH]; simpl; [reflexivity|].
  rewrite insertSorted_Permutation. now constructor.
Qed.

Lemma Array_sort_In compareFn l x :
  In x (Array_sort compareFn l) <-> In x l.
Proof.
  split; apply Permutation_in;
    [|symmetry]; apply Array_sort_Permutation.
Qed.

Lemma Array_sort_length compareFn l :
  length (Array_sort compareFn l) = length l.
Proof. apply Permutation_length, Array_sort_Permutation. Qed.

Lemma insertSorted_Sorted compareFn R x l :
  orders compareFn R -> Sorted R l -> Sorted R (insertSorted compareFn x l).
Proof.
  intros [Hle Hgt] Hs. induction Hs as [|y l Hs IH Hhd]; simpl.
  - repeat constructor.
  - destruct (Qle_bool (compareFn x y) 0) eqn:E.
    + constructor; [now constructor|]. constructor. now apply Hle.
    + constructor; [exact IH|].
      destruct l as [|z l]; simpl.
      * constructor. now apply Hgt.
      * destruct (Qle_bool (compareFn x z) 0) eqn:E'.
        -- constructor. now apply Hgt.
        -- constructor. now inversion Hhd.
Qed.

Lemma Array_sort_Sorted compareFn R l :
  orders compareFn R -> Sorted R (Array_sort compareFn l).
Proof.
  intros Ho. induction l as [|x l IH]; simpl; [constructor|].
  now apply insertSorted_Sorted.
Qed.

Lemma Array_slice_prefix l (n : Z) :
  0 <= n -> Array_slice l 0 n = take (Z.to_nat n) l.
Proof.
  intros Hn. unfold Array_slice, relativeIndex.
  change (0 <? 0) with false. cbv iota.
  destruct (n <? 0) eqn:E; [lia|].
  rewrite (Z.min_l 0) by lia. rewrite Z.sub_0_r. simpl Z.to_nat.
  rewrite drop_0.
  destruct (Z.min_spec n (Z.of_nat (length l))) as [[H ->]|[H ->]];
    [reflexivity|].
  rewrite Nat2Z.id, firstn_all.
  symmetry. apply take_ge. lia.
Qed.
End ArrayLemmas.

(** ** top-movies.ts: properties *)

Lemma truthy_true (s : string) : truthy s = true <-> s <> EmptyString.
Proof. unfold truthy. apply bool_decide_eq_true. Qed.

Lemma truthy_false (s : string) : truthy s = false <-> s = EmptyString.
Proof.
  unfold truthy. rewrite bool_decide_eq_false.
  destruct (decide (s = EmptyString)); tauto.
Qed.

Lemma Number_ltb_true (x y : Q) : Number_ltb x y = true <-> (x < y)%Q.
Proof.
  unfold Number_ltb. destruct (Qle_bool y x) eqn:E; simpl.
  - apply Qle_bool_iff in E. split; [discriminate|].
    intros H. exfalso. exact (Qlt_not_le _ _ H E).
  - split; [intros _|reflexivity].
    apply Qnot_le_lt. intros H. apply Qle_bool_iff in H. congruence.
Qed.

Lemma isValidMovie_true (movie : Movie.t) :
  isValidMovie movie = true <->
  Movie.title movie <> EmptyString /\
  (exists poster, Movie.poster_path movie = Some poster /\ poster <> EmptyString) /\
  Movie.release_date movie <> EmptyString /\
  (0 < Movie.popularity movie)%Q /\
  100 <= Movie.vote_count movie.
Proof.
  unfold isValidMovie. rewrite !andb_true_iff, !truthy_true, Number_ltb_true.
  rewrite Z.leb_le.
  destruct (Movie.poster_path movie) as [p|].
  - rewrite truthy_true. split.
    + intros ((((?&?)&?)&?)&?). repeat split; eauto.
    + intros (?&(p'&Hp&?)&?&?&?). inversion Hp; subst. tauto.
  - split.
    + intros ((((?&?)&?)&?)&?). discriminate.
    + intros (?&(p'&Hp&?)&?&?&?). discriminate.
Qed.

Lemma sortMoviesByCriteria_In movies criteria r :
  In r (sortMoviesByCriteria movies criteria) <-> In r movies.
Proof. destruct criteria; apply Array_sort_In. Qed.

Lemma Array_slice_In {A} (l : list A) (a b : Z) (x : A) :
  In x (Array_slice l a b) -> In x l.
Proof.
  unfold Array_slice. intros Hx. apply list_elem_of_In in Hx.
  apply list_elem_of_In.
  eapply subseteq_drop, subseteq_take, Hx.
Qed.

Lemma getTopMovies_In movies genres criteria N r :
  In r (getTopMovies movies genres criteria N) ->
  exists movie,
    In movie movies /\ isValidMovie movie = true /\
    r = enrichMovieWithGenres movie genres.
Proof.
  unfold getTopMovies. intros Hr.
  apply Array_slice_In, sortMoviesByCriteria_In in Hr.
  apply in_map_iff in Hr as (movie & <- & Hm).
  apply filter_In in Hm as [Hm Hv]. eauto.
Qed.

(** C3. For a count [N], [getTopMovies] returns at most [N] records, and
    every returned record is derived from an input movie with a non-empty
    title, a poster reference that is not null, a non-empty release date,
    a popularity above 0 and at least 100 votes. *)
Theorem getTopMovies_at_most_N_valid (movies : list Movie.t)
    (genres : list Genre.t) (criteria : Criteria) (N : Z) :
  0 <= N ->
  Z.of_nat (length (getTopMovies movies genres criteria N)) <= N /\
  forall r, In r (getTopMovies movies genres criteria N) ->
    exists movie,
      In movie movies /\
      r = enrichMovieWithGenres movie genres /\
      Movie.title movie <> EmptyString /\
      (exists poster, Movie.poster_path movie = Some poster /\
                      poster <> EmptyString) /\
      Movie.release_date movie <> EmptyString /\
      (0 < Movie.popularity movie)%Q /\
      100 <= Movie.vote_count movie.
Proof.
  intros HN. split.
  - unfold getTopMovies. rewrite Array_slice_prefix by exact HN.
    rewrite length_take. lia.
  - intros r Hr. apply getTopMovies_In in Hr as (movie & Hm & Hv & ->).
    apply isValidMovie_true in Hv. exists movie. tauto.
Qed.

Lemma getTopMovies_at_most_N_valid_witness :
  Z.of_nat (length (getTopMovies [sampleMovie] sampleGenres popularity 10)) <= 10.
Proof.
  refine (proj1 (getTopMovies_at_most_N_valid
                   [sampleMovie] sampleGenres popularity 10 _)).
  lia.
Defined.

(** ** Loops that write through an array of references

    Both smoothing stages run a loop whose turn [i] reads the averages of
    some records and assigns optional fields of the record behind
    [arr[i]].  The averages are never assigned, so every turn computes
    from the values the heap had when the loop started. *)

Lemma frozen_refl (h : heap) : frozen h h.
Proof. intros l. split; reflexivity. Qed.

Lemma frozen_assign (h0 h : heap) f (l : loc) :
  keepsAverages f -> frozen h0 h -> frozen h0 (assign f l h).
Proof.
  intros Hf Hfr l'. destruct (Hfr l') as [Hp Hv].
  unfold avg_popularity_at, avg_vote_average_at, assign in *.
  destruct (decide (l = l')) as [->|Hne].
  - rewrite list_lookup_alter_eq.
    destruct (h !! l') as [r|]; simpl in *; [|auto].
    destruct (Hf r) as [-> ->]. auto.
  - rewrite list_lookup_alter_ne by exact Hne. auto.
Qed.

Lemma assign_assign f g (l : loc) (h : heap) :
  assign f l (assign g l h) = assign (fun r => f (g r)) l h.
Proof.
  unfold assign. revert l. induction h as [|r h IH]; intros [|l]; simpl;
    try reflexivity.
  f_equal. apply IH.
Qed.

Lemma keepsAverages_set_popularity_change_percent v :
  keepsAverages (MonthlyData.set_popularity_change_percent v).
Proof. intros r. split; reflexivity. Qed.

Lemma keepsAverages_set_popularity_moving_avg v :
  keepsAverages (MonthlyData.set_popularity_moving_avg v).
Proof. intros r. split; reflexivity. Qed.

Section WriteLoop.
Variable arr : list loc.
Variable h0 : heap.
Variable step : heap -> nat -> heap.
Variable F : nat -> MonthlyData.t -> MonthlyData.t.

Hypothesis arr_NoDup : NoDup arr.
Hypothesis step_assign :
  forall h i t, frozen h0 h -> arr !! i = Some t -> step h i = assign (F i) t h.
Hypothesis F_keeps : forall i, keepsAverages (F i).

Lemma writeLoop_lookup (indices : list nat) :
  forall h, NoDup indices ->
    (forall i, i ∈ indices -> is_Some (arr !! i)) ->
    frozen h0 h ->
    (forall j t, j ∈ indices -> arr !! j = Some t ->
       fold_left step indices h !! t = F j <$> h !! t) /\
    (forall l, (forall j, j ∈ indices -> arr !! j <> Some l) ->
       fold_left step indices h !! l = h !! l).
Proof.
  induction indices as [|i indices IH]; intros h Hnd Hin Hfr.
  - split; [|reflexivity]. intros j t Hj. inversion Hj.
  - apply NoDup_cons in Hnd as [Hi Hnd].
    destruct (Hin i) as [ti Hti]; [left|].
    assert (Hstep : step h i = assign (F i) ti h) by now apply step_assign.
    destruct (IH (step h i)) as [IH1 IH2].
    { exact Hnd. }
    { intros j Hj. apply Hin. now right. }
    { rewrite Hstep. now apply frozen_assign. }
    simpl. split.
    + intros j t Hj Hjt. apply elem_of_cons in Hj as [->|Hj].
      * assert (t = ti) as -> by congruence.
        rewrite IH2.
        -- rewrite Hstep. apply list_lookup_alter_eq.
        -- intros j Hj Hjt'. apply Hi.
           now rewrite (NoDup_lookup arr i j ti arr_NoDup Hjt Hjt').
      * rewrite (IH1 j t Hj Hjt). f_equal. rewrite Hstep.
        apply list_lookup_alter_ne. intros ->.
        apply Hi. now rewrite (NoDup_lookup arr i j t arr_NoDup Hti Hjt).
    + intros l Hl. rewrite IH2.
      * rewrite Hstep. apply list_lookup_alter_ne. intros ->.
        apply (Hl i); [left|exact Hti].
      * intros j Hj. apply Hl. now right.
Qed.
End WriteLoop.

(** ** rolling-window.ts: properties *)

Lemma reduce_sum_Qsum {A} (f : A -> Q) (l : list A) (a : Q) :
  (fold_left (fun sum data => sum + f data) l a == a + Qsum (map f l))%Q.
Proof.
  revert a. induction l as [|x l IH]; intros a; simpl.
  - ring.
  - rewrite IH. ring.
Qed.

Lemma reduce_sum_ext {A} (f g : A -> Q) (l : list A) (a : Q) :
  (forall x, f x = g x) ->
  fold_left (fun sum data => sum + f data)%Q l a =
  fold_left (fun sum data => sum + g data)%Q l a.
Proof.
  intros E. revert a. induction l as [|x l IH]; intros a; simpl;
    [reflexivity|]. now rewrite E, IH.
Qed.

Lemma Array_slice_window {A} (l : list A) (W : Z) (i : nat) :
  1 <= W -> W - 1 <= Z.of_nat i -> (i < length l)%nat ->
  Array_slice l (Z.of_nat i - W + 1) (Z.of_nat i + 1) =
  take (Z.to_nat W) (drop (i + 1 - Z.to_nat W) l).
Proof.
  intros HW Hi Hlen. unfold Array_slice, relativeIndex.
  destruct (Z.of_nat i - W + 1 <? 0) eqn:E1; [lia|].
  destruct (Z.of_nat i + 1 <? 0) eqn:E2; [lia|].
  rewrite !Z.min_l by lia. f_equal; [lia|]. f_equal. lia.
Qed.

Lemma rollingAverageStep_assign (h0 : heap) (arr : list loc) (W : Z) :
  forall h i t, frozen h0 h -> arr !! i = Some t ->
    rollingAverageStep arr W h i = assign (movingAverageUpdate h0 arr W i) t h.
Proof.
  intros h i t Hfr Ht. unfold rollingAverageStep. rewrite Ht.
  rewrite assign_assign. unfold movingAverageUpdate. f_equal.
  assert (Hfr' : frozen h0
            (assign (MonthlyData.set_popularity_moving_avg
               (Some (inject_Z (Math_round
                 ((fold_left (fun sum data => sum + avg_popularity_at h data)
                     (Array_slice arr (Z.of_nat i - W + 1) (Z.of_nat i + 1)) 0
                   / inject_Z W) * 100)) / 100)%Q)) t h)).
  { apply frozen_assign;
      [apply keepsAverages_set_popularity_moving_avg | exact Hfr]. }
  rewrite (reduce_sum_ext (avg_vote_average_at _) (avg_vote_average_at h0))
    by (intros x; apply Hfr').
  rewrite (reduce_sum_ext (avg_popularity_at h) (avg_popularity_at h0))
    by (intros x; apply Hfr).
  reflexivity.
Qed.

Lemma movingAverageUpdate_keeps h arr W i :
  keepsAverages (movingAverageUpdate h arr W i).
Proof. intros r. split; reflexivity. Qed.

Lemma mean_rounded {A} (f : A -> Q) (window : list A) (W : Z) :
  rounded_2dp (mean W (map f window))
    (inject_Z (Math_round
       ((fold_left (fun sum data => sum + f data) window 0 / inject_Z W) * 100))
     / 100)%Q.
Proof.
  unfold mean.
  assert (E : (Qsum (map f window) / inject_Z W ==
               fold_left (fun sum data => sum + f data) window 0 / inject_Z W)%Q).
  { rewrite reduce_sum_Qsum. now rewrite Qplus_0_l. }
  rewrite E. apply round_div_100.
Qed.

(** C4. For a window size [W] (at least 1) and a series of distinct
    records: a series shorter than [W] is returned unchanged; otherwise
    the records below index [W-1] are left as they were, and the record at
    every index [i >= W-1] receives, for popularity and for vote average
    separately, the mean of the [W] most recent values ([i] included)
    rounded to 2 decimals.  On the series 10, 20, 30 with window 3 only
    the third record gets a popularity moving average, which is 20.00. *)
Theorem calculateRollingAverage_spec (h : heap) (monthlyData : list loc) (W : Z) :
  1 <= W ->
  NoDup monthlyData ->
  (Z.of_nat (length monthlyData) < W ->
     calculateRollingAverage h monthlyData W = (h, monthlyData)) /\
  snd (calculateRollingAverage h monthlyData W) = monthlyData /\
  (W <= Z.of_nat (length monthlyData) ->
   forall i l r, monthlyData !! i = Some l -> h !! l = Some r ->
     (Z.of_nat i < W - 1 ->
        fst (calculateRollingAverage h monthlyData W) !! l = Some r) /\
     (W - 1 <= Z.of_nat i ->
        exists p v,
          fst (calculateRollingAverage h monthlyData W) !! l =
            Some (MonthlyData.set_vote_moving_avg (Some v)
                    (MonthlyData.set_popularity_moving_avg (Some p) r)) /\
          rounded_2dp (mean W (recentValues W i (popularities h monthlyData))) p /\
          rounded_2dp (mean W (recentValues W i (voteAverages h monthlyData))) v)) /\
  match map MonthlyData.popularity_moving_avg
          (readArray (fst (calculateRollingAverage exampleSeries [0; 1; 2]%nat 3))
                     [0; 1; 2]%nat) with
  | [None; None; Some p] => (p == 20)%Q
  | _ => False
  end.
Proof.
  intros HW Hnd. unfold calculateRollingAverage.
  assert ((W <? 1) = false) as -> by lia. simpl orb.
  split; [|split; [|split]].
  - intros Hlt. assert ((Z.of_nat (length monthlyData) <? W) = true) as -> by lia.
    reflexivity.
  - destruct (Z.of_nat (length monthlyData) <? W); reflexivity.
  - intros Hle i l r Hi Hl.
    assert ((Z.of_nat (length monthlyData) <? W) = false) as -> by lia.
    simpl fst.
    set (first := Z.to_nat (W - 1)).
    set (indices := seq first (length monthlyData - first)).
    pose proof (lookup_lt_Some _ _ _ Hi) as Hilen.
    destruct (writeLoop_lookup monthlyData h
                (rollingAverageStep monthlyData W)
                (movingAverageUpdate h monthlyData W)
                Hnd (rollingAverageStep_assign h monthlyData W)
                (movingAverageUpdate_keeps h monthlyData W)
                indices h) as [Hin Hout].
    { apply NoDup_seq. }
    { intros j Hj. apply elem_of_seq in Hj. apply lookup_lt_is_Some. lia. }
    { apply frozen_refl. }
    split.
    + intros Hlow. rewrite Hout; [exact Hl|].
      intros j Hj Hjl. apply elem_of_seq in Hj.
      assert (j = i) by (eapply NoDup_lookup; eauto). lia.
    + intros Hhigh.
      rewrite (Hin i l); [|apply elem_of_seq; lia|exact Hi].
      rewrite Hl. simpl. eexists _, _. split; [reflexivity|].
      rewrite Array_slice_window by lia.
      unfold recentValues, popularities, voteAverages.
      rewrite !skipn_map, !firstn_map.
      split; apply mean_rounded.
  - vm_compute. reflexivity.
Qed.

Lemma calculateRollingAverage_spec_witness :
  snd (calculateRollingAverage exampleSeries [0; 1; 2]%nat 3) = [0; 1; 2]%nat.
Proof.
  refine (proj1 (proj2
    (calculateRollingAverage_spec exampleSeries [0; 1; 2]%nat 3 _ _))).
  - lia.
  - apply (NoDup_seq 0 3).
Defined.

(** ** percentage-change.ts: properties *)

Lemma percentageChangeStep_assign (h0 : heap) (arr : list loc) :
  forall h i t, frozen h0 h -> arr !! i = Some t ->
    percentageChangeStep arr h i = assign (percentageChangeUpdate h0 arr i) t h.
Proof.
  intros h i t Hfr Ht. unfold percentageChangeStep, percentageChangeUpdate.
  rewrite Ht. destruct (arr !! (i - 1)%nat) as [previous|].
  - rewrite assign_assign.
    assert (Hfr' : frozen h0
              (assign (MonthlyData.set_popularity_change_percent
                 (Some (calculatePercentChange
                          (avg_popularity_at h previous)
                          (avg_popularity_at h t)))) t h)).
    { apply frozen_assign;
        [apply keepsAverages_set_popularity_change_percent | exact Hfr]. }
    rewrite (proj2 (Hfr' previous)), (proj2 (Hfr' t)).
    rewrite (proj1 (Hfr previous)), (proj1 (Hfr t)). reflexivity.
  - unfold assign. symmetry. now apply list_alter_id.
Qed.

Lemma percentageChangeUpdate_keeps h arr i :
  keepsAverages (percentageChangeUpdate h arr i).
Proof.
  intros r. unfold percentageChangeUpdate.
  destruct (arr !! i), (arr !! (i - 1)%nat); split; reflexivity.
Qed.

(** What [calculatePercentageChange] leaves behind the references of a
    series of distinct records: the first record as it was, every other one
    with its two change fields assigned. *)
Lemma calculatePercentageChange_lookup (h : heap) (monthlyData : list loc) :
  NoDup monthlyData ->
  (2 <= length monthlyData)%nat ->
  snd (calculatePercentageChange h monthlyData) = monthlyData /\
  forall i l r, monthlyData !! i = Some l -> h !! l = Some r ->
    fst (calculatePercentageChange h monthlyData) !! l =
    Some (if (i =? 0)%nat then r else percentageChangeUpdate h monthlyData i r).
Proof.
  intros Hnd Hlen. unfold calculatePercentageChange.
  assert ((length monthlyData <? 2)%nat = false) as -> by (apply Nat.ltb_ge; lia).
  split; [reflexivity|]. intros i l r Hi Hl. simpl fst.
  pose proof (lookup_lt_Some _ _ _ Hi) as Hilen.
  destruct (writeLoop_lookup monthlyData h
              (percentageChangeStep monthlyData)
              (percentageChangeUpdate h monthlyData)
              Hnd (percentageChangeStep_assign h monthlyData)
              (percentageChangeUpdate_keeps h monthlyData)
              (seq 1 (length monthlyData - 1)) h) as [Hin Hout].
  { apply NoDup_seq. }
  { intros j Hj. apply elem_of_seq in Hj. apply lookup_lt_is_Some. lia. }
  { apply frozen_refl. }
  destruct i as [|i]; simpl.
  - rewrite Hout; [exact Hl|].
    intros j Hj Hjl. apply elem_of_seq in Hj.
    assert (j = 0%nat) by (eapply NoDup_lookup; eauto). lia.
  - rewrite (Hin (S i) l); [|apply elem_of_seq; lia|exact Hi].
    now rewrite Hl.
Qed.

(** ** Maps: properties *)

Section JsMapLemmas.
Context {K V : Type} `{EqDecision K}.
Implicit Types (m : list (K * V)) (k : K) (v : V).

Lemma Map_get_set m k v k' :
  Map_get (Map_set m k v) k' =
  if decide (k' = k) then Some v else Map_get m k'.
Proof.
  induction m as [|[k0 v0] m IH]; simpl.
  - destruct (decide (k' = k)); reflexivity.
  - destruct (decide (k = k0)) as [->|Hne]; simpl.
    + destruct (decide (k' = k0)); reflexivity.
    + destruct (decide (k' = k0)) as [->|Hne'].
      * destruct (decide (k0 = k)); [congruence|reflexivity].
      * exact IH.
Qed.

Lemma Map_has_In m k : Map_has m k = true <-> In k (map fst m).
Proof.
  unfold Map_has. induction m as [|[k0 v0] m IH]; simpl.
  - split; [discriminate|tauto].
  - destruct (decide (k = k0)) as [->|Hne].
    + split; auto.
    + rewrite IH. split; [auto|]. intros [E|E]; [congruence|exact E].
Qed.

Lemma Map_keys_set m k v :
  map fst (Map_set m k v) =
  if Map_has m k then map fst m else map fst m ++ [k].
Proof.
  unfold Map_has. induction m as [|[k0 v0] m IH]; simpl; [reflexivity|].
  destruct (decide (k = k0)) as [->|Hne]; simpl; [reflexivity|].
  rewrite IH. destruct (Map_get m k); reflexivity.
Qed.

Lemma Map_set_NoDup m k v :
  NoDup (map fst m) -> NoDup (map fst (Map_set m k v)).
Proof.
  intros Hnd. rewrite Map_keys_set.
  destruct (Map_has m k) eqn:E; [exact Hnd|].
  apply NoDup_app. split; [exact Hnd|]. split.
  - intros x Hx Hk. apply list_elem_of_singleton in Hk as ->.
    apply list_elem_of_In, Map_has_In in Hx. congruence.
  - apply NoDup_singleton.
Qed.

Lemma Map_get_In m k v : Map_get m k = Some v -> In (k, v) m.
Proof.
  induction m as [|[k0 v0] m IH]; simpl; [discriminate|].
  destruct (decide (k = k0)) as [->|Hne].
  - intros [= ->]. now left.
  - intros Hg. right. now apply IH.
Qed.

Lemma Map_In_get m k v :
  NoDup (map fst m) -> In (k, v) m -> Map_get m k = Some v.
Proof.
  induction m as [|[k0 v0] m IH]; simpl; [tauto|].
  intros Hnd Hin. apply NoDup_cons in Hnd as [Hk0 Hnd].
  destruct Hin as [[= -> ->]|Hin].
  - destruct (decide (k = k)); [reflexivity|congruence].
  - destruct (decide (k = k0)) as [->|Hne]; [|now apply IH].
    exfalso. apply Hk0. apply list_elem_of_In.
    apply in_map_iff. exists (k0, v). auto.
Qed.
End JsMapLemmas.

(** ** temporal-aggregation.ts: properties *)

Section TemporalAggregationLemmas.
Variable host : Host.

Lemma addToMonth_get moviesByMonth movie k :
  Map_get (addToMonth host moviesByMonth movie) k =
  if decide (k = monthKeyOf host movie)
  then Some (default [] (Map_get moviesByMonth k) ++ [movie])
  else Map_get moviesByMonth k.
Proof.
  unfold addToMonth. rewrite Map_get_set.
  destruct (decide (k = monthKeyOf host movie)) as [->|Hne].
  - unfold Map_has.
    destruct (Map_get moviesByMonth (monthKeyOf host movie)) eqn:E.
    + now rewrite E.
    + rewrite Map_get_set, decide_True by reflexivity. reflexivity.
  - destruct (Map_has moviesByMonth (monthKeyOf host movie));
      [reflexivity|].
    now rewrite Map_get_set, decide_False by exact Hne.
Qed.

Lemma addToMonth_NoDup moviesByMonth movie :
  NoDup (map fst moviesByMonth) ->
  NoDup (map fst (addToMonth host moviesByMonth movie)).
Proof.
  intros Hnd. unfold addToMonth. apply Map_set_NoDup.
  destruct (Map_has moviesByMonth (monthKeyOf host movie));
    [exact Hnd|now apply Map_set_NoDup].
Qed.

Lemma grouping_get (movies : list Movie.t) :
  forall moviesByMonth k,
    Map_get (fold_left (addToMonth host) movies moviesByMonth) k =
    match moviesOfMonth host k movies with
    | [] => Map_get moviesByMonth k
    | group => Some (default [] (Map_get moviesByMonth k) ++ group)
    end.
Proof.
  induction movies as [|movie movies IH]; intros m0 k; simpl;
    [reflexivity|].
  rewrite IH, addToMonth_get. unfold moviesOfMonth in *.
  destruct (decide (k = monthKeyOf host movie)) as [->|Hne].
  - rewrite bool_decide_eq_true_2 by reflexivity.
    destruct (List.filter _ movies); simpl; [reflexivity|].
    now rewrite <- app_assoc.
  - rewrite bool_decide_eq_false_2 by congruence. reflexivity.
Qed.

Lemma grouping_NoDup (movies : list Movie.t) :
  forall moviesByMonth,
    NoDup (map fst moviesByMonth) ->
    NoDup (map fst (fold_left (addToMonth host) movies moviesByMonth)).
Proof.
  induction movies as [|movie movies IH]; intros m0 Hnd; simpl;
    [exact Hnd|]. apply IH. now apply addToMonth_NoDup.
Qed.

(** The entries of the map are the non-empty months. *)
Lemma grouping_entries (movies : list Movie.t) k group :
  In (k, group) (fold_left (addToMonth host) movies []) <->
  group = moviesOfMonth host k movies /\ group <> [].
Proof.
  pose proof (grouping_NoDup movies [] (NoDup_nil_2)) as Hnd.
  pose proof (grouping_get movies [] k) as Hget. simpl in Hget.
  split.
  - intros Hin. apply (Map_In_get _ _ _ Hnd) in Hin.
    rewrite Hin in Hget.
    destruct (moviesOfMonth host k movies); [discriminate|].
    inversion Hget; subst. split; [reflexivity|discriminate].
  - intros [-> Hne]. apply Map_get_In. rewrite Hget.
    destruct (moviesOfMonth host k movies); [congruence|reflexivity].
Qed.
End TemporalAggregationLemmas.

(** ** The order of month keys *)

Lemma String_lt_trans (a b c : string) :
  String_lt a b -> String_lt b c -> String_lt a c.
Proof.
  unfold String_lt. revert b c.
  induction a as [|x a IH]; intros [|y b] [|z c]; simpl;
    try discriminate; try reflexivity.
  unfold Ascii.compare.
  destruct (N.compare_spec (N_of_ascii x) (N_of_ascii y)) as [E1|L1|G1];
    try discriminate;
    destruct (N.compare_spec (N_of_ascii y) (N_of_ascii z)) as [E2|L2|G2];
    try discriminate; intros H1 H2.
  - rewrite E1, E2, N.compare_refl. eauto.
  - rewrite E1. now apply N.compare_lt_iff in L2 as ->.
  - rewrite <- E2. now apply N.compare_lt_iff in L1 as ->.
  - assert (N_of_ascii x < N_of_ascii z)%N as L by lia.
    now apply N.compare_lt_iff in L as ->.
Qed.

#[export] Instance String_lt_Transitive : Transitive String_lt.
Proof. intros a b c. apply String_lt_trans. Qed.

Lemma localeCompare_le (a b : string) :
  Qle_bool (localeCompare a b) 0 = true -> String.compare a b <> Gt.
Proof.
  unfold localeCompare, compareCodeUnits.
  destruct (String.compare a b); [discriminate|discriminate|].
  vm_compute. discriminate.
Qed.

Lemma localeCompare_gt (a b : string) :
  Qle_bool (localeCompare a b) 0 = false -> String.compare b a <> Gt.
Proof.
  unfold localeCompare, compareCodeUnits. rewrite (String.compare_antisym b a).
  destruct (String.compare a b); simpl; discriminate.
Qed.

Section SortedByKey.
Context {A : Type} (key : A -> string).

Lemma keyLt_Transitive : Transitive (keyLt key).
Proof. intros a b c. apply String_lt_trans. Qed.

Lemma Sorted_keyLe_NoDup (l : list A) :
  Sorted (keyLe key) l -> NoDup (map key l) -> StronglySorted (keyLt key) l.
Proof.
  intros Hs Hnd. apply Sorted_StronglySorted; [exact keyLt_Transitive|].
  induction Hs as [|a l Hs IH Hhd]; [constructor|].
  simpl in Hnd. apply NoDup_cons in Hnd as [Ha Hnd].
  constructor; [now apply IH|].
  destruct Hhd as [|b l Hab]; constructor.
  unfold keyLe, keyLt, String_lt in *.
  destruct (String.compare (key a) (key b)) eqn:E;
    [|reflexivity|congruence].
  apply String.compare_eq_iff in E. exfalso. apply Ha.
  rewrite E. simpl. left.
Qed.

Lemma Array_sort_by_key (l : list A) :
  NoDup (map key l) ->
  StronglySorted (keyLt key)
    (Array_sort (fun a b => localeCompare (key a) (key b)) l).
Proof.
  intros Hnd. apply Sorted_keyLe_NoDup.
  - apply Array_sort_Sorted. split; intros x y.
    + apply localeCompare_le.
    + apply localeCompare_gt.
  - assert (Hp : Permutation
              (map key (Array_sort (fun a b => localeCompare (key a) (key b)) l))
              (map key l))
      by apply Permutation_map, Array_sort_Permutation.
    rewrite Hp. exact Hnd.
Qed.
End SortedByKey.

Lemma readArray_allocate (h : heap) (records : list MonthlyData.t) :
  readArray (fst (allocate h records)) (snd (allocate h records)) = records.
Proof.
  unfold allocate, readArray. simpl. revert h.
  induction records as [|r records IH]; intros h; simpl; [reflexivity|].
  rewrite lookup_app_r, Nat.sub_diag by lia. simpl. f_equal.
  specialize (IH (h ++ [r])).
  rewrite <- app_assoc, length_app in IH. simpl in IH.
  rewrite Nat.add_1_r in IH. exact IH.
Qed.

Lemma rounded_2dp_exact (x r : Q) :
  rounded_2dp x r -> (exists k : Z, x == k # 100)%Q -> (r == x)%Q.
Proof.
  intros [[k1 Hr] Hd] [k2 Hx]. rewrite Hr, Hx in *.
  apply Qabs_Qle_condition in Hd as [H1 H2].
  unfold Qle, Qminus, Qplus, Qopp, Qeq in *. simpl in *. lia.
Qed.

Section AggregateByMonthProperties.
Variable host : Host.

Lemma monthlyRecords_keys movies genres :
  Permutation
    (map MonthlyData.month (monthlyRecords host movies genres))
    (map fst (fold_left (addToMonth host)
                (List.filter (hasValidDate host) movies) [])).
Proof.
  unfold monthlyRecords.
  rewrite (Permutation_map _ (Array_sort_Permutation _ _)).
  rewrite map_map. reflexivity.
Qed.

Lemma monthlyRecords_In movies genres r :
  In r (monthlyRecords host movies genres) <->
  exists k,
    r = monthlyRecord
          (k, moviesOfMonth host k (List.filter (hasValidDate host) movies)) /\
    moviesOfMonth host k (List.filter (hasValidDate host) movies) <> [].
Proof.
  unfold monthlyRecords. rewrite Array_sort_In, in_map_iff. split.
  - intros [[k group] [<- Hin]]. apply grouping_entries in Hin as [-> Hne].
    exists k. auto.
  - intros [k [-> Hne]]. eexists (k, _). split; [reflexivity|].
    apply grouping_entries. auto.
Qed.

(** C5. The series returned by [aggregateByMonth] is strictly increasing
    by month key, so no key occurs twice; its keys are exactly the months
    of the movies that pass the date filter; and an empty input gives an
    empty series. *)
Theorem aggregateByMonth_strictly_increasing (h : heap)
    (movies : list Movie.t) (genres : list Genre.t) :
  let out :=
    readArray (fst (aggregateByMonth host h movies genres))
              (snd (aggregateByMonth host h movies genres)) in
  StronglySorted (keyLt MonthlyData.month) out /\
  NoDup (map MonthlyData.month out) /\
  (forall k, In k (map MonthlyData.month out) <->
     exists movie, In movie movies /\ hasValidDate host movie = true /\
                   monthKeyOf host movie = k) /\
  snd (aggregateByMonth host h [] genres) = [].
Proof.
  unfold aggregateByMonth. rewrite readArray_allocate. simpl.
  pose proof (grouping_NoDup host (List.filter (hasValidDate host) movies)
                [] (NoDup_nil_2)) as Hnd.
  split; [|split; [|split]].
  - unfold monthlyRecords. apply Array_sort_by_key.
    now rewrite map_map.
  - now rewrite monthlyRecords_keys.
  - intros k. rewrite in_map_iff. split.
    + intros [r [<- Hr]]. apply monthlyRecords_In in Hr as [k [-> Hne]].
      destruct (moviesOfMonth host k _) as [|movie group] eqn:E;
        [congruence|].
      assert (Hin : In movie (moviesOfMonth host k
                      (List.filter (hasValidDate host) movies)))
        by (rewrite E; now left).
      apply filter_In in Hin as [Hin Hk].
      apply filter_In in Hin as [Hin Hv].
      apply bool_decide_eq_true in Hk.
      exists movie. auto.
    + intros [movie [Hin [Hv <-]]].
      eexists. split; [|apply monthlyRecords_In; eexists; split;
                         [reflexivity|]].
      * reflexivity.
      * intros E.
        assert (Hm : In movie (moviesOfMonth host (monthKeyOf host movie)
                        (List.filter (hasValidDate host) movies))).
        { apply filter_In. split; [apply filter_In; auto|].
          now apply bool_decide_eq_true. }
        rewrite E in Hm. destruct Hm.
  - reflexivity.
Qed.

(** C9, amended. When [movie] is the only movie of its month that passes
    the date filter, the series has exactly one record for that month;
    it counts one movie, so both averages divide by 1, and they are the
    movie's popularity and vote average rounded to 2 decimals: equal to
    the movie's values when these have at most two decimals. *)
Theorem single_movie_month_rounded (h : heap) (movies : list Movie.t)
    (genres : list Genre.t) (movie : Movie.t) :
  moviesOfMonth host (monthKeyOf host movie)
    (List.filter (hasValidDate host) movies) = [movie] ->
  exists r,
    In r (readArray (fst (aggregateByMonth host h movies genres))
                    (snd (aggregateByMonth host h movies genres))) /\
    (forall r',
       In r' (readArray (fst (aggregateByMonth host h movies genres))
                        (snd (aggregateByMonth host h movies genres))) ->
       MonthlyData.month r' = monthKeyOf host movie -> r' = r) /\
    MonthlyData.month r = monthKeyOf host movie /\
    MonthlyData.movies_count r = 1 /\
    rounded_2dp (Movie.popularity movie) (MonthlyData.avg_popularity r) /\
    rounded_2dp (Movie.vote_average movie) (MonthlyData.avg_vote_average r) /\
    ((exists k : Z, Movie.popularity movie == k # 100)%Q ->
     (MonthlyData.avg_popularity r == Movie.popularity movie)%Q) /\
    ((exists k : Z, Movie.vote_average movie == k # 100)%Q ->
     (MonthlyData.avg_vote_average r == Movie.vote_average movie)%Q).
Proof.
  intros Hone. unfold aggregateByMonth. rewrite readArray_allocate.
  set (r := monthlyRecord (monthKeyOf host movie, [movie])).
  assert (Hp : rounded_2dp (Movie.popularity movie)
                 (MonthlyData.avg_popularity r)).
  { simpl.
    assert (E : (Movie.popularity movie ==
                 (0 + Movie.popularity movie) / inject_Z 1)%Q)
      by (unfold Qdiv; change (/ inject_Z 1)%Q with 1%Q; ring).
    rewrite E at 1. apply round_div_100. }
  assert (Hv : rounded_2dp (Movie.vote_average movie)
                 (MonthlyData.avg_vote_average r)).
  { simpl.
    assert (E : (Movie.vote_average movie ==
                 (0 + Movie.vote_average movie) / inject_Z 1)%Q)
      by (unfold Qdiv; change (/ inject_Z 1)%Q with 1%Q; ring).
    rewrite E at 1. apply round_div_100. }
  exists r. split; [|split; [|split; [|split; [|split; [|split; [|split]]]]]].
  - apply monthlyRecords_In. exists (monthKeyOf host movie).
    rewrite Hone. split; [reflexivity|discriminate].
  - intros r' Hr' Hk. apply monthlyRecords_In in Hr' as [k [-> _]].
    simpl in Hk. subst k. now rewrite Hone.
  - reflexivity.
  - reflexivity.
  - exact Hp.
  - exact Hv.
  - now apply rounded_2dp_exact.
  - now apply rounded_2dp_exact.
Qed.
End AggregateByMonthProperties.

(** ** genre-analysis.ts: properties *)

Lemma genreOccurrences_nonneg genreId movies :
  0 <= genreOccurrences genreId movies.
Proof. induction movies as [|m movies IH]; simpl; lia. Qed.

Lemma genreOccurrences_pos genreId movies :
  0 < genreOccurrences genreId movies <->
  exists movie, In movie movies /\ In genreId (Movie.genre_ids movie).
Proof.
  induction movies as [|m movies IH]; simpl.
  - split; [lia|]. intros [? [[] _]].
  - pose proof (genreOccurrences_nonneg genreId movies) as Hn.
    destruct (in_dec Z.eq_dec genreId (Movie.genre_ids m)) as [Hin|Hnin].
    + split; [intros _; eauto|]. intros _.
      apply (count_occ_In Z.eq_dec) in Hin. lia.
    + rewrite (proj1 (count_occ_not_In Z.eq_dec _ _) Hnin). simpl.
      rewrite IH. split.
      * intros [movie [H1 H2]]. eauto.
      * intros [movie [[<-|H1] H2]]; [contradiction|eauto].
Qed.

Lemma initial_stats_keys (genres : list Genre.t) :
  forall m0 : list (Z * GenreStats.t),
    NoDup (map fst m0) ->
    let m := fold_left
               (fun m genre => Map_set m (Genre.id genre) (GenreStats.mk 0 0 0 0))
               genres m0 in
    NoDup (map fst m) /\
    (forall k, In k (map fst m) <->
               In k (map fst m0) \/ In k (map Genre.id genres)) /\
    (forall k, In k (map Genre.id genres) -> countOf m k = 0) /\
    (forall k, ~ In k (map Genre.id genres) -> Map_get m k = Map_get m0 k).
Proof.
  induction genres as [|g genres IH]; intros m0 Hnd; simpl.
  - split; [exact Hnd|]. split; [tauto|]. split; [tauto|reflexivity].
  - destruct (IH (Map_set m0 (Genre.id g) (GenreStats.mk 0 0 0 0)))
      as (H1 & H2 & H3 & H4); [now apply Map_set_NoDup|].
    split; [exact H1|]. split; [|split].
    + intros k. rewrite H2, Map_keys_set.
      destruct (Map_has m0 (Genre.id g)) eqn:E.
      * apply Map_has_In in E. split; [tauto|].
        intros [H|[<-|H]]; auto.
      * rewrite in_app_iff. simpl. tauto.
    + intros k Hk.
      destruct (in_dec Z.eq_dec k (map Genre.id genres)) as [Hin|Hnin];
        [now apply H3|].
      destruct Hk as [<-|Hk]; [|contradiction].
      unfold countOf. rewrite H4 by exact Hnin.
      now rewrite Map_get_set, decide_True by reflexivity.
    + intros k Hk. rewrite H4 by tauto.
      rewrite Map_get_set, decide_False; [reflexivity|]. intros ->. tauto.
Qed.

Lemma countGenre_keys movie genreStats genreId :
  map fst (countGenre movie genreStats genreId) = map fst genreStats.
Proof.
  unfold countGenre. destruct (Map_get genreStats genreId) eqn:E;
    [|reflexivity].
  rewrite Map_keys_set. unfold Map_has. now rewrite E.
Qed.

Lemma countGenre_countOf movie genreStats genreId k :
  In k (map fst genreStats) ->
  countOf (countGenre movie genreStats genreId) k =
  countOf genreStats k + (if decide (genreId = k) then 1 else 0).
Proof.
  intros Hk. apply Map_has_In in Hk. unfold Map_has in Hk.
  unfold countGenre, countOf.
  destruct (decide (genreId = k)) as [->|Hne].
  - destruct (Map_get genreStats k) eqn:E; [|discriminate].
    now rewrite Map_get_set, decide_True by reflexivity.
  - destruct (Map_get genreStats genreId) eqn:E; [|lia].
    rewrite Map_get_set, decide_False by congruence. lia.
Qed.

Lemma countGenres_fold movie (genreIds : list Z) :
  forall genreStats k,
    map fst (fold_left (countGenre movie) genreIds genreStats) =
      map fst genreStats /\
    (In k (map fst genreStats) ->
     countOf (fold_left (countGenre movie) genreIds genreStats) k =
     countOf genreStats k + Z.of_nat (count_occ Z.eq_dec genreIds k)).
Proof.
  induction genreIds as [|g genreIds IH]; intros stats k; simpl.
  - split; [reflexivity|lia].
  - destruct (IH (countGenre movie stats g) k) as [Hk Hc].
    rewrite countGenre_keys in Hk, Hc. split; [exact Hk|].
    intros Hin. rewrite (Hc Hin), (countGenre_countOf _ _ _ _ Hin).
    destruct (Z.eq_dec g k) as [->|Hne].
    + rewrite decide_True by reflexivity. lia.
    + rewrite decide_False by exact Hne. lia.
Qed.

Lemma countMovie_spec genreStats movie k :
  map fst (countMovie genreStats movie) = map fst genreStats /\
  (In k (map fst genreStats) ->
   countOf (countMovie genreStats movie) k =
   countOf genreStats k +
   Z.of_nat (count_occ Z.eq_dec (Movie.genre_ids movie) k)).
Proof.
  unfold countMovie.
  destruct (Movie.genre_ids movie) as [|g ids] eqn:E.
  - simpl. split; [reflexivity|lia].
  - change ((length (g :: ids) =? 0)%nat) with false. cbv iota.
    apply countGenres_fold.
Qed.

Lemma countMovies_spec (movies : list Movie.t) :
  forall genreStats k,
    map fst (fold_left countMovie movies genreStats) = map fst genreStats /\
    (In k (map fst genreStats) ->
     countOf (fold_left countMovie movies genreStats) k =
     countOf genreStats k + genreOccurrences k movies).
Proof.
  induction movies as [|movie movies IH]; intros stats k; simpl.
  - split; [reflexivity|lia].
  - destruct (IH (countMovie stats movie) k) as [Hk Hc].
    destruct (countMovie_spec stats movie k) as [Hk' Hc'].
    rewrite Hk' in Hk, Hc. split; [exact Hk|].
    intros Hin. rewrite (Hc Hin), (Hc' Hin). lia.
Qed.

Lemma distributionRecord_Some genreMap totalMovies entry r :
  distributionRecord genreMap totalMovies entry = Some r ->
  GenreDistribution.genre_id r = fst entry /\
  GenreDistribution.count r = GenreStats.count (snd entry) /\
  0 < GenreStats.count (snd entry) /\
  GenreDistribution.percentage r =
    (inject_Z (Math_round
       ((inject_Z (GenreStats.count (snd entry)) / inject_Z totalMovies)
        * 10000)) / 100)%Q.
Proof.
  unfold distributionRecord.
  destruct (0 <? GenreStats.count (snd entry)) eqn:E; [|discriminate].
  intros [= <-]. simpl. repeat split. lia.
Qed.

Lemma distribution_NoDup genreMap totalMovies
    (genreStats : list (Z * GenreStats.t)) :
  NoDup (map fst genreStats) ->
  NoDup (map GenreDistribution.genre_id
           (omap (distributionRecord genreMap totalMovies) genreStats)).
Proof.
  induction genreStats as [|e st IH]; simpl; intros Hnd; [constructor|].
  apply NoDup_cons in Hnd as [He Hnd].
  destruct (distributionRecord genreMap totalMovies e) as [r|] eqn:E;
    [|now apply IH].
  simpl. apply NoDup_cons. split; [|now apply IH].
  intros Hin. apply He.
  apply list_elem_of_In, in_map_iff in Hin as [r' [Hid Hr']].
  apply list_elem_of_In, list_elem_of_omap in Hr' as [e' [He' Hf]].
  apply distributionRecord_Some in E as [E _].
  apply distributionRecord_Some in Hf as [Hf _].
  apply list_elem_of_In, in_map_iff. exists e'.
  split; [congruence|now apply list_elem_of_In].
Qed.

Lemma countGe_Transitive : Transitive countGe.
Proof. intros a b c. unfold countGe. lia. Qed.

Lemma inject_Z_le_bool (z : Z) : Qle_bool (inject_Z z) 0 = (z <=? 0).
Proof.
  unfold Qle_bool, inject_Z. simpl. now rewrite Z.mul_1_r.
Qed.

Lemma genreDistribution_records (movies : list Movie.t)
    (genres : list Genre.t) :
  let out := analyzeGenreDistribution movies genres in
  NoDup (map GenreDistribution.genre_id out) /\
  (forall genreId,
     In genreId (map GenreDistribution.genre_id out) <->
     In genreId (map Genre.id genres) /\
     exists movie, In movie movies /\ In genreId (Movie.genre_ids movie)) /\
  (forall r, In r out ->
     0 < GenreDistribution.count r /\
     GenreDistribution.count r =
       genreOccurrences (GenreDistribution.genre_id r) movies /\
     rounded_2dp
       ((inject_Z (GenreDistribution.count r)
         / inject_Z (Z.of_nat (length movies))) * 100)%Q
       (GenreDistribution.percentage r)).
Proof.
  unfold analyzeGenreDistribution.
  set (genreMap := fold_left _ genres []).
  set (init := fold_left
                 (fun m genre => Map_set m (Genre.id genre) (GenreStats.mk 0 0 0 0))
                 genres []).
  set (st := fold_left countMovie movies init).
  set (total := Z.of_nat (length movies)).
  destruct (initial_stats_keys genres [] (NoDup_nil_2))
    as (Hnd0 & Hkeys0 & Hzero & _). fold init in Hnd0, Hkeys0, Hzero.
  assert (Hkeys : map fst st = map fst init)
    by apply (countMovies_spec movies init 0).
  assert (Hnd : NoDup (map fst st)) by now rewrite Hkeys.
  assert (Hcount : forall k s, In (k, s) st ->
            In k (map Genre.id genres) /\
            GenreStats.count s = genreOccurrences k movies).
  { intros k s Hin.
    assert (Hk : In k (map fst init)).
    { rewrite <- Hkeys. apply in_map_iff. exists (k, s). auto. }
    assert (Hg : In k (map Genre.id genres)).
    { apply Hkeys0 in Hk as [[]|Hk]. exact Hk. }
    split; [exact Hg|].
    pose proof (proj2 (countMovies_spec movies init k) Hk) as Hc.
    fold st in Hc. rewrite (Hzero k Hg) in Hc.
    unfold countOf in Hc. rewrite (Map_In_get _ _ _ Hnd Hin) in Hc.
    simpl in Hc. lia. }
  assert (Hout : forall r,
            In r (Array_sort
                    (fun a b => inject_Z (GenreDistribution.count b
                                          - GenreDistribution.count a))
                    (omap (distributionRecord genreMap total) st)) <->
            exists e, In e st /\
                      distributionRecord genreMap total e = Some r).
  { intros r. rewrite Array_sort_In, <- list_elem_of_In, list_elem_of_omap.
    split; intros [e [H1 H2]]; exists e; split; auto;
      now apply list_elem_of_In. }
  split; [|split].
  - rewrite (Permutation_map _ (Array_sort_Permutation _ _)).
    now apply distribution_NoDup.
  - intros g. rewrite in_map_iff. split.
    + intros [r [<- Hr]]. apply Hout in Hr as [[k s] [He Hf]].
      apply distributionRecord_Some in Hf as (-> & _ & Hpos & _).
      simpl in *. destruct (Hcount k s He) as [Hg Hc].
      split; [exact Hg|]. apply genreOccurrences_pos. lia.
    + intros [Hg Hm]. apply genreOccurrences_pos in Hm.
      assert (Hk : In g (map fst st)).
      { rewrite Hkeys. apply Hkeys0. now right. }
      apply in_map_iff in Hk as [[k s] [Hfst He]]. simpl in Hfst. subst k.
      destruct (Hcount g s He) as [_ Hc].
      destruct (distributionRecord genreMap total (g, s)) as [r|] eqn:E.
      * exists r. split.
        -- now apply distributionRecord_Some in E as [-> _].
        -- apply Hout. eauto.
      * unfold distributionRecord in E. simpl in E.
        assert ((0 <? GenreStats.count s) = true) as Hpos by lia.
        rewrite Hpos in E. discriminate.
  - intros r Hr. apply Hout in Hr as [[k s] [He Hf]].
    apply distributionRecord_Some in Hf as (Hid & Hc & Hpos & Hp).
    simpl in *. destruct (Hcount k s He) as [_ Hocc].
    split; [lia|]. split; [congruence|].
    rewrite Hp, Hc.
    assert (E : (inject_Z (GenreStats.count s) / inject_Z total * 10000 ==
                 inject_Z (GenreStats.count s) / inject_Z total * 100 * 100)%Q)
      by ring.
    rewrite E. apply round_div_100.
Qed.

(** C6. [analyzeGenreDistribution] emits exactly one record per known
    genre that at least one movie carries, and none for the other genres;
    the count of a record is the number of times the movies list its
    genre, its percentage is that count divided by the length of the
    input movie sequence, times 100, rounded to 2 decimals; and the result
    is sorted by count, largest first. *)
Theorem analyzeGenreDistribution_spec (movies : list Movie.t)
    (genres : list Genre.t) :
  let out := analyzeGenreDistribution movies genres in
  NoDup (map GenreDistribution.genre_id out) /\
  (forall genreId,
     In genreId (map GenreDistribution.genre_id out) <->
     In genreId (map Genre.id genres) /\
     exists movie, In movie movies /\ In genreId (Movie.genre_ids movie)) /\
  (forall r, In r out ->
     0 < GenreDistribution.count r /\
     GenreDistribution.count r =
       genreOccurrences (GenreDistribution.genre_id r) movies /\
     rounded_2dp
       ((inject_Z (GenreDistribution.count r)
         / inject_Z (Z.of_nat (length movies))) * 100)%Q
       (GenreDistribution.percentage r)) /\
  StronglySorted countGe out.
Proof.
  destruct (genreDistribution_records movies genres) as (H1 & H2 & H3).
  split; [exact H1|]. split; [exact H2|]. split; [exact H3|].
  unfold analyzeGenreDistribution.
  apply Sorted_StronglySorted; [exact countGe_Transitive|].
  apply Array_sort_Sorted. split; intros x y;
    rewrite inject_Z_le_bool; unfold countGe; lia.
Qed.

(** ** The stages do not depend on where the records live

    Records allocated behind a heap [p] are at the addresses
    [length p + j]; every stage acts on them as it acts on the same records
    in a heap of their own. *)

Section Relocation.
Variable p : heap.

Lemma relocate_lookup (arr : list loc) (i : nat) :
  relocate p arr !! i = (fun j => (length p + j)%nat) <$> arr !! i.
Proof.
  unfold relocate. revert i.
  induction arr as [|a arr IH]; intros [|i]; simpl; auto.
Qed.

Lemma lookup_behind (records : heap) (j : loc) :
  (p ++ records) !! (length p + j)%nat = records !! j.
Proof. rewrite lookup_app_r by lia. f_equal. lia. Qed.

Lemma avg_popularity_at_behind records j :
  avg_popularity_at (p ++ records) (length p + j)%nat =
  avg_popularity_at records j.
Proof. unfold avg_popularity_at. now rewrite lookup_behind. Qed.

Lemma avg_vote_average_at_behind records j :
  avg_vote_average_at (p ++ records) (length p + j)%nat =
  avg_vote_average_at records j.
Proof. unfold avg_vote_average_at. now rewrite lookup_behind. Qed.

Lemma month_at_behind records j :
  month_at (p ++ records) (length p + j)%nat = month_at records j.
Proof. unfold month_at. now rewrite lookup_behind. Qed.

Lemma assign_behind f records j :
  assign f (length p + j)%nat (p ++ records) = p ++ assign f j records.
Proof. unfold assign. apply alter_app_r. Qed.

Lemma readArray_behind records arr :
  readArray (p ++ records) (relocate p arr) = readArray records arr.
Proof.
  unfold readArray, relocate.
  induction arr as [|a arr IH]; [reflexivity|].
  cbn [map omap list_omap]. rewrite lookup_behind.
  destruct (records !! a); cbn; now rewrite <- IH.
Qed.

Lemma filterByDateRange_behind records arr startDate endDate :
  filterByDateRange (p ++ records) (relocate p arr) startDate endDate =
  relocate p (filterByDateRange records arr startDate endDate).
Proof.
  unfold filterByDateRange, relocate.
  induction arr as [|a arr IH]; simpl; [reflexivity|].
  rewrite month_at_behind, IH.
  now destruct (String_le _ (month_at records a) && _).
Qed.

Lemma percentageChangeStep_behind records arr i :
  percentageChangeStep (relocate p arr) (p ++ records) i =
  p ++ percentageChangeStep arr records i.
Proof.
  unfold percentageChangeStep. rewrite !relocate_lookup.
  destruct (arr !! i) as [current|]; simpl; [|reflexivity].
  destruct (arr !! (i - 1)%nat) as [previous|]; simpl; [|reflexivity].
  rewrite !avg_popularity_at_behind, assign_behind.
  rewrite !avg_vote_average_at_behind, assign_behind. reflexivity.
Qed.

Lemma reduce_relocate (f : heap -> loc -> Q) records (window : list loc) :
  (forall j, f (p ++ records) (length p + j)%nat = f records j) ->
  forall a,
    fold_left (fun sum data => (sum + f (p ++ records) data)%Q)
              (relocate p window) a =
    fold_left (fun sum data => (sum + f records data)%Q) window a.
Proof.
  intros Hf. unfold relocate.
  induction window as [|w window IH]; intros a; simpl; [reflexivity|].
  now rewrite Hf, IH.
Qed.

Lemma Array_slice_relocate arr a b :
  Array_slice (relocate p arr) a b = relocate p (Array_slice arr a b).
Proof.
  unfold Array_slice, relocate.
  now rewrite length_map, skipn_map, firstn_map.
Qed.

Lemma rollingAverageStep_behind records arr W i :
  rollingAverageStep (relocate p arr) W (p ++ records) i =
  p ++ rollingAverageStep arr W records i.
Proof.
  unfold rollingAverageStep. rewrite relocate_lookup.
  destruct (arr !! i) as [target|]; simpl; [|reflexivity].
  rewrite Array_slice_relocate.
  rewrite (reduce_relocate avg_popularity_at)
    by apply avg_popularity_at_behind.
  rewrite assign_behind.
  rewrite (reduce_relocate avg_vote_average_at)
    by apply avg_vote_average_at_behind.
  rewrite assign_behind. reflexivity.
Qed.

Lemma fold_behind (step step' : heap -> nat -> heap) (indices : list nat) :
  (forall records i, step (p ++ records) i = p ++ step' records i) ->
  forall records,
    fold_left step indices (p ++ records) =
    p ++ fold_left step' indices records.
Proof.
  intros Hs. induction indices as [|i indices IH]; intros records; simpl;
    [reflexivity|]. now rewrite Hs, IH.
Qed.

Lemma calculatePercentageChange_behind records arr :
  calculatePercentageChange (p ++ records) (relocate p arr) =
  (p ++ fst (calculatePercentageChange records arr),
   relocate p (snd (calculatePercentageChange records arr))).
Proof.
  unfold calculatePercentageChange, relocate. rewrite length_map.
  destruct (length arr <? 2)%nat; simpl; [reflexivity|].
  f_equal. apply fold_behind. intros r i.
  apply percentageChangeStep_behind.
Qed.

Lemma calculateRollingAverage_behind records arr W :
  calculateRollingAverage (p ++ records) (relocate p arr) W =
  (p ++ fst (calculateRollingAverage records arr W),
   relocate p (snd (calculateRollingAverage records arr W))).
Proof.
  unfold calculateRollingAverage, relocate. rewrite length_map.
  destruct ((W <? 1) || (Z.of_nat (length arr) <? W)); simpl;
    [reflexivity|].
  f_equal. apply fold_behind. intros r i.
  apply rollingAverageStep_behind.
Qed.

Lemma allocate_behind records :
  allocate p records = (p ++ records, relocate p (seq 0 (length records))).
Proof.
  unfold allocate, relocate. f_equal.
  assert (Hseq : forall n k,
            seq (length p + k) n =
            map (fun j => (length p + j)%nat) (seq k n)).
  { induction n as [|n IH]; intros k; simpl; [reflexivity|].
    f_equal. rewrite <- IH. f_equal. lia. }
  rewrite <- Hseq. f_equal. lia.
Qed.
End Relocation.

(** ** index.ts: properties *)

Lemma transformDashboardData_monthly host h movies genres filters :
  (fst (transformDashboardData host h movies genres filters),
   DashboardData.monthly_data
     (snd (transformDashboardData host h movies genres filters))) =
  laterStages
    (fst (aggregateByMonth host h movies genres))
    (if dateRangeApplies filters
     then filterByDateRange
            (fst (aggregateByMonth host h movies genres))
            (snd (aggregateByMonth host h movies genres))
            (DashboardFilters.startDate filters)
            (DashboardFilters.endDate filters)
     else snd (aggregateByMonth host h movies genres)).
Proof.
  unfold transformDashboardData, laterStages, dateRangeApplies.
  destruct (aggregateByMonth host h movies genres) as [h1 arr1]. simpl.
  destruct (calculatePercentageChange h1 _) as [h2 arr2]. simpl.
  destruct (calculateRollingAverage h2 arr2 3) as [h3 arr3]. reflexivity.
Qed.

Lemma transformDashboardData_fields host h movies genres filters :
  let result := snd (transformDashboardData host h movies genres filters) in
  DashboardData.top_movies result = getTopMovies movies genres popularity 10 /\
  DashboardData.genre_distribution result =
    analyzeGenreDistribution movies genres /\
  DashboardData.total_movies result = Z.of_nat (length movies) /\
  DashboardData.filters_applied result = filters /\
  DashboardData.date_range result =
    DateRange.mk
      (if truthy (DashboardFilters.startDate filters)
       then DashboardFilters.startDate filters
       else getEarliestDate host movies)
      (if truthy (DashboardFilters.endDate filters)
       then DashboardFilters.endDate filters
       else getLatestDate host movies).
Proof.
  unfold transformDashboardData.
  destruct (aggregateByMonth host h movies genres) as [h1 arr1].
  destruct (calculatePercentageChange h1 _) as [h2 arr2].
  destruct (calculateRollingAverage h2 arr2 3) as [h3 arr3].
  simpl. repeat split.
Qed.

Lemma laterStages_behind (p records : heap) (arr : list loc) :
  laterStages (p ++ records) (relocate p arr) =
  (p ++ fst (laterStages records arr),
   relocate p (snd (laterStages records arr))).
Proof.
  unfold laterStages. rewrite calculatePercentageChange_behind. simpl.
  apply calculateRollingAverage_behind.
Qed.

Lemma transformDashboardData_monthlySeries host h movies genres filters :
  readArray (fst (transformDashboardData host h movies genres filters))
    (DashboardData.monthly_data
       (snd (transformDashboardData host h movies genres filters))) =
  monthlySeries host movies genres filters.
Proof.
  pose proof (transformDashboardData_monthly host h movies genres filters) as E.
  apply (f_equal (fun r => readArray (fst r) (snd r))) in E.
  cbv beta in E. unfold fst at 1, snd at 1 in E. rewrite E. clear E.
  unfold monthlySeries, aggregateByMonth.
  rewrite allocate_behind. simpl fst. simpl snd.
  destruct (dateRangeApplies filters).
  - rewrite filterByDateRange_behind, laterStages_behind. simpl.
    apply readArray_behind.
  - rewrite laterStages_behind. simpl. apply readArray_behind.
Qed.

Lemma monthlyRecords_sameCalendar host1 host2 movies genres :
  sameCalendar host1 host2 ->
  monthlyRecords host1 movies genres = monthlyRecords host2 movies genres.
Proof.
  intros (Hp & Hy & Hm). unfold monthlyRecords.
  assert (Hv : forall m, hasValidDate host1 m = hasValidDate host2 m).
  { intros m. unfold hasValidDate. now rewrite Hp. }
  assert (Hk : forall m, monthKeyOf host1 m = monthKeyOf host2 m).
  { intros m. unfold monthKeyOf. rewrite Hp.
    destruct (Date_parse host2 _); [|reflexivity]. now rewrite Hy, Hm. }
  rewrite (filter_ext _ _ Hv).
  assert (Hf : forall l m0,
            fold_left (addToMonth host1) l m0 =
            fold_left (addToMonth host2) l m0).
  { induction l as [|m l IH]; intros m0; simpl; [reflexivity|].
    rewrite IH. f_equal. unfold addToMonth. now rewrite Hk. }
  now rewrite Hf.
Qed.

(** C10. The date-range filter is applied to the monthly series exactly
    when both [filters.startDate] and [filters.endDate] are non-empty; when
    either is empty the later stages run on the whole series of
    [aggregateByMonth]. *)
Theorem transformDashboardData_date_filter (host : Host) (h : heap)
    (movies : list Movie.t) (genres : list Genre.t)
    (filters : DashboardFilters.t) :
  let aggregated := aggregateByMonth host h movies genres in
  let result := transformDashboardData host h movies genres filters in
  (DashboardFilters.startDate filters = EmptyString \/
   DashboardFilters.endDate filters = EmptyString ->
   (fst result, DashboardData.monthly_data (snd result)) =
   laterStages (fst aggregated) (snd aggregated)) /\
  (DashboardFilters.startDate filters <> EmptyString ->
   DashboardFilters.endDate filters <> EmptyString ->
   (fst result, DashboardData.monthly_data (snd result)) =
   laterStages (fst aggregated)
     (filterByDateRange (fst aggregated) (snd aggregated)
        (DashboardFilters.startDate filters)
        (DashboardFilters.endDate filters))).
Proof.
  cbv zeta. rewrite transformDashboardData_monthly. unfold dateRangeApplies.
  split.
  - intros [E|E]; apply truthy_false in E; rewrite E;
      [reflexivity|now rewrite andb_false_r].
  - intros Hs He. apply truthy_true in Hs, He. now rewrite Hs, He.
Qed.

Lemma transformDashboardData_date_filter_witness :
  (fst (transformDashboardData (utcHost "2025-01-01") [] [sampleMovie]
          sampleGenres noFilters),
   DashboardData.monthly_data
     (snd (transformDashboardData (utcHost "2025-01-01") [] [sampleMovie]
             sampleGenres noFilters))) =
  laterStages
    (fst (aggregateByMonth (utcHost "2025-01-01") [] [sampleMovie] sampleGenres))
    (snd (aggregateByMonth (utcHost "2025-01-01") [] [sampleMovie] sampleGenres)).
Proof.
  refine (proj1 (transformDashboardData_date_filter
                   (utcHost "2025-01-01") [] [sampleMovie] sampleGenres
                   noFilters) _).
  left. reflexivity.
Defined.

(** ** The run depends on the clock *)

Lemma Array_sort_nil_inv {A} (compareFn : A -> A -> Q) (l : list A) :
  Array_sort compareFn l = [] -> l = [].
Proof.
  intros E. apply (f_equal (@length A)) in E.
  rewrite Array_sort_length in E. now destruct l.
Qed.

Lemma getEarliestDate_dated host1 host2 movies :
  (exists movie, In movie movies /\ Movie.release_date movie <> EmptyString) ->
  getEarliestDate host1 movies = getEarliestDate host2 movies.
Proof.
  intros (movie & Hin & Hd). unfold getEarliestDate.
  destruct (Array_sort _ _) as [|d ds] eqn:E; [|reflexivity].
  apply Array_sort_nil_inv, map_eq_nil in E.
  assert (Hm : In movie (List.filter
                 (fun movie => truthy (Movie.release_date movie)) movies))
    by (apply filter_In; split; [exact Hin|now apply truthy_true]).
  rewrite E in Hm. destruct Hm.
Qed.

Lemma getLatestDate_dated host1 host2 movies :
  (exists movie, In movie movies /\ Movie.release_date movie <> EmptyString) ->
  getLatestDate host1 movies = getLatestDate host2 movies.
Proof.
  intros (movie & Hin & Hd). unfold getLatestDate.
  destruct (rev (Array_sort _ _)) as [|d ds] eqn:E; [|reflexivity].
  apply (f_equal (@rev string)) in E. rewrite rev_involutive in E.
  simpl in E. apply Array_sort_nil_inv, map_eq_nil in E.
  assert (Hm : In movie (List.filter
                 (fun movie => truthy (Movie.release_date movie)) movies))
    by (apply filter_In; split; [exact Hin|now apply truthy_true]).
  rewrite E in Hm. destruct Hm.
Qed.

(** Counterexample to C7: with no movie and no filter dates, two runs on
    different days report different date ranges. *)
Lemma deterministicClaim_fails :
  ~ deterministicClaim (utcHost "2025-01-01") (utcHost "2025-01-02")
      [] [] [] [] noFilters.
Proof.
  unfold deterministicClaim. intros H.
  assert (Hc : sameCalendar (utcHost "2025-01-01") (utcHost "2025-01-02"))
    by (repeat split).
  specialize (H Hc). vm_compute in H. discriminate H.
Qed.

(** C7, amended. Two runs on the same movies, genres and filters, under
    hosts that read dates alike, from any two heaps and at any two times:
    the monthly series, the top movies, the genre distribution, the movie
    count and the recorded filters are equal; and the whole results are
    deep-equal as soon as some movie has a non-empty release date or both
    filter dates are non-empty, which is when the clock is not read. *)
Theorem transformDashboardData_deterministic (host1 host2 : Host)
    (h1 h2 : heap) (movies : list Movie.t) (genres : list Genre.t)
    (filters : DashboardFilters.t) :
  sameCalendar host1 host2 ->
  let run1 := transformDashboardData host1 h1 movies genres filters in
  let run2 := transformDashboardData host2 h2 movies genres filters in
  (readArray (fst run1) (DashboardData.monthly_data (snd run1)) =
   readArray (fst run2) (DashboardData.monthly_data (snd run2)) /\
   DashboardData.top_movies (snd run1) = DashboardData.top_movies (snd run2) /\
   DashboardData.genre_distribution (snd run1) =
     DashboardData.genre_distribution (snd run2) /\
   DashboardData.total_movies (snd run1) =
     DashboardData.total_movies (snd run2) /\
   DashboardData.filters_applied (snd run1) =
     DashboardData.filters_applied (snd run2)) /\
  ((exists movie, In movie movies /\ Movie.release_date movie <> EmptyString) \/
   (DashboardFilters.startDate filters <> EmptyString /\
    DashboardFilters.endDate filters <> EmptyString) ->
   deepValue run1 = deepValue run2).
Proof.
  intros Hc. cbv zeta.
  assert (Hseries :
    readArray (fst (transformDashboardData host1 h1 movies genres filters))
      (DashboardData.monthly_data
         (snd (transformDashboardData host1 h1 movies genres filters))) =
    readArray (fst (transformDashboardData host2 h2 movies genres filters))
      (DashboardData.monthly_data
         (snd (transformDashboardData host2 h2 movies genres filters)))).
  { rewrite !transformDashboardData_monthlySeries. unfold monthlySeries.
    now rewrite (monthlyRecords_sameCalendar host1 host2 movies genres Hc). }
  destruct (transformDashboardData_fields host1 h1 movies genres filters)
    as (Ht1 & Hg1 & Hn1 & Hf1 & Hr1).
  destruct (transformDashboardData_fields host2 h2 movies genres filters)
    as (Ht2 & Hg2 & Hn2 & Hf2 & Hr2).
  split.
  - rewrite Ht1, Ht2, Hg1, Hg2, Hn1, Hn2, Hf1, Hf2. auto.
  - intros Hclock. unfold deepValue.
    rewrite Hseries, Ht1, Ht2, Hg1, Hg2, Hn1, Hn2, Hf1, Hf2, Hr1, Hr2.
    do 2 f_equal.
    destruct Hclock as [Hd|[Hs He]].
    + now rewrite (getEarliestDate_dated host1 host2 movies Hd),
                  (getLatestDate_dated host1 host2 movies Hd).
    + apply truthy_true in Hs, He. now rewrite Hs, He.
Qed.

Lemma transformDashboardData_deterministic_witness :
  deepValue (transformDashboardData (utcHost "2025-01-01") []
               [sampleMovie] sampleGenres noFilters) =
  deepValue (transformDashboardData (utcHost "2025-01-02") exampleSeries
               [sampleMovie] sampleGenres noFilters).
Proof.
  refine (proj2 (transformDashboardData_deterministic
                   (utcHost "2025-01-01") (utcHost "2025-01-02")
                   [] exampleSeries [sampleMovie] sampleGenres noFilters _) _).
  - repeat split.
  - left. exists sampleMovie. split; [now left|discriminate].
Defined.

(** ** A movie without a release date *)

Lemma genreOccurrences_app genreId movies1 movies2 :
  genreOccurrences genreId (movies1 ++ movies2) =
  genreOccurrences genreId movies1 + genreOccurrences genreId movies2.
Proof.
  induction movies1 as [|m movies1 IH]; simpl; [reflexivity|].
  rewrite IH. lia.
Qed.

Lemma filter_without {A} (f : A -> bool) (l1 l2 : list A) (x : A) :
  f x = false -> List.filter f (l1 ++ x :: l2) = List.filter f (l1 ++ l2).
Proof.
  intros Hx. rewrite !List.filter_app. simpl. now rewrite Hx.
Qed.

Lemma hasValidDate_undated host movie :
  Movie.release_date movie = EmptyString -> hasValidDate host movie = false.
Proof. intros E. unfold hasValidDate. now rewrite E. Qed.

Lemma isValidMovie_undated movie :
  Movie.release_date movie = EmptyString -> isValidMovie movie = false.
Proof.
  intros E. unfold isValidMovie. rewrite E. simpl.
  now rewrite andb_false_r.
Qed.

(** Counterexample to C8: the ranker drops a movie whose release date is
    empty, whatever its other fields. *)
Lemma undatedEligibleClaim_fails :
  ~ undatedEligibleClaim (utcHost "2025-01-01") [] undatedMovie sampleGenres
      noFilters.
Proof.
  unfold undatedEligibleClaim. intros H.
  assert (Hq : meetsQualityFloor undatedMovie).
  { unfold meetsQualityFloor. simpl. repeat split; try discriminate; try lia.
    eexists. split; [reflexivity|discriminate]. }
  specialize (H eq_refl Hq). vm_compute in H. exact H.
Qed.

(** C8, amended. A movie whose release date is the empty string is left
    out of the monthly series and out of the top movies (both are what
    they would be without it), while the movie count and the genre
    distribution do count it. *)
Theorem undated_movie_boundary (host : Host) (h : heap)
    (movies1 movies2 : list Movie.t) (movie : Movie.t)
    (genres : list Genre.t) (filters : DashboardFilters.t) :
  Movie.release_date movie = EmptyString ->
  let movies := movies1 ++ movie :: movies2 in
  let others := movies1 ++ movies2 in
  let result := transformDashboardData host h movies genres filters in
  let without := transformDashboardData host h others genres filters in
  aggregateByMonth host h movies genres = aggregateByMonth host h others genres /\
  readArray (fst result) (DashboardData.monthly_data (snd result)) =
    readArray (fst without) (DashboardData.monthly_data (snd without)) /\
  DashboardData.total_movies (snd result) =
    DashboardData.total_movies (snd without) + 1 /\
  DashboardData.total_movies (snd result) = Z.of_nat (length movies) /\
  DashboardData.top_movies (snd result) =
    DashboardData.top_movies (snd without) /\
  (forall r, In r (DashboardData.top_movies (snd result)) ->
     TopMovie.release_date r <> EmptyString) /\
  DashboardData.genre_distribution (snd result) =
    analyzeGenreDistribution movies genres /\
  (forall genreId,
     In genreId (Movie.genre_ids movie) ->
     In genreId (map Genre.id genres) ->
     exists r,
       In r (DashboardData.genre_distribution (snd result)) /\
       GenreDistribution.genre_id r = genreId /\
       GenreDistribution.count r =
         genreOccurrences genreId others +
         Z.of_nat (count_occ Z.eq_dec (Movie.genre_ids movie) genreId) /\
       genreOccurrences genreId others < GenreDistribution.count r).
Proof.
  intros Hd. cbv zeta.
  assert (Hagg : aggregateByMonth host h (movies1 ++ movie :: movies2) genres =
                 aggregateByMonth host h (movies1 ++ movies2) genres).
  { unfold aggregateByMonth, monthlyRecords.
    now rewrite (filter_without _ _ _ _ (hasValidDate_undated host movie Hd)). }
  destruct (transformDashboardData_fields host h
              (movies1 ++ movie :: movies2) genres filters)
    as (Ht & Hg & Hn & _ & _).
  destruct (transformDashboardData_fields host h
              (movies1 ++ movies2) genres filters)
    as (Ht' & _ & Hn' & _ & _).
  split; [exact Hagg|]. split; [|split; [|split; [|split; [|split; [|split]]]]].
  - pose proof (transformDashboardData_monthly host h
                  (movies1 ++ movie :: movies2) genres filters) as E1.
    pose proof (transformDashboardData_monthly host h
                  (movies1 ++ movies2) genres filters) as E2.
    rewrite Hagg, <- E2 in E1. now inversion E1.
  - rewrite Hn, Hn', !length_app. simpl. lia.
  - exact Hn.
  - rewrite Ht, Ht'. unfold getTopMovies.
    now rewrite (filter_without _ _ _ _ (isValidMovie_undated movie Hd)).
  - intros r Hr. rewrite Ht in Hr.
    apply getTopMovies_In in Hr as (m & _ & Hv & ->).
    apply isValidMovie_true in Hv. simpl. tauto.
  - exact Hg.
  - intros g Hgm Hgg. rewrite Hg.
    destruct (genreDistribution_records (movies1 ++ movie :: movies2) genres)
      as (_ & Hin & Hrec).
    assert (Hg' : In g (map GenreDistribution.genre_id
                     (analyzeGenreDistribution
                        (movies1 ++ movie :: movies2) genres))).
    { apply Hin. split; [exact Hgg|]. exists movie. split; [|exact Hgm].
      apply in_or_app. right. now left. }
    apply in_map_iff in Hg' as (r & Hid & Hr).
    destruct (Hrec r Hr) as (_ & Hc & _).
    exists r. split; [exact Hr|]. split; [exact Hid|].
    rewrite Hid in Hc. rewrite Hc, !genreOccurrences_app. simpl.
    apply (count_occ_In Z.eq_dec) in Hgm. split; lia.
Qed.

Lemma undated_movie_boundary_witness :
  DashboardData.total_movies
    (snd (transformDashboardData (utcHost "2025-01-01") []
            ([sampleMovie] ++ undatedMovie :: []) sampleGenres noFilters)) =
  DashboardData.total_movies
    (snd (transformDashboardData (utcHost "2025-01-01") []
            ([sampleMovie] ++ []) sampleGenres noFilters)) + 1.
Proof.
  refine (proj1 (proj2 (proj2
    (undated_movie_boundary (utcHost "2025-01-01") [] [sampleMovie] []
       undatedMovie sampleGenres noFilters _)))).
  reflexivity.
Defined.

(** ** A month with a single movie *)

(** Counterexample to C9: the popularity 85.234 is reported as 85.23. *)
Lemma singleMovieMonthClaim_fails :
  ~ singleMovieMonthClaim (utcHost "2025-01-01") [sampleMovie] sampleGenres
      sampleMovie.
Proof.
  unfold singleMovieMonthClaim. intros H.
  assert (H1 : moviesOfMonth (utcHost "2025-01-01")
                 (monthKeyOf (utcHost "2025-01-01") sampleMovie)
                 (List.filter (hasValidDate (utcHost "2025-01-01"))
                    [sampleMovie]) = [sampleMovie])
    by (vm_compute; reflexivity).
  destruct (H H1 (monthlyRecord
                    (monthKeyOf (utcHost "2025-01-01") sampleMovie,
                     [sampleMovie]))) as [Hp _].
  - vm_compute. left. reflexivity.
  - vm_compute. reflexivity.
  - vm_compute in Hp. discriminate Hp.
Qed.

Lemma single_movie_month_rounded_witness :
  exists r,
    In r (readArray
            (fst (aggregateByMonth (utcHost "2025-01-01") [] [sampleMovie]
                    sampleGenres))
            (snd (aggregateByMonth (utcHost "2025-01-01") [] [sampleMovie]
                    sampleGenres))) /\
    rounded_2dp (Movie.popularity sampleMovie) (MonthlyData.avg_popularity r).
Proof.
  destruct (single_movie_month_rounded (utcHost "2025-01-01") []
              [sampleMovie] sampleGenres sampleMovie)
    as (r & Hr & _ & _ & _ & Hp & _).
  - vm_compute. reflexivity.
  - exists r. split; [exact Hr|exact Hp].
Defined.

(** ** The smoothing stages write into their input *)

(** C2 (the code departs from it). On the example series both stages
    return the references they were given, and the records behind them,
    which are the records of the input, have changed: after
    [calculatePercentageChange] the second input record carries a
    popularity change of 100, after [calculateRollingAverage] the third
    carries a moving average of 20. *)
Theorem smoothing_stages_mutate_input :
  let input := [0; 1; 2]%nat in
  let before := readArray exampleSeries input in
  let changed := calculatePercentageChange exampleSeries input in
  let smoothed := calculateRollingAverage exampleSeries input 3 in
  snd changed = input /\
  readArray (fst changed) input <> before /\
  map MonthlyData.popularity_change_percent before = [None; None; None] /\
  map MonthlyData.popularity_change_percent (readArray (fst changed) input) =
    [None; Some (10000 # 100); Some (5000 # 100)]%Q /\
  snd smoothed = input /\
  readArray (fst smoothed) input <> before /\
  map MonthlyData.popularity_moving_avg before = [None; None; None] /\
  map MonthlyData.popularity_moving_avg (readArray (fst smoothed) input) =
    [None; None; Some (2000 # 100)]%Q.
Proof.
  cbv zeta. repeat split; try (vm_compute; reflexivity).
  - vm_compute. discriminate.
  - vm_compute. discriminate.
Qed.

(** * Part IV: further properties of the transformations *)

(** ** percentage-change.ts: what the stage writes *)

(** X1. On a series of distinct records, [calculatePercentageChange]
    returns a series shorter than 2 as it is; otherwise it returns the same
    references, leaves the first record as it was, and gives every other
    record the two change fields, computed by [calculatePercentChange]
    from the averages of the record before it and its own. *)
Theorem calculatePercentageChange_changes (h : heap) (monthlyData : list loc) :
  NoDup monthlyData ->
  ((length monthlyData < 2)%nat ->
   calculatePercentageChange h monthlyData = (h, monthlyData)) /\
  ((2 <= length monthlyData)%nat ->
   snd (calculatePercentageChange h monthlyData) = monthlyData /\
   forall i l r, monthlyData !! i = Some l -> h !! l = Some r ->
     (i = 0%nat ->
      fst (calculatePercentageChange h monthlyData) !! l = Some r) /\
     (forall lp rp,
        (1 <= i)%nat -> monthlyData !! (i - 1)%nat = Some lp ->
        h !! lp = Some rp ->
        fst (calculatePercentageChange h monthlyData) !! l =
        Some (MonthlyData.set_vote_change_percent
                (Some (calculatePercentChange
                         (MonthlyData.avg_vote_average rp)
                         (MonthlyData.avg_vote_average r)))
                (MonthlyData.set_popularity_change_percent
                   (Some (calculatePercentChange
                            (MonthlyData.avg_popularity rp)
                            (MonthlyData.avg_popularity r)))
                   r)))).
Proof.
  intros Hnd. split.
  - intros Hlt. unfold calculatePercentageChange.
    now apply Nat.ltb_lt in Hlt as ->.
  - intros Hlen.
    destruct (calculatePercentageChange_lookup h monthlyData Hnd Hlen)
      as [Hsnd Hfst].
    split; [exact Hsnd|]. intros i l r Hi Hl. split.
    + intros ->. now rewrite (Hfst 0%nat l r Hi Hl).
    + intros lp rp Hi1 Hp Hlp. rewrite (Hfst i l r Hi Hl).
      destruct i as [|i]; [lia|]. simpl Nat.eqb. cbv iota.
      unfold percentageChangeUpdate. rewrite Hi, Hp.
      unfold avg_vote_average_at, avg_popularity_at. rewrite Hl, Hlp.
      reflexivity.
Qed.

Lemma calculatePercentageChange_changes_witness :
  snd (calculatePercentageChange exampleSeries [0; 1; 2]%nat) = [0; 1; 2]%nat.
Proof.
  refine (proj1 (proj2
    (calculatePercentageChange_changes exampleSeries [0; 1; 2]%nat _) _)).
  - apply (NoDup_seq 0 3).
  - simpl. lia.
Defined.

(** ** The smoothing stages keep what they do not compute *)

Lemma updatedWithin_refl P arr h :
  (forall r, P r r) -> updatedWithin P arr h h.
Proof.
  intros HP. split; [reflexivity|]. intros l. split; [reflexivity|].
  destruct (h !! l); auto.
Qed.

Lemma updatedWithin_trans P arr h1 h2 h3 :
  (forall a b c, P a b -> P b c -> P a c) ->
  updatedWithin P arr h1 h2 -> updatedWithin P arr h2 h3 ->
  updatedWithin P arr h1 h3.
Proof.
  intros HP [L12 H12] [L23 H23]. split; [congruence|]. intros l.
  destruct (H12 l) as [O12 R12], (H23 l) as [O23 R23]. split.
  - intros Hl. rewrite O23, O12 by exact Hl. reflexivity.
  - destruct (h1 !! l), (h2 !! l), (h3 !! l); try tauto. eauto.
Qed.

Lemma updatedWithin_assign P arr f (l : loc) (h : heap) :
  (forall r, P r r) -> (forall r, P r (f r)) -> In l arr ->
  updatedWithin P arr h (assign f l h).
Proof.
  intros Hrefl Hf Hin. unfold assign. split; [apply length_alter|].
  intros l'. destruct (decide (l = l')) as [->|Hne].
  - split; [tauto|]. rewrite list_lookup_alter_eq.
    destruct (h !! l'); simpl; auto.
  - rewrite list_lookup_alter_ne by exact Hne. split; [reflexivity|].
    destruct (h !! l'); auto.
Qed.

Lemma updatedWithin_fold P arr (step : heap -> nat -> heap) :
  (forall r, P r r) -> (forall a b c, P a b -> P b c -> P a c) ->
  (forall h i, updatedWithin P arr h (step h i)) ->
  forall indices h, updatedWithin P arr h (fold_left step indices h).
Proof.
  intros Hrefl Htrans Hstep.
  induction indices as [|i indices IH]; intros h; simpl.
  - now apply updatedWithin_refl.
  - eapply updatedWithin_trans; [exact Htrans|apply Hstep|apply IH].
Qed.

Lemma sameButChanges_refl r : sameButChanges r r.
Proof. repeat split. Qed.

Lemma sameButChanges_trans a b c :
  sameButChanges a b -> sameButChanges b c -> sameButChanges a c.
Proof. unfold sameButChanges. intros (?&?&?) (?&?&?). repeat split; congruence. Qed.

Lemma sameButMovingAverages_refl r : sameButMovingAverages r r.
Proof. repeat split. Qed.

Lemma sameButMovingAverages_trans a b c :
  sameButMovingAverages a b -> sameButMovingAverages b c ->
  sameButMovingAverages a c.
Proof.
  unfold sameButMovingAverages. intros (?&?&?) (?&?&?).
  repeat split; congruence.
Qed.

Lemma percentageChangeStep_within arr h i :
  updatedWithin sameButChanges arr h (percentageChangeStep arr h i).
Proof.
  unfold percentageChangeStep.
  destruct (arr !! i) as [current|] eqn:Hc;
    [|apply updatedWithin_refl, sameButChanges_refl].
  destruct (arr !! (i - 1)%nat) as [previous|];
    [|apply updatedWithin_refl, sameButChanges_refl].
  assert (Hin : In current arr)
    by (apply list_elem_of_In; eapply list_elem_of_lookup_2; eauto).
  cbv zeta.
  match goal with
  | |- updatedWithin _ _ _ (assign _ _ ?h1) =>
      apply (updatedWithin_trans _ _ h h1 _ sameButChanges_trans)
  end;
    (apply updatedWithin_assign;
       [exact sameButChanges_refl | intros r; repeat split | exact Hin]).
Qed.

Lemma rollingAverageStep_within arr W h i :
  updatedWithin sameButMovingAverages arr h (rollingAverageStep arr W h i).
Proof.
  unfold rollingAverageStep.
  destruct (arr !! i) as [target|] eqn:Hc;
    [|apply updatedWithin_refl, sameButMovingAverages_refl].
  assert (Hin : In target arr)
    by (apply list_elem_of_In; eapply list_elem_of_lookup_2; eauto).
  cbv zeta.
  match goal with
  | |- updatedWithin _ _ _ (assign _ _ ?h1) =>
      apply (updatedWithin_trans _ _ h h1 _ sameButMovingAverages_trans)
  end;
    (apply updatedWithin_assign;
       [exact sameButMovingAverages_refl | intros r; repeat split | exact Hin]).
Qed.

Lemma calculatePercentageChange_within h arr :
  updatedWithin sameButChanges arr h (fst (calculatePercentageChange h arr)).
Proof.
  unfold calculatePercentageChange. destruct (length arr <? 2)%nat; simpl.
  - apply updatedWithin_refl, sameButChanges_refl.
  - apply updatedWithin_fold;
      [exact sameButChanges_refl | exact sameButChanges_trans |].
    intros h' i. apply percentageChangeStep_within.
Qed.

Lemma calculateRollingAverage_within h arr W :
  updatedWithin sameButMovingAverages arr h
    (fst (calculateRollingAverage h arr W)).
Proof.
  unfold calculateRollingAverage.
  destruct ((W <? 1) || (Z.of_nat (length arr) <? W)); simpl.
  - apply updatedWithin_refl, sameButMovingAverages_refl.
  - apply updatedWithin_fold;
      [exact sameButMovingAverages_refl | exact sameButMovingAverages_trans |].
    intros h' i. apply rollingAverageStep_within.
Qed.

(** X2. Whatever the series (records may even repeat in it), the two
    smoothing stages create and delete no record, leave every record that
    the series does not reference as it was, and keep the month, year,
    count, averages and vote total of every record;
    [calculatePercentageChange] also keeps the moving-average fields and
    [calculateRollingAverage] the change fields. *)
Theorem smoothing_stages_keep_other_fields (h : heap) (monthlyData : list loc)
    (W : Z) :
  updatedWithin sameButChanges monthlyData h
    (fst (calculatePercentageChange h monthlyData)) /\
  updatedWithin sameButMovingAverages monthlyData h
    (fst (calculateRollingAverage h monthlyData W)).
Proof.
  split; [apply calculatePercentageChange_within|
          apply calculateRollingAverage_within].
Qed.

(** ** temporal-aggregation.ts: the date-range filter *)

Lemma String_le_true (a b : string) :
  String_le a b = true <-> a = b \/ String_lt a b.
Proof.
  unfold String_le, String.leb, String_lt.
  destruct (String.compare a b) eqn:E.
  - apply String.compare_eq_iff in E. tauto.
  - tauto.
  - split; [discriminate|]. intros [->|H]; [|discriminate].
    exfalso. revert E. clear. induction b as [|c b IH]; simpl; [discriminate|].
    unfold Ascii.compare. now rewrite N.compare_refl.
Qed.

Lemma String_ltb_true (a b : string) :
  String.ltb a b = true <-> String_lt a b.
Proof.
  unfold String.ltb, String_lt. destruct (String.compare a b);
    split; congruence.
Qed.

Lemma String_lt_irreflexive (a : string) : ~ String_lt a a.
Proof.
  unfold String_lt. induction a as [|c a IH]; simpl; [discriminate|].
  unfold Ascii.compare. now rewrite N.compare_refl.
Qed.

Lemma String_le_lt_trans (a b c : string) :
  String_le a b = true -> String_lt b c -> String_lt a c.
Proof.
  intros [->|H]%String_le_true Hbc; [exact Hbc|].
  now apply String_lt_trans with b.
Qed.

Lemma sublist_List_filter {A} (f : A -> bool) (l : list A) :
  sublist (List.filter f l) l.
Proof.
  induction l as [|x l IH]; simpl; [constructor|].
  destruct (f x); now constructor.
Qed.

Lemma List_filter_idempotent {A} (f : A -> bool) (l : list A) :
  List.filter f (List.filter f l) = List.filter f l.
Proof.
  induction l as [|x l IH]; simpl; [reflexivity|].
  destruct (f x) eqn:E; simpl; [rewrite E; f_equal|]; exact IH.
Qed.

Lemma StronglySorted_List_filter {A} (R : A -> A -> Prop) (f : A -> bool)
    (l : list A) :
  StronglySorted R l -> StronglySorted R (List.filter f l).
Proof.
  induction 1 as [|x l Hs IH Hx]; simpl; [constructor|].
  destruct (f x); [|exact IH]. constructor; [exact IH|].
  apply Forall_forall. intros y Hy. apply list_elem_of_In, filter_In in Hy.
  rewrite Forall_forall in Hx. apply Hx, list_elem_of_In, Hy.
Qed.

(** X3. [filterByDateRange] keeps, in their order, exactly the records
    whose month key lies between the first seven characters of
    [startDate] and of [endDate], both included; filtering twice changes
    nothing, a chronological series stays chronological, and bounds in the
    wrong order give an empty series. *)
Theorem filterByDateRange_spec (h : heap) (monthlyData : list loc)
    (startDate endDate : string) :
  let out := filterByDateRange h monthlyData startDate endDate in
  sublist out monthlyData /\
  (forall l, In l out <->
     In l monthlyData /\
     String_le (substring 0 7 startDate) (month_at h l) = true /\
     String_le (month_at h l) (substring 0 7 endDate) = true) /\
  filterByDateRange h out startDate endDate = out /\
  (chronological h monthlyData -> chronological h out) /\
  (String.ltb (substring 0 7 endDate) (substring 0 7 startDate) = true ->
   out = []).
Proof.
  cbv zeta. unfold filterByDateRange.
  split; [apply sublist_List_filter|].
  split; [|split; [apply List_filter_idempotent|split]].
  - intros l. rewrite filter_In, andb_true_iff. tauto.
  - apply StronglySorted_List_filter.
  - intros Hinv. apply String_ltb_true in Hinv.
    destruct (List.filter _ monthlyData) as [|l out] eqn:E; [reflexivity|].
    assert (Hl : In l (List.filter
              (fun data => String_le (substring 0 7 startDate) (month_at h data) &&
                           String_le (month_at h data) (substring 0 7 endDate))
              monthlyData)) by (rewrite E; now left).
    apply filter_In in Hl as [_ Hl]. apply andb_true_iff in Hl as [H1 H2].
    exfalso. apply (String_lt_irreflexive (month_at h l)).
    eapply String_le_lt_trans; [exact H2|].
    apply String_le_true in H1 as [<-|H1]; [exact Hinv|].
    now apply String_lt_trans with (substring 0 7 startDate).
Qed.

(** ** temporal-aggregation.ts: what a record holds *)

Lemma digit_of_pretty_N_char (d : N) :
  (d < 10)%N -> digit_of (pretty_N_char d) = Some (Z.of_N d).
Proof.
  intros Hd.
  assert (d = 0 \/ d = 1 \/ d = 2 \/ d = 3 \/ d = 4 \/ d = 5 \/ d = 6 \/
          d = 7 \/ d = 8 \/ d = 9)%N as H by lia.
  repeat (destruct H as [->|H]; [reflexivity|]). now subst.
Qed.

Lemma pretty_N_go_digits (x : N) :
  forall s, isDigits s -> isDigits (pretty_N_go x s).
Proof.
  induction (N.lt_wf_0 x) as [x _ IH]. intros s Hs.
  assert (x = 0 \/ 0 < x)%N as [->|Hx] by lia.
  - now rewrite pretty_N_go_0.
  - rewrite pretty_N_go_step by exact Hx. apply IH.
    + now apply N.div_lt.
    + unfold isDigits. simpl. constructor; [|exact Hs].
      eexists. apply digit_of_pretty_N_char. now apply N.mod_lt.
Qed.

Lemma parse_digits_cons (c : ascii) (s : string) (acc : option Z) (d : Z) :
  digit_of c = Some d ->
  parse_digits (String c s) acc = parse_digits s (Some (10 * default 0 acc + d)).
Proof. intros Hd. simpl. now rewrite Hd. Qed.

Lemma pretty_N_go_parse (x : N) :
  (0 < x)%N ->
  forall s acc, exists k,
    parse_digits (pretty_N_go x s) acc =
    parse_digits s (Some (default 0 acc * k + Z.of_N x)).
Proof.
  induction (N.lt_wf_0 x) as [x _ IH]. intros Hx s acc.
  rewrite pretty_N_go_step by exact Hx.
  assert (Hd : digit_of (pretty_N_char (x `mod` 10)) =
               Some (Z.of_N (x `mod` 10)))
    by (apply digit_of_pretty_N_char, N.mod_lt; lia).
  assert (Hx10 : Z.of_N x = 10 * Z.of_N (x `div` 10) + Z.of_N (x `mod` 10)).
  { rewrite (N.div_mod x 10) at 1 by lia.
    now rewrite N2Z.inj_add, N2Z.inj_mul. }
  destruct (N.eq_0_gt_0_cases (x `div` 10)) as [Hz|Hp].
  - rewrite Hz, pretty_N_go_0, (parse_digits_cons _ _ _ _ Hd). exists 10.
    do 2 f_equal. rewrite Hz in Hx10. lia.
  - destruct (IH (x `div` 10)%N (N.div_lt x 10 Hx eq_refl) Hp
                 (String (pretty_N_char (x `mod` 10)) s) acc) as [k Hk].
    rewrite Hk, (parse_digits_cons _ _ _ _ Hd). exists (10 * k).
    do 2 f_equal. rewrite Hx10. cbn. ring.
Qed.

Lemma pretty_nonneg_digits (y : Z) : 0 <= y -> isDigits (pretty y).
Proof.
  intros Hy. destruct y as [|p|p]; [|clear Hy|lia].
  - unfold isDigits. simpl. constructor; [now exists 0|constructor].
  - change (pretty (Z.pos p)) with (pretty_N_go (N.pos p) "").
    apply pretty_N_go_digits. constructor.
Qed.

Lemma parse_digits_pretty (y : Z) :
  0 <= y -> parse_digits (pretty y) None = Some y.
Proof.
  intros Hy. destruct y as [|p|p]; [reflexivity|clear Hy|lia].
  change (pretty (Z.pos p)) with (pretty_N_go (N.pos p) "").
  destruct (pretty_N_go_parse (N.pos p) eq_refl "" None) as [k ->].
  simpl. reflexivity.
Qed.

Lemma parseInt_digits (s : string) :
  isDigits s -> parseInt s = parse_digits s None.
Proof.
  intros Hs. destruct s as [|c s]; [reflexivity|].
  unfold isDigits in Hs. simpl in Hs. apply Forall_cons in Hs as [[d Hd] _].
  unfold parseInt.
  destruct (Ascii.eqb_spec c "-") as [->|H1]; [discriminate Hd|].
  destruct (Ascii.eqb_spec c "+") as [->|H2]; [discriminate Hd|].
  destruct c as [[] [] [] [] [] [] [] []]; try reflexivity; congruence.
Qed.

Lemma String_split_digits (d rest : string) :
  isDigits d ->
  String_split "-" (String.append d (String "-" rest)) =
  d :: String_split "-" rest.
Proof.
  unfold isDigits. induction d as [|c d IH]; simpl; intros Hd.
  - reflexivity.
  - apply Forall_cons in Hd as [[n Hn] Hd].
    destruct (Ascii.eqb_spec c "-") as [->|Hc]; [discriminate Hn|].
    now rewrite (IH Hd).
Qed.

Lemma String_split_negative (s rest : string) :
  String_split "-" (String.append (String "-" s) rest) !! 0%nat =
  Some EmptyString.
Proof. reflexivity. Qed.

Lemma reduce_Zsum {A} (f : A -> Z) (l : list A) (a : Z) :
  fold_left (fun sum x => sum + f x) l a = a + Zsum (map f l).
Proof.
  revert a. induction l as [|x l IH]; intros a; simpl; [lia|].
  rewrite IH. lia.
Qed.

Section RecordContents.
Variable host : Host.

(** X4. Every record of [aggregateByMonth] stands for the movies of one
    month that pass the date filter, of which there is at least one: it
    counts them, sums their vote counts, and its two averages are the
    means of their popularity and of their vote average, rounded to 2
    decimals. *)
Theorem aggregateByMonth_record_contents (h : heap) (movies : list Movie.t)
    (genres : list Genre.t) :
  forall r,
    In r (readArray (fst (aggregateByMonth host h movies genres))
                    (snd (aggregateByMonth host h movies genres))) ->
    let group := moviesOfMonth host (MonthlyData.month r)
                   (datedMovies host movies) in
    group <> [] /\
    MonthlyData.movies_count r = Z.of_nat (length group) /\
    MonthlyData.total_vote_count r = Zsum (map Movie.vote_count group) /\
    rounded_2dp (mean (Z.of_nat (length group)) (map Movie.popularity group))
                (MonthlyData.avg_popularity r) /\
    rounded_2dp (mean (Z.of_nat (length group)) (map Movie.vote_average group))
                (MonthlyData.avg_vote_average r).
Proof.
  intros r. unfold aggregateByMonth. rewrite readArray_allocate.
  intros Hr. apply monthlyRecords_In in Hr as [k [-> Hne]].
  cbv zeta. simpl MonthlyData.month. unfold datedMovies.
  set (group := moviesOfMonth host k (List.filter (hasValidDate host) movies))
    in *.
  split; [exact Hne|]. split; [reflexivity|]. split.
  - simpl. now rewrite reduce_Zsum.
  - split; apply mean_rounded.
Qed.

(** X5. The year of a record is the calendar year its month key starts
    with when that year is not negative; for a negative year the key
    starts with a hyphen and the year of the record is [NaN]. *)
Theorem aggregateByMonth_record_year (h : heap) (movies : list Movie.t)
    (genres : list Genre.t) (movie : Movie.t) (t : Z) :
  In movie movies ->
  hasValidDate host movie = true ->
  Date_parse host (Movie.release_date movie) = Some t ->
  exists r,
    In r (readArray (fst (aggregateByMonth host h movies genres))
                    (snd (aggregateByMonth host h movies genres))) /\
    MonthlyData.month r = monthKeyOf host movie /\
    (0 <= Date_getFullYear host t ->
     MonthlyData.year r = Some (Date_getFullYear host t)) /\
    (Date_getFullYear host t < 0 -> MonthlyData.year r = None).
Proof.
  intros Hin Hv Ht. unfold aggregateByMonth. rewrite readArray_allocate.
  set (k := monthKeyOf host movie).
  exists (monthlyRecord
            (k, moviesOfMonth host k (List.filter (hasValidDate host) movies))).
  split; [|split; [reflexivity|]].
  - apply monthlyRecords_In. exists k. split; [reflexivity|].
    intros E.
    assert (Hm : In movie (moviesOfMonth host k
                    (List.filter (hasValidDate host) movies))).
    { apply filter_In. split; [apply filter_In; auto|].
      now apply bool_decide_eq_true. }
    rewrite E in Hm. destruct Hm.
  - unfold monthlyRecord. simpl MonthlyData.year. simpl fst.
    subst k. unfold monthKeyOf. rewrite Ht. unfold Number_toString. split.
    + intros Hy.
      rewrite String_split_digits by now apply pretty_nonneg_digits.
      simpl. rewrite parseInt_digits by now apply pretty_nonneg_digits.
      now apply parse_digits_pretty.
    + intros Hy. destruct (Date_getFullYear host t) as [|p|p]; try lia.
      change (pretty (Z.neg p)) with (String "-" (pretty p)).
      rewrite String_split_negative. reflexivity.
Qed.
End RecordContents.

Lemma aggregateByMonth_record_year_witness :
  exists r,
    In r (readArray
            (fst (aggregateByMonth (utcHost "2025-01-01") [] [sampleMovie]
                    sampleGenres))
            (snd (aggregateByMonth (utcHost "2025-01-01") [] [sampleMovie]
                    sampleGenres))) /\
    MonthlyData.year r = Some 2023.
Proof.
  destruct (aggregateByMonth_record_year (utcHost "2025-01-01") []
              [sampleMovie] sampleGenres sampleMovie (12 * 2023 + 0))
    as (r & Hr & _ & Hy & _).
  - now left.
  - vm_compute. reflexivity.
  - vm_compute. reflexivity.
  - exists r. split; [exact Hr|]. apply Hy. vm_compute. discriminate.
Defined.

Lemma aggregateByMonth_record_contents_witness :
  MonthlyData.movies_count
    (monthlyRecord (monthKeyOf (utcHost "2025-01-01") sampleMovie, [sampleMovie])) =
  Z.of_nat (length (moviesOfMonth (utcHost "2025-01-01")
                      (MonthlyData.month
                         (monthlyRecord
                            (monthKeyOf (utcHost "2025-01-01") sampleMovie,
                             [sampleMovie])))
                      (datedMovies (utcHost "2025-01-01") [sampleMovie]))).
Proof.
  refine (proj1 (proj2
    (aggregateByMonth_record_contents (utcHost "2025-01-01") []
       [sampleMovie] sampleGenres
       (monthlyRecord (monthKeyOf (utcHost "2025-01-01") sampleMovie,
                       [sampleMovie])) _))).
  vm_compute. left. reflexivity.
Defined.

(** ** temporal-aggregation.ts: no movie is lost or counted twice *)

Lemma Zsum_Permutation (xs ys : list Z) :
  Permutation xs ys -> Zsum xs = Zsum ys.
Proof. induction 1; simpl; lia. Qed.

Lemma Zsum_app (xs ys : list Z) : Zsum (xs ++ ys) = Zsum xs + Zsum ys.
Proof. induction xs as [|x xs IH]; simpl; lia. Qed.

Lemma Zsum_ones {A} (l : list A) :
  Zsum (map (fun _ => 1) l) = Z.of_nat (length l).
Proof. induction l as [|x l IH]; simpl Zsum; simpl length; lia. Qed.

Section Conservation.
Variable host : Host.
Variable c : Movie.t -> Z.

Lemma weight_Map_set moviesByMonth k group :
  weight c (Map_set moviesByMonth k group) =
  weight c moviesByMonth
  - Zsum (map c (default [] (Map_get moviesByMonth k)))
  + Zsum (map c group).
Proof.
  unfold weight. induction moviesByMonth as [|[k0 g0] m IH]; simpl.
  - lia.
  - destruct (decide (k = k0)) as [->|Hne]; simpl; [lia|].
    rewrite IH. lia.
Qed.

Lemma weight_addToMonth moviesByMonth movie :
  weight c (addToMonth host moviesByMonth movie) =
  weight c moviesByMonth + c movie.
Proof.
  unfold addToMonth. rewrite weight_Map_set, map_app, Zsum_app. simpl.
  unfold Map_has.
  destruct (Map_get moviesByMonth (monthKeyOf host movie)) eqn:E.
  - rewrite E. lia.
  - rewrite weight_Map_set, E, Map_get_set, decide_True by reflexivity.
    simpl. lia.
Qed.

Lemma weight_grouping (movies : list Movie.t) :
  forall moviesByMonth,
    weight c (fold_left (addToMonth host) movies moviesByMonth) =
    weight c moviesByMonth + Zsum (map c movies).
Proof.
  induction movies as [|movie movies IH]; intros m; simpl; [lia|].
  rewrite IH, weight_addToMonth. lia.
Qed.
End Conservation.

(** X6. The monthly records count every movie that passes the date
    filter exactly once: their movie counts add up to the number of these
    movies, and their vote totals to the sum of these movies' vote
    counts. *)
Theorem aggregateByMonth_conserves_totals (host : Host) (h : heap)
    (movies : list Movie.t) (genres : list Genre.t) :
  let out := readArray (fst (aggregateByMonth host h movies genres))
                       (snd (aggregateByMonth host h movies genres)) in
  Zsum (map MonthlyData.movies_count out) =
    Z.of_nat (length (datedMovies host movies)) /\
  Zsum (map MonthlyData.total_vote_count out) =
    Zsum (map Movie.vote_count (datedMovies host movies)).
Proof.
  cbv zeta. unfold aggregateByMonth. rewrite readArray_allocate.
  unfold monthlyRecords, datedMovies.
  set (valid := List.filter (hasValidDate host) movies).
  set (groups := fold_left (addToMonth host) valid []).
  split.
  - rewrite (Zsum_Permutation _ _
               (Permutation_map _ (Array_sort_Permutation _ _))).
    rewrite map_map.
    transitivity (weight (fun _ => 1) groups).
    + unfold weight. f_equal. apply map_ext. intros [k g]. simpl.
      now rewrite Zsum_ones.
    + unfold groups. rewrite weight_grouping, Zsum_ones.
      unfold weight. simpl. lia.
  - rewrite (Zsum_Permutation _ _
               (Permutation_map _ (Array_sort_Permutation _ _))).
    rewrite map_map.
    transitivity (weight Movie.vote_count groups).
    + unfold weight. f_equal. apply map_ext. intros [k g]. simpl.
      now rewrite reduce_Zsum.
    + unfold groups. rewrite weight_grouping. unfold weight. simpl. lia.
Qed.

(** ** temporal-aggregation.ts: the name of a month *)

Lemma monthPart_parts (m : Z) :
  0 <= m <= 11 ->
  let mm := String_padStart 2 "0" (Number_toString (m + 1)) in
  String_split "-" mm = [mm] /\ parseInt mm = Some (m + 1) /\
  is_Some (monthNames !! Z.to_nat m).
Proof.
  intros Hm.
  assert (m = 0 \/ m = 1 \/ m = 2 \/ m = 3 \/ m = 4 \/ m = 5 \/ m = 6 \/
          m = 7 \/ m = 8 \/ m = 9 \/ m = 10 \/ m = 11) as H by lia.
  repeat (destruct H as [->|H];
          [vm_compute; repeat split; eexists; reflexivity|]).
  subst. vm_compute. repeat split. eexists. reflexivity.
Qed.

(** X7. For a date whose year is not negative and whose month is one of
    the twelve, [getMonthName] reads the month key built by
    [aggregateByMonth] back: it returns the Spanish name of that month, a
    space, and the year. *)
Theorem getMonthName_of_monthKey (host : Host) (movie : Movie.t) (t : Z) :
  Date_parse host (Movie.release_date movie) = Some t ->
  0 <= Date_getFullYear host t ->
  0 <= Date_getMonth host t <= 11 ->
  exists name,
    monthNames !! Z.to_nat (Date_getMonth host t) = Some name /\
    getMonthName (monthKeyOf host movie) =
    String.append name
      (String " " (Number_toString (Date_getFullYear host t))).
Proof.
  intros Ht Hy Hm.
  destruct (monthPart_parts (Date_getMonth host t) Hm) as (Hs & Hp & [name Hn]).
  exists name. split; [exact Hn|].
  unfold getMonthName, monthKeyOf. rewrite Ht.
  rewrite String_split_digits by now apply pretty_nonneg_digits.
  rewrite Hs. cbn [lookup list_lookup]. cbn [mbind option_bind].
  rewrite Hp. cbn [fmap option_fmap option_map].
  unfold monthNameAt.
  assert ((Date_getMonth host t + 1 - 1 <? 0) = false) as -> by lia.
  replace (Date_getMonth host t + 1 - 1) with (Date_getMonth host t) by lia.
  rewrite Hn. reflexivity.
Qed.

Lemma getMonthName_of_monthKey_witness :
  exists name,
    getMonthName (monthKeyOf (utcHost "2025-01-01") sampleMovie) =
    String.append name (String " " (Number_toString 2023)).
Proof.
  destruct (getMonthName_of_monthKey (utcHost "2025-01-01") sampleMovie
              (12 * 2023 + 0)) as (name & _ & H).
  - vm_compute. reflexivity.
  - vm_compute. discriminate.
  - vm_compute. split; discriminate.
  - exists name. exact H.
Defined.

(** ** top-movies.ts: the ranking *)

Lemma rankedBefore_Transitive criteria : Transitive (rankedBefore criteria).
Proof. intros a b c. unfold rankedBefore. intros H1 H2. lra. Qed.

Lemma Qle_bool_difference (x y : Q) :
  Qle_bool (y - x) 0 = true <-> (y <= x)%Q.
Proof. rewrite Qle_bool_iff. split; intros H; lra. Qed.

Lemma difference_orders {A} (score : A -> Q) :
  orders (fun a b => (score b - score a)%Q)
         (fun a b => (score b <= score a)%Q).
Proof.
  split; intros x y H.
  - now apply Qle_bool_difference.
  - destruct (Qlt_le_dec (score x) (score y)) as [Hlt|Hle].
    + lra.
    + apply Qle_bool_difference in Hle. congruence.
Qed.

Lemma sortMoviesByCriteria_sorted movies criteria :
  StronglySorted (rankedBefore criteria) (sortMoviesByCriteria movies criteria).
Proof.
  apply Sorted_StronglySorted; [apply rankedBefore_Transitive|].
  destruct criteria; apply Array_sort_Sorted.
  - exact (difference_orders (rankingScore popularity)).
  - exact (difference_orders (rankingScore vote_average)).
  - exact (difference_orders (rankingScore vote_count)).
  - exact (difference_orders (rankingScore combined)).
Qed.

Lemma sortMoviesByCriteria_Permutation movies criteria :
  Permutation (sortMoviesByCriteria movies criteria) movies.
Proof. destruct criteria; apply Array_sort_Permutation. Qed.

Lemma StronglySorted_app_parts {A} (R : A -> A -> Prop) (l1 l2 : list A) :
  StronglySorted R (l1 ++ l2) ->
  StronglySorted R l1 /\ (forall a b, In a l1 -> In b l2 -> R a b).
Proof.
  induction l1 as [|x l1 IH]; simpl; intros Hs.
  - split; [constructor|]. intros a b [].
  - apply StronglySorted_inv in Hs as [Hs Hx]. destruct (IH Hs) as [H1 H2].
    rewrite Forall_forall in Hx. split.
    + constructor; [exact H1|]. apply Forall_forall. intros y Hy.
      apply Hx. apply list_elem_of_In. apply in_or_app. left.
      now apply list_elem_of_In.
    + intros a b [<-|Ha] Hb; [|now apply H2].
      apply Hx, list_elem_of_In, in_or_app. now right.
Qed.

(** X8. For a count [N], [getTopMovies] returns the [N] best of the
    movies that pass its tests, or all of them when they are fewer: the
    result is ranked by non-increasing score, and together with the
    records it leaves out, none of which outranks a returned one, it is a
    rearrangement of the enriched movies that pass the tests. *)
Theorem getTopMovies_ranked (movies : list Movie.t) (genres : list Genre.t)
    (criteria : Criteria) (N : Z) :
  0 <= N ->
  let out := getTopMovies movies genres criteria N in
  length out = Nat.min (Z.to_nat N) (length (rankedMovies movies)) /\
  StronglySorted (rankedBefore criteria) out /\
  exists rest,
    Permutation (out ++ rest)
      (map (fun movie => enrichMovieWithGenres movie genres)
           (rankedMovies movies)) /\
    forall a b, In a out -> In b rest -> rankedBefore criteria a b.
Proof.
  intros HN. cbv zeta. unfold getTopMovies, rankedMovies.
  rewrite Array_slice_prefix by exact HN.
  set (enriched := map (fun movie => enrichMovieWithGenres movie genres)
                       (List.filter isValidMovie movies)).
  set (sorted := sortMoviesByCriteria enriched criteria).
  pose proof (sortMoviesByCriteria_sorted enriched criteria) as Hs.
  fold sorted in Hs. rewrite <- (take_drop (Z.to_nat N) sorted) in Hs.
  split; [|split].
  - rewrite length_take. unfold sorted.
    rewrite (Permutation_length (sortMoviesByCriteria_Permutation _ _)).
    unfold enriched. now rewrite length_map.
  - now apply StronglySorted_app_parts in Hs.
  - exists (drop (Z.to_nat N) sorted). split.
    + rewrite take_drop. apply sortMoviesByCriteria_Permutation.
    + now apply StronglySorted_app_parts in Hs.
Qed.

Lemma getTopMovies_ranked_witness :
  length (getTopMovies [sampleMovie; undatedMovie] sampleGenres popularity 10) =
  Nat.min (Z.to_nat 10) (length (rankedMovies [sampleMovie; undatedMovie])).
Proof.
  refine (proj1 (getTopMovies_ranked [sampleMovie; undatedMovie] sampleGenres
                   popularity 10 _)).
  lia.
Defined.

Lemma find_some_In {A} (f : A -> bool) (l : list A) (x : A) :
  List.find f l = Some x -> In x l /\ f x = true.
Proof. apply find_some. Qed.

Lemma enrichMovieWithGenres_names (movie : Movie.t) (genres : list Genre.t) :
  TopMovie.genre_names (enrichMovieWithGenres movie genres) =
  map Genre.name (omap (resolveGenre genres) (Movie.genre_ids movie)).
Proof.
  simpl. unfold resolveGenre.
  induction (Movie.genre_ids movie) as [|gid ids IH]; [reflexivity|].
  cbn [omap list_omap]. destruct (List.find _ genres); simpl; now rewrite IH.
Qed.

(** X9. [enrichMovieWithGenres] copies the id, title, poster and release
    date, rounds popularity and vote average to 2 decimals, and resolves
    the genre ids in their order: the names are those of the first genre
    carrying each id, ids that no genre carries are dropped, and when
    every id is known there is one name per id. *)
Theorem enrichMovieWithGenres_spec (movie : Movie.t) (genres : list Genre.t) :
  let r := enrichMovieWithGenres movie genres in
  TopMovie.id r = Movie.id movie /\
  TopMovie.title r = Movie.title movie /\
  TopMovie.poster_path r = Movie.poster_path movie /\
  TopMovie.release_date r = Movie.release_date movie /\
  rounded_2dp (Movie.popularity movie) (TopMovie.popularity r) /\
  rounded_2dp (Movie.vote_average movie) (TopMovie.vote_average r) /\
  TopMovie.genre_names r =
    map Genre.name (omap (resolveGenre genres) (Movie.genre_ids movie)) /\
  (forall name, In name (TopMovie.genre_names r) ->
     exists g, In g genres /\ In (Genre.id g) (Movie.genre_ids movie) /\
               Genre.name g = name) /\
  (length (TopMovie.genre_names r) <= length (Movie.genre_ids movie))%nat /\
  ((forall genreId, In genreId (Movie.genre_ids movie) ->
      In genreId (map Genre.id genres)) ->
   length (TopMovie.genre_names r) = length (Movie.genre_ids movie)).
Proof.
  cbv zeta.
  pose proof (enrichMovieWithGenres_names movie genres) as Hnames.
  repeat (split; [reflexivity|]).
  split; [apply round_div_100|]. split; [apply round_div_100|].
  split; [exact Hnames|]. rewrite Hnames. clear Hnames.
  split; [|split].
  - intros name Hn. apply in_map_iff in Hn as (g & <- & Hg).
    apply list_elem_of_In, list_elem_of_omap in Hg as (gid & Hgid & Hf).
    apply find_some_In in Hf as [Hin Heq]. apply Z.eqb_eq in Heq.
    exists g. split; [exact Hin|]. split; [|reflexivity].
    rewrite Heq. now apply list_elem_of_In.
  - rewrite length_map.
    induction (Movie.genre_ids movie) as [|gid ids IH]; [simpl; lia|].
    cbn [omap list_omap]. destruct (resolveGenre genres gid); simpl; lia.
  - rewrite length_map.
    induction (Movie.genre_ids movie) as [|gid ids IH]; intros Hk;
      [reflexivity|].
    cbn [omap list_omap]. destruct (resolveGenre genres gid) as [g|] eqn:E.
    + simpl. f_equal. apply IH. intros x Hx. apply Hk. now right.
    + exfalso. assert (Hg : In gid (map Genre.id genres))
        by (apply Hk; now left).
      apply in_map_iff in Hg as (g & Hid & Hin).
      unfold resolveGenre in E.
      apply (find_none _ _ E) in Hin. rewrite Hid, Z.eqb_refl in Hin.
      discriminate.
Qed.

(** ** top-movies.ts: the rankings built on [getTopMovies] *)

(** X10. For a count [N], [getTopRatedMovies] returns at most [N]
    records, ranked by non-increasing vote average; each one is derived
    from an input movie whose vote average is at least 7 and whose vote
    count is at least [minVotes] and also at least the floor of 100 that
    [getTopMovies] imposes. *)
Theorem getTopRatedMovies_spec (movies : list Movie.t) (genres : list Genre.t)
    (minVotes N : Z) :
  0 <= N ->
  let out := getTopRatedMovies movies genres minVotes N in
  Z.of_nat (length out) <= N /\
  StronglySorted (rankedBefore vote_average) out /\
  forall r, In r out ->
    exists movie,
      In movie movies /\ r = enrichMovieWithGenres movie genres /\
      (7 <= Movie.vote_average movie)%Q /\
      minVotes <= Movie.vote_count movie /\
      100 <= Movie.vote_count movie /\
      isValidMovie movie = true.
Proof.
  intros HN. cbv zeta. unfold getTopRatedMovies.
  set (highly := List.filter _ movies).
  split; [|split].
  - unfold getTopMovies. rewrite Array_slice_prefix by exact HN.
    rewrite length_take. lia.
  - unfold getTopMovies. rewrite Array_slice_prefix by exact HN.
    pose proof (sortMoviesByCriteria_sorted
                  (map (fun movie => enrichMovieWithGenres movie genres)
                       (List.filter isValidMovie highly)) vote_average) as Hs.
    rewrite <- (take_drop (Z.to_nat N)) in Hs.
    now apply StronglySorted_app_parts in Hs.
  - intros r Hr. apply getTopMovies_In in Hr as (movie & Hm & Hv & ->).
    apply filter_In in Hm as [Hm Hf]. apply andb_true_iff in Hf as [Hc Ha].
    exists movie. split; [exact Hm|]. split; [reflexivity|].
    split; [now apply Qle_bool_iff|]. split; [lia|].
    split; [|exact Hv]. now apply isValidMovie_true in Hv.
Qed.

Lemma getTopRatedMovies_spec_witness :
  Z.of_nat (length (getTopRatedMovies [sampleMovie] sampleGenres 500 10)) <= 10.
Proof.
  refine (proj1 (getTopRatedMovies_spec [sampleMovie] sampleGenres 500 10 _)).
  lia.
Defined.

Lemma Array_includes_true (ids : list Z) (x : Z) :
  Array_includes ids x = true <-> In x ids.
Proof.
  unfold Array_includes. rewrite existsb_exists. split.
  - intros (y & Hy & E). apply Z.eqb_eq in E. now subst.
  - intros H. exists x. split; [exact H|apply Z.eqb_refl].
Qed.

(** X11. Every record returned by [getTopMoviesByGenre] is derived from
    an input movie that lists [genreId] and passes the tests of
    [getTopMovies]; when some genre carries that id, the name of the
    first such genre is among the genre names of every returned record. *)
Theorem getTopMoviesByGenre_spec (movies : list Movie.t)
    (genres : list Genre.t) (genreId N : Z) :
  forall r, In r (getTopMoviesByGenre movies genres genreId N) ->
    (exists movie,
       In movie movies /\ r = enrichMovieWithGenres movie genres /\
       In genreId (Movie.genre_ids movie) /\ isValidMovie movie = true) /\
    (forall g, resolveGenre genres genreId = Some g ->
       In (Genre.name g) (TopMovie.genre_names r)).
Proof.
  intros r Hr. unfold getTopMoviesByGenre in Hr.
  apply getTopMovies_In in Hr as (movie & Hm & Hv & ->).
  apply filter_In in Hm as [Hm Hg]. apply Array_includes_true in Hg.
  split; [exists movie; auto|].
  intros g Hres.
  rewrite enrichMovieWithGenres_names. apply in_map. apply list_elem_of_In, list_elem_of_omap.
  exists genreId. split; [now apply list_elem_of_In|exact Hres].
Qed.

Lemma getTopMoviesByGenre_spec_witness :
  In "Action"%string
     (TopMovie.genre_names (enrichMovieWithGenres sampleMovie sampleGenres)).
Proof.
  refine (proj2 (getTopMoviesByGenre_spec [sampleMovie] sampleGenres 28 5
                   (enrichMovieWithGenres sampleMovie sampleGenres) _)
                (Genre.mk 28 "Action") _).
  - vm_compute. left. reflexivity.
  - reflexivity.
Defined.

(** ** top-movies.ts: the statistics of a ranking *)

Lemma fold_left_nested {A B C} (f : A -> C -> A) (g : B -> list C)
    (l : list B) (a : A) :
  fold_left (fun acc x => fold_left f (g x) acc) l a =
  fold_left f (flat_map g l) a.
Proof.
  revert a. induction l as [|x l IH]; intros a; simpl; [reflexivity|].
  now rewrite IH, fold_left_app.
Qed.

Lemma countGenreName_fold (names : list string) :
  forall (genreCount : list (string * Z)) (k : string),
    NoDup (map fst genreCount) ->
    NoDup (map fst (fold_left countGenreName names genreCount)) /\
    (In k (map fst (fold_left countGenreName names genreCount)) <->
     In k (map fst genreCount) \/ In k names) /\
    default 0 (Map_get (fold_left countGenreName names genreCount) k) =
    default 0 (Map_get genreCount k) +
    Z.of_nat (count_occ String.string_dec names k).
Proof.
  induction names as [|name names IH]; intros m k Hnd; simpl.
  - split; [exact Hnd|]. split; [tauto|lia].
  - destruct (IH (countGenreName m name) k) as (H1 & H2 & H3).
    { unfold countGenreName. now apply Map_set_NoDup. }
    split; [exact H1|]. split.
    + rewrite H2. unfold countGenreName. rewrite Map_keys_set.
      destruct (Map_has m name) eqn:E.
      * apply Map_has_In in E. split; [tauto|].
        intros [H|[<-|H]]; auto.
      * rewrite in_app_iff. simpl. tauto.
    + rewrite H3. unfold countGenreName. rewrite Map_get_set.
      destruct (String.string_dec name k) as [->|Hne].
      * rewrite decide_True by reflexivity. simpl. lia.
      * rewrite decide_False by congruence. lia.
Qed.

Lemma NoDup_take_map {A B} (f : A -> B) (n : nat) (l : list A) :
  NoDup (map f l) -> NoDup (map f (take n l)).
Proof.
  intros H. rewrite <- (take_drop n l), map_app in H.
  now apply NoDup_app in H as [H _].
Qed.

(** X12. [getTopMoviesStats] of an empty ranking is all zeros with no
    genre.  Otherwise it reports the number of records, the means of
    their popularity and vote average rounded to 2 decimals, and at most
    five genre names, each once, each with the number of times the
    records list it, in non-increasing order of that number. *)
Theorem getTopMoviesStats_spec (topMovies : list TopMovie.t) :
  let stats := getTopMoviesStats topMovies in
  let names := flat_map TopMovie.genre_names topMovies in
  (topMovies = [] -> stats = TopMoviesStats.mk 0 0 [] 0) /\
  TopMoviesStats.totalMovies stats = Z.of_nat (length topMovies) /\
  (topMovies <> [] ->
   rounded_2dp (mean (Z.of_nat (length topMovies))
                     (map TopMovie.popularity topMovies))
               (TopMoviesStats.avgPopularity stats) /\
   rounded_2dp (mean (Z.of_nat (length topMovies))
                     (map TopMovie.vote_average topMovies))
               (TopMoviesStats.avgVoteAverage stats)) /\
  (length (TopMoviesStats.mostCommonGenres stats) <= 5)%nat /\
  NoDup (map fst (TopMoviesStats.mostCommonGenres stats)) /\
  (forall genre count,
     In (genre, count) (TopMoviesStats.mostCommonGenres stats) ->
     count = Z.of_nat (count_occ String.string_dec names genre) /\
     1 <= count) /\
  StronglySorted (fun a b => snd b <= snd a)
                 (TopMoviesStats.mostCommonGenres stats).
Proof.
  cbv zeta. destruct topMovies as [|m0 rest] eqn:Etop.
  { split; [reflexivity|]. split; [reflexivity|]. split; [congruence|].
    simpl. split; [lia|]. split; [constructor|]. split; [tauto|constructor]. }
  rewrite <- Etop. unfold getTopMoviesStats.
  assert ((length topMovies =? 0)%nat = false) as -> by (subst; reflexivity).
  cbv zeta. simpl. rewrite fold_left_nested.
  set (names := flat_map TopMovie.genre_names topMovies).
  set (genreCount := fold_left countGenreName names []).
  set (sorted := Array_sort (fun a b => inject_Z (snd b - snd a)) genreCount).
  rewrite (Array_slice_prefix sorted 5) by lia.
  assert (Hnd : NoDup (map fst genreCount))
    by apply (countGenreName_fold names [] EmptyString), NoDup_nil_2.
  split; [subst; discriminate|]. split; [reflexivity|].
  split; [intros _; split; apply mean_rounded|].
  split; [rewrite length_take; lia|]. split; [|split].
  - apply NoDup_take_map. unfold sorted.
    now rewrite (Permutation_map _ (Array_sort_Permutation _ _)).
  - intros genre count Hin.
    apply list_elem_of_In, (subseteq_take _ _), list_elem_of_In in Hin.
    apply Array_sort_In in Hin.
    destruct (countGenreName_fold names [] genre (NoDup_nil_2))
      as (_ & Hk & Hc).
    fold genreCount in Hk, Hc.
    rewrite (Map_In_get _ _ _ Hnd Hin) in Hc. simpl in Hc.
    split; [exact Hc|].
    assert (Hg : In genre names).
    { destruct (proj1 Hk) as [[]|Hg]; [|exact Hg].
      apply in_map_iff. exists (genre, count). auto. }
    apply (count_occ_In String.string_dec) in Hg. lia.
  - assert (Hs : StronglySorted (fun a b : string * Z => snd b <= snd a) sorted).
    { apply Sorted_StronglySorted; [intros a b c; lia|].
      apply Array_sort_Sorted. split; intros x y;
        rewrite inject_Z_le_bool; lia. }
    rewrite <- (take_drop 5 sorted) in Hs.
    now apply StronglySorted_app_parts in Hs.
Qed.

(** ** genre-analysis.ts: the two ways of resolving genre names *)

Lemma genreMap_get (genres : list Genre.t) :
  forall (m0 : list (Z * string)) (k : Z),
    NoDup (map Genre.id genres) ->
    Map_get (fold_left (fun m genre => Map_set m (Genre.id genre) (Genre.name genre))
                       genres m0) k =
    match resolveGenre genres k with
    | Some g => Some (Genre.name g)
    | None => Map_get m0 k
    end.
Proof.
  unfold resolveGenre.
  induction genres as [|g genres IH]; intros m0 k Hnd; simpl; [reflexivity|].
  apply NoDup_cons in Hnd as [Hg Hnd]. rewrite (IH _ _ Hnd).
  destruct (Z.eqb_spec (Genre.id g) k) as [<-|Hne].
  - destruct (List.find _ genres) as [g'|] eqn:E.
    + apply find_some in E as [Hin Heq]. apply Z.eqb_eq in Heq.
      exfalso. apply Hg. apply list_elem_of_In, in_map_iff. eauto.
    + now rewrite Map_get_set, decide_True by reflexivity.
  - destruct (List.find _ genres); [reflexivity|].
    now rewrite Map_get_set, decide_False by congruence.
Qed.

(** X13. When no two genres share an id, [enrichMoviesWithGenreNames]
    returns the movies in their order, each with the same genre names as
    [enrichMovieWithGenres] resolves for it. *)
Theorem enrichMoviesWithGenreNames_agrees (movies : list Movie.t)
    (genres : list Genre.t) :
  NoDup (map Genre.id genres) ->
  map fst (enrichMoviesWithGenreNames movies genres) = movies /\
  map snd (enrichMoviesWithGenreNames movies genres) =
  map (fun movie => TopMovie.genre_names (enrichMovieWithGenres movie genres))
      movies.
Proof.
  intros Hnd. unfold enrichMoviesWithGenreNames. rewrite !map_map.
  split; [rewrite <- (map_id movies) at 2; now apply map_ext|].
  apply map_ext. intros movie. cbn [snd].
  rewrite enrichMovieWithGenres_names.
  induction (Movie.genre_ids movie) as [|gid ids IH]; [reflexivity|].
  cbn [omap list_omap]. rewrite (genreMap_get genres [] gid Hnd).
  destruct (resolveGenre genres gid); simpl; now rewrite IH.
Qed.

Lemma enrichMoviesWithGenreNames_agrees_witness :
  map fst (enrichMoviesWithGenreNames [sampleMovie] sampleGenres) = [sampleMovie].
Proof.
  refine (proj1 (enrichMoviesWithGenreNames_agrees [sampleMovie] sampleGenres _)).
  apply NoDup_ListNoDup. simpl.
  repeat constructor; simpl; intuition discriminate.
Defined.

(** ** Filtering, sorting by a score and slicing *)

Lemma Array_sort_sorted_id {A} (compareFn : A -> A -> Q) (l : list A) :
  Sorted (fun x y => Qle_bool (compareFn x y) 0 = true) l ->
  Array_sort compareFn l = l.
Proof.
  induction 1 as [|x l Hs IH Hhd]; simpl; [reflexivity|].
  rewrite IH. destruct Hhd as [|y l Hxy]; simpl; [reflexivity|].
  now rewrite Hxy.
Qed.

Lemma bestBy {A} (score : A -> Q) (keep : A -> bool) (l : list A) (N : Z) :
  0 <= N ->
  let out :=
    Array_slice
      (Array_sort (fun a b => (score b - score a)%Q) (List.filter keep l))
      0 N in
  length out = Nat.min (Z.to_nat N) (length (List.filter keep l)) /\
  StronglySorted (fun a b => (score b <= score a)%Q) out /\
  (forall x, In x out -> In x l /\ keep x = true) /\
  exists rest,
    Permutation (out ++ rest) (List.filter keep l) /\
    forall a b, In a out -> In b rest -> (score b <= score a)%Q.
Proof.
  intros HN. cbv zeta. rewrite Array_slice_prefix by exact HN.
  set (sorted := Array_sort _ (List.filter keep l)).
  assert (Hs : StronglySorted (fun a b => (score b <= score a)%Q) sorted).
  { apply Sorted_StronglySorted; [intros a b c H1 H2; lra|].
    apply Array_sort_Sorted, difference_orders. }
  rewrite <- (take_drop (Z.to_nat N) sorted) in Hs.
  apply StronglySorted_app_parts in Hs as [Hs1 Hs2].
  split; [|split; [exact Hs1|split]].
  - rewrite length_take. unfold sorted. now rewrite Array_sort_length.
  - intros x Hx.
    apply list_elem_of_In, (subseteq_take _ _), list_elem_of_In in Hx.
    apply Array_sort_In, filter_In in Hx. exact Hx.
  - exists (drop (Z.to_nat N) sorted). split; [|exact Hs2].
    rewrite take_drop. apply Array_sort_Permutation.
Qed.

(** ** genre-analysis.ts: the queries on a distribution *)

Lemma count_comparator_orders :
  orders
    (fun a b => inject_Z (GenreDistribution.count b - GenreDistribution.count a))
    countGe.
Proof. split; intros x y; rewrite inject_Z_le_bool; unfold countGe; lia. Qed.

Lemma analyzeGenreDistribution_sorted movies genres :
  StronglySorted countGe (analyzeGenreDistribution movies genres).
Proof.
  apply Sorted_StronglySorted; [exact countGe_Transitive|].
  apply Array_sort_Sorted, count_comparator_orders.
Qed.

Lemma countGe_sorted_id (distribution : list GenreDistribution.t) :
  StronglySorted countGe distribution ->
  Array_sort
    (fun a b => inject_Z (GenreDistribution.count b - GenreDistribution.count a))
    distribution = distribution.
Proof.
  intros Hs. apply Array_sort_sorted_id.
  apply StronglySorted_Sorted in Hs.
  induction Hs as [|x l Hs IH Hhd]; constructor; [exact IH|].
  destruct Hhd as [|y l Hxy]; constructor.
  rewrite inject_Z_le_bool. unfold countGe in Hxy. lia.
Qed.

(** X14. For a count [N], [getTopGenres] leaves the array it was given
    rearranged by non-increasing count and returns its first [N]
    records; an array that is already in that order is left as it was.
    So on the result of [analyzeGenreDistribution] it returns the first
    [N] records and changes nothing. *)
Theorem getTopGenres_spec (distribution : list GenreDistribution.t) (N : Z) :
  0 <= N ->
  let after := fst (getTopGenres distribution N) in
  let out := snd (getTopGenres distribution N) in
  Permutation after distribution /\
  StronglySorted countGe after /\
  out = take (Z.to_nat N) after /\
  (StronglySorted countGe distribution -> after = distribution) /\
  (forall movies genres,
     getTopGenres (analyzeGenreDistribution movies genres) N =
     (analyzeGenreDistribution movies genres,
      take (Z.to_nat N) (analyzeGenreDistribution movies genres))).
Proof.
  intros HN. cbv zeta. unfold getTopGenres. simpl.
  split; [apply Array_sort_Permutation|]. split; [|split; [|split]].
  - apply Sorted_StronglySorted; [exact countGe_Transitive|].
    apply Array_sort_Sorted, count_comparator_orders.
  - now apply Array_slice_prefix.
  - apply countGe_sorted_id.
  - intros movies genres.
    rewrite (countGe_sorted_id _ (analyzeGenreDistribution_sorted movies genres)).
    now rewrite Array_slice_prefix.
Qed.

Lemma getTopGenres_spec_witness :
  snd (getTopGenres (analyzeGenreDistribution [sampleMovie] sampleGenres) 1) =
  take (Z.to_nat 1)
       (fst (getTopGenres (analyzeGenreDistribution [sampleMovie] sampleGenres) 1)).
Proof.
  refine (proj1 (proj2 (proj2
    (getTopGenres_spec (analyzeGenreDistribution [sampleMovie] sampleGenres)
       1 _)))).
  lia.
Defined.

(** X15. For a count [N], [getGenresByPopularity] and
    [getTopRatedGenres] return the [N] best of the genres that have at
    least [minMovies] movies, or all of them when they are fewer, ranked
    by non-increasing average popularity and average vote respectively;
    no genre they leave out ranks above one they return. *)
Theorem genres_ranked_by_average (distribution : list GenreDistribution.t)
    (minMovies N : Z) :
  0 <= N ->
  let eligible :=
    List.filter (fun genre => minMovies <=? GenreDistribution.count genre)
                distribution in
  (let out := getGenresByPopularity distribution minMovies N in
   length out = Nat.min (Z.to_nat N) (length eligible) /\
   StronglySorted
     (fun a b => (GenreDistribution.avg_popularity b
                  <= GenreDistribution.avg_popularity a)%Q) out /\
   (forall g, In g out ->
      In g distribution /\ minMovies <= GenreDistribution.count g) /\
   exists rest,
     Permutation (out ++ rest) eligible /\
     forall a b, In a out -> In b rest ->
       (GenreDistribution.avg_popularity b
        <= GenreDistribution.avg_popularity a)%Q) /\
  (let out := getTopRatedGenres distribution minMovies N in
   length out = Nat.min (Z.to_nat N) (length eligible) /\
   StronglySorted
     (fun a b => (GenreDistribution.avg_vote_average b
                  <= GenreDistribution.avg_vote_average a)%Q) out /\
   (forall g, In g out ->
      In g distribution /\ minMovies <= GenreDistribution.count g) /\
   exists rest,
     Permutation (out ++ rest) eligible /\
     forall a b, In a out -> In b rest ->
       (GenreDistribution.avg_vote_average b
        <= GenreDistribution.avg_vote_average a)%Q).
Proof.
  intros HN. cbv zeta. split.
  - destruct (bestBy GenreDistribution.avg_popularity
                (fun genre => minMovies <=? GenreDistribution.count genre)
                distribution N HN) as (H1 & H2 & H3 & H4).
    unfold getGenresByPopularity. split; [exact H1|]. split; [exact H2|].
    split; [|exact H4]. intros g Hg. destruct (H3 g Hg). split; [auto|lia].
  - destruct (bestBy GenreDistribution.avg_vote_average
                (fun genre => minMovies <=? GenreDistribution.count genre)
                distribution N HN) as (H1 & H2 & H3 & H4).
    unfold getTopRatedGenres. split; [exact H1|]. split; [exact H2|].
    split; [|exact H4]. intros g Hg. destruct (H3 g Hg). split; [auto|lia].
Qed.

Lemma genres_ranked_by_average_witness :
  length (getGenresByPopularity
            (analyzeGenreDistribution [sampleMovie] sampleGenres) 1 5) =
  Nat.min (Z.to_nat 5)
    (length (List.filter
               (fun genre => 1 <=? GenreDistribution.count genre)
               (analyzeGenreDistribution [sampleMovie] sampleGenres))).
Proof.
  refine (proj1 (proj1
    (genres_ranked_by_average
       (analyzeGenreDistribution [sampleMovie] sampleGenres) 1 5 _))).
  lia.
Defined.

Lemma reduce_best {A} (better : A -> A -> bool) (le : A -> A -> Prop) :
  (forall a, le a a) ->
  (forall a b c, le a b -> le b c -> le a c) ->
  (forall a b, better a b = true -> le a b) ->
  (forall a b, better a b = false -> le b a) ->
  forall l x,
    In (fold_left (fun best g => if better best g then g else best) l x)
       (x :: l) /\
    forall y, In y (x :: l) ->
      le y (fold_left (fun best g => if better best g then g else best) l x).
Proof.
  intros Hrefl Htrans Ht Hf.
  induction l as [|g l IH]; intros x; simpl.
  - split; [now left|]. intros y [<-|[]]. apply Hrefl.
  - destruct (better x g) eqn:E.
    + destruct (IH g) as [Hin Hle]. split.
      * right. exact Hin.
      * intros y [<-|Hy]; [|now apply Hle].
        apply Htrans with g; [now apply Ht|]. apply Hle. now left.
    + destruct (IH x) as [Hin Hle]. split.
      * destruct Hin as [<-|Hin]; [now left|]. right. now right.
      * intros y [<-|[<-|Hy]].
        -- apply Hle. now left.
        -- apply Htrans with x; [now apply Hf|]. apply Hle. now left.
        -- apply Hle. now right.
Qed.

(** X16. [getGenreStats] of an empty distribution is all zeros and
    nulls.  Otherwise it reports the number of genres, the mean count per
    genre rounded to 2 decimals, and three genres of the distribution: one
    whose count no genre exceeds, one whose count no genre is below, and
    one whose average vote no genre exceeds. *)
Theorem getGenreStats_spec (distribution : list GenreDistribution.t) :
  let stats := getGenreStats distribution in
  (distribution = [] -> stats = GenreSummary.mk 0 0 None None None) /\
  (distribution <> [] ->
   GenreSummary.totalGenres stats = Z.of_nat (length distribution) /\
   rounded_2dp
     (inject_Z (Zsum (map GenreDistribution.count distribution))
      / inject_Z (Z.of_nat (length distribution)))%Q
     (GenreSummary.avgMoviesPerGenre stats) /\
   (exists most,
      GenreSummary.mostPopularGenre stats = Some most /\
      In most distribution /\
      forall g, In g distribution ->
        GenreDistribution.count g <= GenreDistribution.count most) /\
   (exists least,
      GenreSummary.leastPopularGenre stats = Some least /\
      In least distribution /\
      forall g, In g distribution ->
        GenreDistribution.count least <= GenreDistribution.count g) /\
   (exists best,
      GenreSummary.genreWithHighestRating stats = Some best /\
      In best distribution /\
      forall g, In g distribution ->
        (GenreDistribution.avg_vote_average g
         <= GenreDistribution.avg_vote_average best)%Q)).
Proof.
  cbv zeta. split; [intros ->; reflexivity|]. intros Hne.
  destruct distribution as [|x l]; [congruence|].
  unfold getGenreStats.
  change ((length (x :: l) =? 0)%nat) with false. cbv iota zeta.
  cbn [GenreSummary.totalGenres GenreSummary.avgMoviesPerGenre
       GenreSummary.mostPopularGenre GenreSummary.leastPopularGenre
       GenreSummary.genreWithHighestRating Array_reduce1].
  split; [reflexivity|]. split; [|split; [|split]].
  - rewrite reduce_Zsum, Z.add_0_l. apply round_div_100.
  - eexists. split; [reflexivity|].
    apply (reduce_best
             (fun max g => GenreDistribution.count max <? GenreDistribution.count g)
             (fun a b => GenreDistribution.count a <= GenreDistribution.count b));
      intros; lia.
  - eexists. split; [reflexivity|].
    apply (reduce_best
             (fun min g => GenreDistribution.count g <? GenreDistribution.count min)
             (fun a b => GenreDistribution.count b <= GenreDistribution.count a));
      intros; lia.
  - eexists. split; [reflexivity|].
    apply (reduce_best
             (fun max g =>
                Number_ltb (GenreDistribution.avg_vote_average max)
                           (GenreDistribution.avg_vote_average g))
             (fun a b => (GenreDistribution.avg_vote_average a
                          <= GenreDistribution.avg_vote_average b)%Q)).
    + intros a. lra.
    + intros a b c H1 H2. lra.
    + intros a b H. apply Number_ltb_true in H. lra.
    + intros a b H.
      destruct (Qlt_le_dec (GenreDistribution.avg_vote_average a)
                           (GenreDistribution.avg_vote_average b)) as [Hlt|Hle];
        [|exact Hle].
      apply Number_ltb_true in Hlt. congruence.
Qed.

(** ** genre-analysis.ts: filtering a distribution *)




(** ** percentage-change.ts: the summaries of the changes *)

Lemma present_values_filter_map (field : loc -> option Q) (arr : list loc) :
  map (fun data => default 0%Q (field data))
      (List.filter (fun data => isDefined (field data)) arr) =
  presentValues field arr.
Proof.
  unfold presentValues.
  induction arr as [|l arr IH]; simpl; [reflexivity|].
  destruct (field l) eqn:E; simpl; [|exact IH].
  rewrite E. simpl. f_equal. exact IH.
Qed.

Lemma averageChange_spec (field : loc -> option Q) (arr : list loc) :
  let values := presentValues field arr in
  (values = [] -> averageChange field arr = 0%Q) /\
  (values <> [] ->
   rounded_2dp (mean (Z.of_nat (length values)) values)
               (averageChange field arr)).
Proof.
  cbv zeta. unfold averageChange. rewrite present_values_filter_map.
  destruct (presentValues field arr) as [|v values] eqn:E.
  - split; [reflexivity|]. intros H. now destruct H.
  - split; [discriminate|]. intros _.
    change ((length (v :: values) =? 0)%nat) with false. cbv iota.
    pose proof (mean_rounded (fun x : Q => x) (v :: values)
                  (Z.of_nat (length (v :: values)))) as H.
    rewrite map_id in H. exact H.
Qed.

(** X18. [getAveragePopularityChange] and [getAverageVoteChange] are 0 on
    a series in which no record carries the change field, the empty series
    included; otherwise they are the mean of the changes that are present,
    records without one left out of the count, rounded to 2 decimals. *)
Theorem average_change_of_present_values (h : heap) (monthlyData : list loc) :
  let popularity := presentValues (popularity_change_percent_at h) monthlyData in
  let vote := presentValues (vote_change_percent_at h) monthlyData in
  (popularity = [] -> getAveragePopularityChange h monthlyData = 0%Q) /\
  (popularity <> [] ->
   rounded_2dp (mean (Z.of_nat (length popularity)) popularity)
               (getAveragePopularityChange h monthlyData)) /\
  (vote = [] -> getAverageVoteChange h monthlyData = 0%Q) /\
  (vote <> [] ->
   rounded_2dp (mean (Z.of_nat (length vote)) vote)
               (getAverageVoteChange h monthlyData)).
Proof.
  cbv zeta.
  destruct (averageChange_spec (popularity_change_percent_at h) monthlyData)
    as [P0 P1].
  destruct (averageChange_spec (vote_change_percent_at h) monthlyData)
    as [V0 V1].
  unfold getAveragePopularityChange, getAverageVoteChange. auto.
Qed.

Lemma isDefined_is_Some {A} (o : option A) : isDefined o = true <-> is_Some o.
Proof.
  destruct o; simpl; split; intros H; try discriminate; eauto.
  destruct H; discriminate.
Qed.

(** X19. For a count [N], [getTopGrowthPeriods] returns the [N] records
    with the largest change of the metric among those of the series that
    carry one, or all of them when they are fewer, by non-increasing
    change; no record it leaves out has a larger change than one it
    returns. *)
Theorem getTopGrowthPeriods_spec (h : heap) (monthlyData : list loc)
    (metric : Metric) (N : Z) :
  0 <= N ->
  let growth := fun data => default 0%Q (changeField h metric data) in
  let out := getTopGrowthPeriods h monthlyData metric N in
  length out =
    Nat.min (Z.to_nat N)
            (length (presentValues (changeField h metric) monthlyData)) /\
  StronglySorted (fun a b => (growth b <= growth a)%Q) out /\
  (forall data, In data out ->
     In data monthlyData /\ is_Some (changeField h metric data)) /\
  exists rest,
    Permutation (out ++ rest)
      (List.filter (fun data => isDefined (changeField h metric data))
                   monthlyData) /\
    forall a b, In a out -> In b rest -> (growth b <= growth a)%Q.
Proof.
  intros HN. cbv zeta.
  destruct (bestBy (fun data => default 0%Q (changeField h metric data))
              (fun data => isDefined (changeField h metric data))
              monthlyData N HN) as (H1 & H2 & H3 & H4).
  assert (E : getTopGrowthPeriods h monthlyData metric N =
              Array_slice
                (Array_sort
                   (fun a b => (default 0 (changeField h metric b)
                                - default 0 (changeField h metric a))%Q)
                   (List.filter
                      (fun data => isDefined (changeField h metric data))
                      monthlyData)) 0 N)
    by (destruct metric; reflexivity).
  rewrite E. split; [|split; [exact H2|split; [|exact H4]]].
  - rewrite H1. f_equal.
    rewrite <- present_values_filter_map. now rewrite length_map.
  - intros data Hd. destruct (H3 data Hd) as [Hin Hdef].
    split; [exact Hin|]. now apply isDefined_is_Some.
Qed.

Lemma getTopGrowthPeriods_spec_witness :
  length (getTopGrowthPeriods
            (fst (calculatePercentageChange exampleSeries [0; 1; 2]%nat))
            [0; 1; 2]%nat metric_popularity 1) =
  Nat.min (Z.to_nat 1)
    (length (presentValues
               (changeField
                  (fst (calculatePercentageChange exampleSeries [0; 1; 2]%nat))
                  metric_popularity)
               [0; 1; 2]%nat)).
Proof.
  refine (proj1
    (getTopGrowthPeriods_spec
       (fst (calculatePercentageChange exampleSeries [0; 1; 2]%nat))
       [0; 1; 2]%nat metric_popularity 1 _)).
  lia.
Defined.

(** ** rolling-window.ts: the exponential moving average *)

Lemma emaStep_within arr alpha h i :
  updatedWithin sameButMovingAverages arr h (emaStep arr alpha h i).
Proof.
  unfold emaStep.
  destruct (arr !! i) as [current|] eqn:Hc;
    [|apply updatedWithin_refl, sameButMovingAverages_refl].
  destruct (arr !! (i - 1)%nat) as [previous|];
    [|apply updatedWithin_refl, sameButMovingAverages_refl].
  assert (Hin : In current arr)
    by (apply list_elem_of_In; eapply list_elem_of_lookup_2; eauto).
  cbv zeta.
  match goal with
  | |- updatedWithin _ _ _ (assign _ _ ?h1) =>
      apply (updatedWithin_trans _ _ h h1 _ sameButMovingAverages_trans)
  end;
    (apply updatedWithin_assign;
       [exact sameButMovingAverages_refl | intros r; repeat split | exact Hin]).
Qed.

Lemma emaSeed_within arr h :
  updatedWithin sameButMovingAverages arr h (emaSeed arr h).
Proof.
  unfold emaSeed.
  destruct (arr !! 0%nat) as [first|] eqn:Hc;
    [|apply updatedWithin_refl, sameButMovingAverages_refl].
  assert (Hin : In first arr)
    by (apply list_elem_of_In; eapply list_elem_of_lookup_2; eauto).
  cbv zeta.
  match goal with
  | |- updatedWithin _ _ _ (assign _ _ ?h1) =>
      apply (updatedWithin_trans _ _ h h1 _ sameButMovingAverages_trans)
  end;
    (apply updatedWithin_assign;
       [exact sameButMovingAverages_refl | intros r; repeat split | exact Hin]).
Qed.

Lemma sameButMovingAverages_frozen arr h h' :
  updatedWithin sameButMovingAverages arr h h' -> frozen h h'.
Proof.
  intros [_ H] l. destruct (H l) as [_ R].
  unfold avg_popularity_at, avg_vote_average_at.
  destruct (h !! l), (h' !! l); try tauto; simpl.
  destruct R as [R _]. unfold aggregates in R. now inversion R.
Qed.

Lemma updatedWithin_is_Some P arr h h' (l : loc) :
  updatedWithin P arr h h' -> is_Some (h !! l) -> is_Some (h' !! l).
Proof.
  intros [_ H] [r Hr]. destruct (H l) as [_ R]. rewrite Hr in R.
  destruct (h' !! l); [eauto|tauto].
Qed.

Lemma vote_moving_avg_at_set_popularity v (l l' : loc) (h : heap) :
  vote_moving_avg_at (assign (MonthlyData.set_popularity_moving_avg v) l h) l' =
  vote_moving_avg_at h l'.
Proof.
  unfold vote_moving_avg_at, assign.
  destruct (decide (l = l')) as [->|Hne].
  - rewrite list_lookup_alter_eq. now destruct (h !! l').
  - now rewrite list_lookup_alter_ne.
Qed.

(** One turn of the loop, at index [S i]. *)
Lemma emaStep_lookup arr alpha (h : heap) i (previous current : loc) :
  arr !! i = Some previous -> arr !! S i = Some current ->
  is_Some (h !! current) ->
  let h' := emaStep arr alpha h (S i) in
  popularity_moving_avg_at h' current =
    Some (inject_Z (Math_round
            ((alpha * avg_popularity_at h current +
              (1 - alpha) * orElse (popularity_moving_avg_at h previous)
                                   (avg_popularity_at h previous)) * 100))
          / 100)%Q /\
  vote_moving_avg_at h' current =
    Some (inject_Z (Math_round
            ((alpha * avg_vote_average_at h current +
              (1 - alpha) * orElse (vote_moving_avg_at h previous)
                                   (avg_vote_average_at h previous)) * 100))
          / 100)%Q /\
  forall l : loc, l <> current -> h' !! l = h !! l.
Proof.
  intros Hp Hc [r Hr]. cbv zeta. unfold emaStep.
  rewrite Hc. replace (S i - 1)%nat with i by lia. rewrite Hp. cbv zeta.
  set (p := Some (inject_Z (Math_round
                 ((alpha * avg_popularity_at h current + _) * 100)) / 100)%Q).
  rewrite vote_moving_avg_at_set_popularity.
  pose proof (frozen_assign h h (MonthlyData.set_popularity_moving_avg p) current
                (keepsAverages_set_popularity_moving_avg p) (frozen_refl h))
    as Hfr.
  rewrite (proj2 (Hfr current)), (proj2 (Hfr previous)).
  set (v := Some _).
  rewrite assign_assign. unfold assign.
  split; [|split].
  - unfold popularity_moving_avg_at. rewrite list_lookup_alter_eq, Hr.
    reflexivity.
  - unfold vote_moving_avg_at. rewrite list_lookup_alter_eq, Hr. reflexivity.
  - intros l Hl. now rewrite list_lookup_alter_ne.
Qed.

Section EmaLoop.
Variable arr : list loc.
Variable alpha : Q.
Variable h0 : heap.
Hypothesis arr_NoDup : NoDup arr.
Hypothesis arr_valid : forall l : loc, In l arr -> is_Some (h0 !! l).

Lemma emaLoop_within n :
  updatedWithin sameButMovingAverages arr h0
    (fold_left (emaStep arr alpha) (seq 1 n) h0).
Proof.
  apply updatedWithin_fold;
    [exact sameButMovingAverages_refl | exact sameButMovingAverages_trans |].
  intros h i. apply emaStep_within.
Qed.

Lemma emaLoop_lookup n :
  (S n <= length arr)%nat ->
  let hk := fold_left (emaStep arr alpha) (seq 1 n) h0 in
  (forall l : loc,
     (forall j, (1 <= j <= n)%nat -> arr !! j <> Some l) -> hk !! l = h0 !! l) /\
  (forall i previous current, (i < n)%nat ->
     arr !! i = Some previous -> arr !! S i = Some current ->
     popularity_moving_avg_at hk current =
       Some (inject_Z (Math_round
               ((alpha * avg_popularity_at h0 current +
                 (1 - alpha) * orElse (popularity_moving_avg_at hk previous)
                                      (avg_popularity_at h0 previous)) * 100))
             / 100)%Q /\
     vote_moving_avg_at hk current =
       Some (inject_Z (Math_round
               ((alpha * avg_vote_average_at h0 current +
                 (1 - alpha) * orElse (vote_moving_avg_at hk previous)
                                      (avg_vote_average_at h0 previous)) * 100))
             / 100)%Q).
Proof.
  induction n as [|n IH]; intros Hlen; cbv zeta.
  - split; [reflexivity|]. intros i previous current Hi. lia.
  - destruct IH as [IH1 IH2]; [lia|].
    rewrite seq_S, fold_left_app. simpl fold_left.
    set (hk := fold_left (emaStep arr alpha) (seq 1 n) h0) in *.
    destruct (lookup_lt_is_Some_2 arr n) as [prev' Hprev']; [lia|].
    destruct (lookup_lt_is_Some_2 arr (S n)) as [cur' Hcur']; [lia|].
    pose proof (emaLoop_within n) as Hwithin. fold hk in Hwithin.
    pose proof (sameButMovingAverages_frozen _ _ _ Hwithin) as Hfr.
    assert (Hvalid : is_Some (hk !! cur')).
    { apply (updatedWithin_is_Some _ _ _ _ _ Hwithin), arr_valid.
      apply list_elem_of_In. eapply list_elem_of_lookup_2; eauto. }
    destruct (emaStep_lookup arr alpha hk n prev' cur' Hprev' Hcur' Hvalid)
      as (Hp & Hv & Hother).
    change (1 + n)%nat with (S n).
    set (hk' := emaStep arr alpha hk (S n)) in *.
    assert (Hkeep : forall j (l : loc), (j <= n)%nat -> arr !! j = Some l ->
              hk' !! l = hk !! l).
    { intros j l Hj Hl. apply Hother. intros ->.
      pose proof (NoDup_lookup arr j (S n) cur' arr_NoDup Hl Hcur'). lia. }
    split.
    + intros l Hl. rewrite Hother.
      * apply IH1. intros j Hj. apply Hl. lia.
      * intros ->. apply (Hl (S n)); [lia|exact Hcur'].
    + intros i previous current Hi Hpi Hci.
      assert (Hprev : hk' !! previous = hk !! previous)
        by (apply (Hkeep i); [lia|exact Hpi]).
      destruct (decide (i = n)) as [->|Hne].
      * assert (previous = prev') as -> by congruence.
        assert (current = cur') as -> by congruence.
        rewrite Hp, Hv.
        unfold popularity_moving_avg_at, vote_moving_avg_at. rewrite Hprev.
        destruct (Hfr cur') as [-> ->], (Hfr prev') as [-> ->]. now split.
      * assert (Hcur : hk' !! current = hk !! current)
          by (apply (Hkeep (S i)); [lia|exact Hci]).
        destruct (IH2 i previous current) as [Ip Iv]; [lia|exact Hpi|exact Hci|].
        unfold popularity_moving_avg_at, vote_moving_avg_at in *.
        rewrite Hprev, Hcur. now split.
Qed.
End EmaLoop.

(** X20. [calculateExponentialMovingAverage] returns the series it was
    given and changes nothing but the two moving averages of its records.
    With a smoothing factor outside of (0, 1] it changes nothing at all.
    Otherwise, on distinct records, every record ends with both moving
    averages set: the first record's are its own averages, and each later
    record's are [alpha] times its average plus [1 - alpha] times what the
    record before it carries, rounded to 2 decimals; what a record carries
    is its moving average, or its plain average when that moving average
    is 0. *)
Theorem calculateExponentialMovingAverage_spec (h : heap)
    (monthlyData : list loc) (alpha : Q) :
  NoDup monthlyData ->
  (forall l : loc, In l monthlyData -> is_Some (h !! l)) ->
  let out := calculateExponentialMovingAverage h monthlyData alpha in
  snd out = monthlyData /\
  updatedWithin sameButMovingAverages monthlyData h (fst out) /\
  ((alpha <= 0 \/ 1 < alpha)%Q -> out = (h, monthlyData)) /\
  ((0 < alpha /\ alpha <= 1)%Q ->
   (forall l : loc, In l monthlyData ->
      is_Some (popularity_moving_avg_at (fst out) l) /\
      is_Some (vote_moving_avg_at (fst out) l)) /\
   (forall first, monthlyData !! 0%nat = Some first ->
      popularity_moving_avg_at (fst out) first = Some (avg_popularity_at h first) /\
      vote_moving_avg_at (fst out) first = Some (avg_vote_average_at h first)) /\
   (forall i previous current,
      monthlyData !! i = Some previous -> monthlyData !! S i = Some current ->
      exists p v,
        popularity_moving_avg_at (fst out) current = Some p /\
        vote_moving_avg_at (fst out) current = Some v /\
        rounded_2dp
          (alpha * avg_popularity_at h current +
           (1 - alpha) * orElse (popularity_moving_avg_at (fst out) previous)
                                (avg_popularity_at h previous)) p /\
        rounded_2dp
          (alpha * avg_vote_average_at h current +
           (1 - alpha) * orElse (vote_moving_avg_at (fst out) previous)
                                (avg_vote_average_at h previous)) v)).
Proof.
  intros Hnd Hvalid. cbv zeta. unfold calculateExponentialMovingAverage.
  destruct (Qle_bool alpha 0 || Number_ltb 1 alpha ||
            (length monthlyData =? 0)%nat) eqn:Hguard.
  - simpl. split; [reflexivity|].
    split; [apply updatedWithin_refl, sameButMovingAverages_refl|].
    split; [reflexivity|]. intros [Hpos Hle].
    apply orb_true_iff in Hguard as [Hguard|Hempty].
    + apply orb_true_iff in Hguard as [Hg|Hg].
      * apply Qle_bool_iff in Hg. lra.
      * apply Number_ltb_true in Hg. lra.
    + apply Nat.eqb_eq in Hempty. destruct monthlyData; [|discriminate].
      split; [intros l []|]. split; [intros first [=]|].
      intros i previous current [=].
  - apply orb_false_iff in Hguard as [Hguard Hne].
    apply orb_false_iff in Hguard as [Hg0 Hg1].
    apply Nat.eqb_neq in Hne.
    assert ((0 <? length monthlyData)%nat = true) as ->
      by (apply Nat.ltb_lt; lia).
    cbn [fst snd]. set (h1 := emaSeed monthlyData h).
    pose proof (emaSeed_within monthlyData h) as Hseed. fold h1 in Hseed.
    pose proof (sameButMovingAverages_frozen _ _ _ Hseed) as Hfr.
    assert (Hvalid1 : forall l : loc, In l monthlyData -> is_Some (h1 !! l)).
    { intros l Hl. apply (updatedWithin_is_Some _ _ _ _ _ Hseed), Hvalid, Hl. }
    pose proof (emaLoop_within monthlyData alpha h1 (length monthlyData - 1))
      as Hloop.
    destruct (emaLoop_lookup monthlyData alpha h1 Hnd Hvalid1
                (length monthlyData - 1)) as [Hout Hrec]; [lia|].
    set (h' := fold_left _ _ h1) in *.
    assert (Hfirst : forall first, monthlyData !! 0%nat = Some first ->
              popularity_moving_avg_at h' first = Some (avg_popularity_at h first) /\
              vote_moving_avg_at h' first = Some (avg_vote_average_at h first)).
    { intros first Hf.
      assert (E : h' !! first = h1 !! first).
      { apply Hout. intros j Hj Hjf.
        pose proof (NoDup_lookup monthlyData j 0 first Hnd Hjf Hf). lia. }
      destruct (Hvalid first) as [r Hr].
      { apply list_elem_of_In. eapply list_elem_of_lookup_2; eauto. }
      unfold popularity_moving_avg_at, vote_moving_avg_at. rewrite E.
      unfold h1, emaSeed. rewrite Hf. cbv zeta.
      destruct (frozen_assign h h
                  (MonthlyData.set_popularity_moving_avg
                     (Some (avg_popularity_at h first))) first
                  (keepsAverages_set_popularity_moving_avg _) (frozen_refl h)
                  first) as [_ ->].
      rewrite assign_assign. unfold assign.
      rewrite list_lookup_alter_eq, Hr. now split. }
    assert (Hlater : forall i previous current,
              monthlyData !! i = Some previous ->
              monthlyData !! S i = Some current ->
              exists p v,
                popularity_moving_avg_at h' current = Some p /\
                vote_moving_avg_at h' current = Some v /\
                rounded_2dp
                  (alpha * avg_popularity_at h current +
                   (1 - alpha) * orElse (popularity_moving_avg_at h' previous)
                                        (avg_popularity_at h previous)) p /\
                rounded_2dp
                  (alpha * avg_vote_average_at h current +
                   (1 - alpha) * orElse (vote_moving_avg_at h' previous)
                                        (avg_vote_average_at h previous)) v).
    { intros i previous current Hp Hc.
      pose proof (lookup_lt_Some _ _ _ Hc) as Hi.
      destruct (Hrec i previous current) as [Ep Ev]; [lia|exact Hp|exact Hc|].
      destruct (Hfr current) as [Ec1 Ec2], (Hfr previous) as [Ep1 Ep2].
      rewrite Ec1, Ep1 in Ep. rewrite Ec2, Ep2 in Ev.
      eexists _, _. split; [exact Ep|]. split; [exact Ev|].
      split; apply round_div_100. }
    split; [reflexivity|].
    split.
    { apply (updatedWithin_trans _ _ h h1 _ sameButMovingAverages_trans);
        [exact Hseed|exact Hloop]. }
    split.
    { intros [H|H].
      - apply Qle_bool_iff in H. congruence.
      - apply Number_ltb_true in H. congruence. }
    intros _. split; [|split; [exact Hfirst|exact Hlater]].
    intros l Hl. apply list_elem_of_In, list_elem_of_lookup_1 in Hl as [i Hi].
    destruct i as [|i].
    + destruct (Hfirst l Hi) as [-> ->]. split; eauto.
    + destruct (lookup_lt_is_Some_2 monthlyData i) as [previous Hp].
      { apply lookup_lt_Some in Hi. lia. }
      destruct (Hlater i previous l Hp Hi) as (p & v & -> & -> & _).
      split; eauto.
Qed.

Lemma calculateExponentialMovingAverage_spec_witness :
  updatedWithin sameButMovingAverages [0; 1; 2]%nat exampleSeries
    (fst (calculateExponentialMovingAverage exampleSeries [0; 1; 2]%nat (3 # 10))).
Proof.
  refine (proj1 (proj2
    (calculateExponentialMovingAverage_spec exampleSeries [0; 1; 2]%nat (3 # 10)
       _ _))).
  - apply NoDup_ListNoDup. repeat constructor; simpl; intuition discriminate.
  - intros l [<-|[<-|[<-|[]]]]; eexists; reflexivity.
Defined.

(** ** index.ts: the date range of a set of movies *)

Lemma String_le_trans (a b c : string) :
  String_le a b = true -> String_le b c = true -> String_le a c = true.
Proof.
  intros [->|Hab]%String_le_true [->|Hbc]%String_le_true;
    apply String_le_true; auto.
  right. now apply String_lt_trans with b.
Qed.

Lemma compareCodeUnits_orders :
  orders compareCodeUnits (fun a b => String_le a b = true).
Proof.
  split; intros a b; unfold compareCodeUnits, String_le, String.leb.
  - destruct (String.compare a b); [reflexivity|reflexivity|].
    vm_compute. discriminate.
  - rewrite (String.compare_antisym b a).
    destruct (String.compare a b); simpl; [discriminate|discriminate|].
    reflexivity.
Qed.

Lemma sorted_dates_extremes (dates : list string) :
  let sorted := Array_sort compareCodeUnits dates in
  match sorted with
  | [] => dates = []
  | d :: _ => In d dates /\ forall x, In x dates -> String_le d x = true
  end /\
  match rev sorted with
  | [] => dates = []
  | d :: _ => In d dates /\ forall x, In x dates -> String_le x d = true
  end.
Proof.
  cbv zeta.
  assert (Hs : StronglySorted (fun a b => String_le a b = true)
                 (Array_sort compareCodeUnits dates)).
  { apply Sorted_StronglySorted; [intros a b c; apply String_le_trans|].
    apply Array_sort_Sorted, compareCodeUnits_orders. }
  assert (Hrefl : forall x, String_le x x = true)
    by (intros x; apply String_le_true; now left).
  split.
  - destruct (Array_sort compareCodeUnits dates) as [|d ds] eqn:E.
    + now apply Array_sort_nil_inv in E.
    + split; [apply (Array_sort_In compareCodeUnits); rewrite E; now left|].
      intros x Hx. apply (Array_sort_In compareCodeUnits) in Hx.
      rewrite E in Hx. destruct Hx as [<-|Hx]; [apply Hrefl|].
      apply StronglySorted_inv in Hs as [_ Hd].
      rewrite Forall_forall in Hd. apply Hd, list_elem_of_In, Hx.
  - destruct (rev (Array_sort compareCodeUnits dates)) as [|d ds] eqn:E.
    + apply (f_equal (@rev string)) in E. rewrite rev_involutive in E.
      now apply Array_sort_nil_inv in E.
    + apply (f_equal (@rev string)) in E. rewrite rev_involutive in E.
      simpl in E. rewrite E in Hs.
      apply StronglySorted_app_parts in Hs as [_ Hd].
      split; [apply (Array_sort_In compareCodeUnits); rewrite E;
              apply in_or_app; right; now left|].
      intros x Hx. apply (Array_sort_In compareCodeUnits) in Hx.
      rewrite E in Hx. apply in_app_or in Hx as [Hx|[<-|[]]]; [|apply Hrefl].
      apply Hd; [exact Hx|now left].
Qed.

Lemma releaseDates_In movies d :
  In d (map Movie.release_date
          (List.filter (fun movie => truthy (Movie.release_date movie)) movies))
  <-> exists movie, In movie movies /\ Movie.release_date movie <> EmptyString /\
                    Movie.release_date movie = d.
Proof.
  rewrite in_map_iff. split.
  - intros (movie & <- & Hin). apply filter_In in Hin as [Hin Ht].
    exists movie. split; [exact Hin|]. split; [now apply truthy_true|reflexivity].
  - intros (movie & Hin & Hd & <-). exists movie. split; [reflexivity|].
    apply filter_In. split; [exact Hin|now apply truthy_true].
Qed.

(** X21. When no movie has a release date, [getEarliestDate] and
    [getLatestDate] both answer with the host's current day.  Otherwise
    each answers with the release date of one of the movies, and every
    non-empty release date lies between the two, in the order of their
    code units; in particular the earliest date is not after the latest. *)
Theorem earliest_and_latest_dates (host : Host) (movies : list Movie.t) :
  let earliest := getEarliestDate host movies in
  let latest := getLatestDate host movies in
  ((forall movie, In movie movies -> Movie.release_date movie = EmptyString) ->
   earliest = Date_today host /\ latest = Date_today host) /\
  ((exists movie, In movie movies /\ Movie.release_date movie <> EmptyString) ->
   (exists movie, In movie movies /\ Movie.release_date movie <> EmptyString /\
                  Movie.release_date movie = earliest) /\
   (exists movie, In movie movies /\ Movie.release_date movie <> EmptyString /\
                  Movie.release_date movie = latest) /\
   (forall movie, In movie movies ->
      Movie.release_date movie <> EmptyString ->
      String_le earliest (Movie.release_date movie) = true /\
      String_le (Movie.release_date movie) latest = true) /\
   String_le earliest latest = true).
Proof.
  cbv zeta. unfold getEarliestDate, getLatestDate.
  set (dates := map Movie.release_date
                  (List.filter (fun movie => truthy (Movie.release_date movie))
                               movies)).
  destruct (sorted_dates_extremes dates) as [Hmin Hmax]. cbv zeta in Hmin.
  split.
  - intros Hnone.
    assert (E : dates = []).
    { destruct dates as [|d ds] eqn:E; [reflexivity|].
      assert (Hd : In d dates) by (rewrite E; now left).
      apply releaseDates_In in Hd as (movie & Hin & Hne & _).
      now apply Hnone in Hin. }
    rewrite E. split; reflexivity.
  - intros (movie & Hin & Hne).
    assert (Hd : In (Movie.release_date movie) dates)
      by (apply releaseDates_In; eauto).
    destruct (Array_sort compareCodeUnits dates) as [|lo ds];
      [rewrite Hmin in Hd; destruct Hd|].
    destruct (rev (lo :: ds)) as [|hi ds'];
      [rewrite Hmax in Hd; destruct Hd|].
    destruct Hmin as [Hlo Hmin], Hmax as [Hhi Hmax].
    split; [now apply releaseDates_In|].
    split; [now apply releaseDates_In|]. split.
    + intros m Hm Hdm.
      assert (Hdin : In (Movie.release_date m) dates)
        by (apply releaseDates_In; eauto).
      auto.
    + now apply Hmax.
Qed.

(** ** index.ts: the validation of a result *)

Lemma forallb_false {A} (f : A -> bool) (l : list A) :
  forallb f l = false <-> exists x, In x l /\ f x = false.
Proof.
  induction l as [|a l IH]; simpl.
  - split; [discriminate|]. intros (x & [] & _).
  - rewrite andb_false_iff, IH. split.
    + intros [Ha|(x & Hx & Hf)]; eauto.
    + intros (x & [<-|Hx] & Hf); eauto.
Qed.

Lemma String_le_false (a b : string) :
  String_le a b = false <-> String_lt b a.
Proof.
  unfold String_le, String.leb, String_lt.
  rewrite (String.compare_antisym a b).
  destruct (String.compare b a); simpl; split; congruence.
Qed.

Lemma isOrdered_false (h : heap) (monthly_data : list loc) :
  forallb (isOrderedAt h monthly_data) (seq 0 (length monthly_data)) = false <->
  exists i prev curr,
    monthly_data !! i = Some prev /\ monthly_data !! S i = Some curr /\
    String_lt (month_at h curr) (month_at h prev).
Proof.
  rewrite forallb_false. split.
  - intros (index & _ & Hf). unfold isOrderedAt in Hf.
    destruct index as [|i]; [discriminate|].
    change ((S i =? 0)%nat) with false in Hf. cbv iota in Hf.
    replace (S i - 1)%nat with i in Hf by lia.
    destruct (monthly_data !! S i) as [curr|] eqn:Hc; [|discriminate].
    destruct (monthly_data !! i) as [prev|] eqn:Hp; [|discriminate].
    exists i, prev, curr. split; [exact Hp|]. split; [exact Hc|].
    now apply String_le_false.
  - intros (i & prev & curr & Hp & Hc & Hlt). exists (S i). split.
    + apply in_seq. apply lookup_lt_Some in Hc. lia.
    + unfold isOrderedAt. change ((S i =? 0)%nat) with false. cbv iota.
      replace (S i - 1)%nat with i by lia. rewrite Hc, Hp.
      now apply String_le_false.
Qed.

Lemma warns_not_chronological (h : heap) (data : DashboardData.t) :
  In msgNotChronological (Validation.warnings (validateDashboardData h data)) <->
  forallb (isOrderedAt h (DashboardData.monthly_data data))
          (seq 0 (length (DashboardData.monthly_data data))) = false.
Proof.
  unfold validateDashboardData. cbv zeta. cbn [Validation.warnings].
  rewrite !in_app_iff. split.
  - intros [H|[H|H]].
    + destruct (DashboardData.monthly_data data) as [|l arr] eqn:E;
        [destruct H|].
      change ((length (l :: arr) =? 0)%nat) with false in H. cbv iota in H.
      destruct (forallb _ _); [destruct H|reflexivity].
    + destruct (length (DashboardData.top_movies data) =? 0)%nat;
        [|destruct H]. destruct H as [H|[]]. vm_compute in H. discriminate.
    + destruct (length (DashboardData.genre_distribution data) =? 0)%nat.
      * destruct H as [H|[]]. vm_compute in H. discriminate.
      * destruct (Number_ltb 5 _); [|destruct H].
        destruct H as [H|[]]. unfold msgPercentages in H. simpl in H.
        discriminate.
  - intros H. left.
    destruct (DashboardData.monthly_data data) as [|l arr] eqn:E;
      [simpl in H; discriminate|].
    change ((length (l :: arr) =? 0)%nat) with false. cbv iota.
    rewrite H. now left.
Qed.

Lemma valid_iff_series_and_range (h : heap) (data : DashboardData.t) :
  Validation.isValid (validateDashboardData h data) = true <->
  DashboardData.monthly_data data <> [] /\
  ~ String_lt (DateRange.end_ (DashboardData.date_range data))
              (DateRange.start (DashboardData.date_range data)).
Proof.
  unfold validateDashboardData. cbv zeta. cbn [Validation.isValid].
  rewrite Nat.eqb_eq, length_app.
  destruct (DashboardData.monthly_data data) as [|l arr]; simpl.
  - split; [discriminate|]. intros [H _]. congruence.
  - destruct (String.ltb _ _) eqn:E; simpl.
    + apply String_ltb_true in E. split; [discriminate|]. intros [_ H].
      contradiction.
    + split; [|reflexivity]. intros _. split; [discriminate|].
      intros H. apply String_ltb_true in H. congruence.
Qed.


(** ** index.ts: the validation of what the pipeline returns *)

Lemma monthlyRecords_chronological host movies genres :
  StronglySorted (keyLt MonthlyData.month) (monthlyRecords host movies genres).
Proof.
  unfold monthlyRecords. apply Array_sort_by_key. rewrite map_map.
  exact (grouping_NoDup host (List.filter (hasValidDate host) movies) []
           (NoDup_nil_2)).
Qed.

Lemma monthlyRecords_nonempty host movies genres :
  monthlyRecords host movies genres <> [] <->
  exists movie, In movie movies /\ hasValidDate host movie = true.
Proof.
  split.
  - destruct (monthlyRecords host movies genres) as [|r rs] eqn:E;
      [congruence|]. intros _.
    assert (Hr : In r (monthlyRecords host movies genres))
      by (rewrite E; now left).
    apply monthlyRecords_In in Hr as (k & _ & Hne).
    destruct (moviesOfMonth host k _) as [|movie group] eqn:G; [congruence|].
    assert (Hin : In movie (moviesOfMonth host k
                    (List.filter (hasValidDate host) movies)))
      by (rewrite G; now left).
    apply filter_In in Hin as [Hin _]. apply filter_In in Hin. eauto.
  - intros (movie & Hin & Hv) E.
    assert (Hr : In (monthlyRecord
                       (monthKeyOf host movie,
                        moviesOfMonth host (monthKeyOf host movie)
                          (List.filter (hasValidDate host) movies)))
                    (monthlyRecords host movies genres)).
    { apply monthlyRecords_In. eexists. split; [reflexivity|]. intros G.
      assert (Hm : In movie (moviesOfMonth host (monthKeyOf host movie)
                      (List.filter (hasValidDate host) movies))).
      { apply filter_In. split; [apply filter_In; auto|].
        now apply bool_decide_eq_true. }
      rewrite G in Hm. destruct Hm. }
    rewrite E in Hr. destruct Hr.
Qed.

Lemma chronological_readArray (h : heap) (arr : list loc) :
  (forall l : loc, In l arr -> is_Some (h !! l)) ->
  StronglySorted (keyLt MonthlyData.month) (readArray h arr) ->
  chronological h arr.
Proof.
  unfold chronological, readArray.
  induction arr as [|l arr IH]; intros Hvalid Hs; [constructor|].
  destruct (Hvalid l) as [r Hr]; [now left|].
  simpl in Hs. rewrite Hr in Hs. simpl in Hs.
  apply StronglySorted_inv in Hs as [Hs Hall].
  constructor.
  - apply IH; [|exact Hs]. intros l' Hl'. apply Hvalid. now right.
  - apply Forall_forall. intros l' Hl'. apply list_elem_of_In in Hl'.
    destruct (Hvalid l') as [r' Hr']; [now right|].
    rewrite Forall_forall in Hall.
    unfold month_at. rewrite Hr, Hr'. simpl. apply Hall.
    apply list_elem_of_omap. exists l'. split; [|exact Hr'].
    now apply list_elem_of_In.
Qed.

Lemma chronological_same_months (h h' : heap) (arr : list loc) :
  (forall l, month_at h' l = month_at h l) ->
  chronological h arr -> chronological h' arr.
Proof.
  intros Hm. unfold chronological.
  induction 1 as [|l arr Hs IH Hall]; constructor; [exact IH|].
  rewrite Forall_forall in *. intros l' Hl'. rewrite !Hm. now apply Hall.
Qed.

Lemma updatedWithin_month_at P arr h h' :
  (forall r r', P r r' -> aggregates r' = aggregates r) ->
  updatedWithin P arr h h' -> forall l, month_at h' l = month_at h l.
Proof.
  intros HP [_ H] l. destruct (H l) as [_ R]. unfold month_at.
  destruct (h !! l), (h' !! l); try tauto; simpl.
  apply HP in R. unfold aggregates in R. now inversion R.
Qed.

Lemma calculatePercentageChange_snd h arr :
  snd (calculatePercentageChange h arr) = arr.
Proof.
  unfold calculatePercentageChange. now destruct (length arr <? 2)%nat.
Qed.

Lemma calculateRollingAverage_snd h arr W :
  snd (calculateRollingAverage h arr W) = arr.
Proof.
  unfold calculateRollingAverage.
  now destruct ((W <? 1) || (Z.of_nat (length arr) <? W)).
Qed.

Lemma laterStages_snd h arr : snd (laterStages h arr) = arr.
Proof.
  unfold laterStages.
  now rewrite calculateRollingAverage_snd, calculatePercentageChange_snd.
Qed.

Lemma laterStages_month_at h arr (l : loc) :
  month_at (fst (laterStages h arr)) l = month_at h l.
Proof.
  unfold laterStages. rewrite calculatePercentageChange_snd.
  rewrite (updatedWithin_month_at sameButMovingAverages arr
             (fst (calculatePercentageChange h arr))).
  - apply (updatedWithin_month_at sameButChanges arr h).
    + now intros r r' [E _].
    + apply calculatePercentageChange_within.
  - now intros r r' [E _].
  - apply calculateRollingAverage_within.
Qed.

Lemma StronglySorted_lookup {A} (R : A -> A -> Prop) (l : list A) :
  StronglySorted R l ->
  forall i j a b, (i < j)%nat -> l !! i = Some a -> l !! j = Some b -> R a b.
Proof.
  induction 1 as [|x l Hs IH Hall]; intros i j a b Hij Ha Hb;
    [discriminate|].
  destruct j as [|j]; [lia|]. simpl in Hb. destruct i as [|i]; simpl in Ha.
  - inversion Ha; subst. rewrite Forall_forall in Hall. apply Hall.
    eapply list_elem_of_lookup_2; eauto.
  - apply (IH i j); [lia|exact Ha|exact Hb].
Qed.

Lemma chronological_isOrdered (h : heap) (arr : list loc) :
  chronological h arr ->
  forallb (isOrderedAt h arr) (seq 0 (length arr)) = true.
Proof.
  intros Hs. destruct (forallb _ _) eqn:E; [reflexivity|].
  apply isOrdered_false in E as (i & prev & curr & Hp & Hc & Hlt).
  pose proof (StronglySorted_lookup _ _ Hs i (S i) prev curr
                (Nat.lt_succ_diag_r i) Hp Hc) as Hlt'. cbv beta in Hlt'.
  destruct (String_lt_irreflexive (month_at h prev)).
  now apply String_lt_trans with (month_at h curr).
Qed.

Lemma earliest_le_latest host movies :
  ~ String_lt (getLatestDate host movies) (getEarliestDate host movies).
Proof.
  unfold getEarliestDate, getLatestDate.
  set (dates := map Movie.release_date _).
  destruct (sorted_dates_extremes dates) as [Hmin Hmax]. cbv zeta in Hmin.
  destruct (Array_sort compareCodeUnits dates) as [|lo ds].
  - simpl. apply String_lt_irreflexive.
  - destruct (rev (lo :: ds)) as [|hi ds'].
    + rewrite Hmax in Hmin. now destruct Hmin.
    + destruct Hmin as [Hlo _], Hmax as [_ Hmax]. intros Hlt.
      apply (String_lt_irreflexive lo).
      apply String_le_lt_trans with hi; [now apply Hmax|exact Hlt].
Qed.

Lemma pipeline_chronological host h movies genres filters :
  chronological
    (fst (transformDashboardData host h movies genres filters))
    (DashboardData.monthly_data
       (snd (transformDashboardData host h movies genres filters))).
Proof.
  pose proof (transformDashboardData_monthly host h movies genres filters) as E.
  set (arr := if dateRangeApplies filters then _ else _) in E.
  set (h1 := fst (aggregateByMonth host h movies genres)) in *.
  assert (Hfst : fst (transformDashboardData host h movies genres filters) =
                 fst (laterStages h1 arr)) by now rewrite <- E.
  assert (Hsnd : DashboardData.monthly_data
                   (snd (transformDashboardData host h movies genres filters)) =
                 arr) by (rewrite <- (laterStages_snd h1 arr); now rewrite <- E).
  rewrite Hfst, Hsnd.
  apply (chronological_same_months h1); [intros l; apply laterStages_month_at|].
  assert (H0 : chronological h1 (snd (aggregateByMonth host h movies genres))).
  { apply chronological_readArray.
    - unfold h1, aggregateByMonth, allocate. simpl. intros l Hl.
      apply in_seq in Hl. apply lookup_lt_is_Some. rewrite length_app. lia.
    - unfold h1, aggregateByMonth. rewrite readArray_allocate.
      apply monthlyRecords_chronological. }
  unfold arr. destruct (dateRangeApplies filters); [|exact H0].
  unfold filterByDateRange. now apply StronglySorted_List_filter.
Qed.

(** X23. The monthly series that [transformDashboardData] returns is in
    strictly increasing month order, whatever the filters, so
    [validateDashboardData] never warns about the chronological order of a
    result of the pipeline.  When the filters give neither a start nor an
    end date, the result is valid exactly when some movie passes the date
    filter of the aggregation: the date range computed from the movies is
    never inverted. *)
Theorem pipeline_result_validation (host : Host) (h : heap)
    (movies : list Movie.t) (genres : list Genre.t)
    (filters : DashboardFilters.t) :
  let run := transformDashboardData host h movies genres filters in
  let report := validateDashboardData (fst run) (snd run) in
  chronological (fst run) (DashboardData.monthly_data (snd run)) /\
  ~ In msgNotChronological (Validation.warnings report) /\
  (DashboardFilters.startDate filters = EmptyString ->
   DashboardFilters.endDate filters = EmptyString ->
   (Validation.isValid report = true <->
    exists movie, In movie movies /\ hasValidDate host movie = true)).
Proof.
  cbv zeta.
  pose proof (pipeline_chronological host h movies genres filters) as Hs.
  split; [exact Hs|]. split.
  - intros Hw. apply warns_not_chronological in Hw.
    rewrite (chronological_isOrdered _ _ Hs) in Hw. discriminate.
  - intros Hstart Hend. rewrite valid_iff_series_and_range.
    destruct (transformDashboardData_fields host h movies genres filters)
      as (_ & _ & _ & _ & Hrange). cbv zeta in Hrange. rewrite Hrange.
    rewrite Hstart, Hend. simpl.
    pose proof (transformDashboardData_monthly host h movies genres filters)
      as E.
    assert (Hsnd : DashboardData.monthly_data
                     (snd (transformDashboardData host h movies genres filters)) =
                   snd (aggregateByMonth host h movies genres)).
    { apply (f_equal snd) in E. cbn [snd] in E. rewrite E, laterStages_snd.
      unfold dateRangeApplies. now rewrite Hstart. }
    rewrite Hsnd. rewrite <- (monthlyRecords_nonempty host movies genres).
    unfold aggregateByMonth, allocate. cbn [snd].
    split.
    + intros [Hne _] E0. rewrite E0 in Hne. now apply Hne.
    + intros Hne. split; [|apply earliest_le_latest].
      destruct (monthlyRecords host movies genres); [congruence|discriminate].
Qed.

(** ** index.ts: which records of a result carry the derived fields *)

Lemma calculatePercentageChange_presence (h : heap) (arr : list loc) :
  NoDup arr ->
  forall i l r, arr !! i = Some l -> h !! l = Some r ->
    exists r',
      fst (calculatePercentageChange h arr) !! l = Some r' /\
      sameButChanges r r' /\
      (i = 0%nat -> r' = r) /\
      ((1 <= i)%nat ->
       is_Some (MonthlyData.popularity_change_percent r') /\
       is_Some (MonthlyData.vote_change_percent r')).
Proof.
  intros Hnd i l r Hi Hl.
  destruct (Nat.lt_ge_cases (length arr) 2) as [Hshort|Hlen].
  - unfold calculatePercentageChange.
    apply Nat.ltb_lt in Hshort as Hb. rewrite Hb. simpl. exists r.
    split; [exact Hl|]. split; [apply sameButChanges_refl|].
    split; [reflexivity|]. intros Hi1.
    apply lookup_lt_Some in Hi.
    destruct arr as [|a [|b arr]]; simpl in *; lia.
  - destruct (calculatePercentageChange_lookup h arr Hnd Hlen) as [_ Hfst].
    rewrite (Hfst i l r Hi Hl). eexists. split; [reflexivity|].
    destruct i as [|i]; simpl.
    + split; [apply sameButChanges_refl|]. split; [reflexivity|]. lia.
    + unfold percentageChangeUpdate. rewrite Hi.
      replace (S i - 1)%nat with i by lia.
      destruct (lookup_lt_is_Some_2 arr i) as [lp Hp].
      { apply lookup_lt_Some in Hi. lia. }
      rewrite Hp. split; [repeat split|]. split; [discriminate|].
      intros _. split; eexists; reflexivity.
Qed.

Lemma calculateRollingAverage_presence (h : heap) (arr : list loc) (W : Z) :
  1 <= W -> NoDup arr ->
  forall i l r, arr !! i = Some l -> h !! l = Some r ->
    exists r',
      fst (calculateRollingAverage h arr W) !! l = Some r' /\
      sameButMovingAverages r r' /\
      (Z.of_nat i < W - 1 -> r' = r) /\
      (W - 1 <= Z.of_nat i ->
       is_Some (MonthlyData.popularity_moving_avg r') /\
       is_Some (MonthlyData.vote_moving_avg r')).
Proof.
  intros HW Hnd i l r Hi Hl.
  pose proof (lookup_lt_Some _ _ _ Hi) as Hilen.
  unfold calculateRollingAverage.
  assert ((W <? 1) = false) as -> by lia. simpl orb.
  destruct (Z.of_nat (length arr) <? W) eqn:Hb.
  - simpl. exists r. split; [exact Hl|].
    split; [apply sameButMovingAverages_refl|]. split; [reflexivity|]. lia.
  - simpl fst.
    set (first := Z.to_nat (W - 1)).
    set (indices := seq first (length arr - first)).
    destruct (writeLoop_lookup arr h
                (rollingAverageStep arr W)
                (movingAverageUpdate h arr W)
                Hnd (rollingAverageStep_assign h arr W)
                (movingAverageUpdate_keeps h arr W)
                indices h) as [Hin Hout].
    { apply NoDup_seq. }
    { intros j Hj. apply elem_of_seq in Hj. apply lookup_lt_is_Some. lia. }
    { apply frozen_refl. }
    destruct (Z_lt_le_dec (Z.of_nat i) (W - 1)) as [Hlow|Hhigh].
    + exists r. split.
      * rewrite Hout; [exact Hl|].
        intros j Hj Hjl. apply elem_of_seq in Hj.
        assert (j = i) by (eapply NoDup_lookup; eauto). lia.
      * split; [apply sameButMovingAverages_refl|]. split; [reflexivity|]. lia.
    + eexists. split.
      * rewrite (Hin i l); [|apply elem_of_seq; lia|exact Hi].
        rewrite Hl. reflexivity.
      * split; [repeat split|]. split; [lia|].
        intros _. split; eexists; reflexivity.
Qed.

Lemma monthlyRecords_fresh host movies genres r :
  In r (monthlyRecords host movies genres) ->
  MonthlyData.popularity_change_percent r = None /\
  MonthlyData.vote_change_percent r = None /\
  MonthlyData.popularity_moving_avg r = None /\
  MonthlyData.vote_moving_avg r = None.
Proof.
  intros Hr. apply monthlyRecords_In in Hr as (k & -> & _). repeat split.
Qed.

Lemma NoDup_List_filter {A} (f : A -> bool) (l : list A) :
  NoDup l -> NoDup (List.filter f l).
Proof.
  intros H. apply NoDup_ListNoDup, List.NoDup_filter, NoDup_ListNoDup, H.
Qed.

(** X24. The monthly series of a result of [transformDashboardData]
    consists of distinct records.  The record at index 0 carries neither
    change field and every later record carries both; the records at
    indices 0 and 1 carry neither moving average and every later record
    carries both. *)
Theorem pipeline_series_fields (host : Host) (h : heap)
    (movies : list Movie.t) (genres : list Genre.t)
    (filters : DashboardFilters.t) :
  let run := transformDashboardData host h movies genres filters in
  let series := DashboardData.monthly_data (snd run) in
  NoDup series /\
  forall i l, series !! i = Some l ->
    is_Some (fst run !! l) /\
    (is_Some (popularity_change_percent_at (fst run) l) <-> (1 <= i)%nat) /\
    (is_Some (vote_change_percent_at (fst run) l) <-> (1 <= i)%nat) /\
    (is_Some (popularity_moving_avg_at (fst run) l) <-> (2 <= i)%nat) /\
    (is_Some (vote_moving_avg_at (fst run) l) <-> (2 <= i)%nat).
Proof.
  cbv zeta.
  pose proof (transformDashboardData_monthly host h movies genres filters) as E.
  set (arr := if dateRangeApplies filters then _ else _) in E.
  set (h1 := fst (aggregateByMonth host h movies genres)) in *.
  assert (Hfst : fst (transformDashboardData host h movies genres filters) =
                 fst (laterStages h1 arr)) by now rewrite <- E.
  assert (Hsnd : DashboardData.monthly_data
                   (snd (transformDashboardData host h movies genres filters)) =
                 arr) by (rewrite <- (laterStages_snd h1 arr); now rewrite <- E).
  rewrite Hfst, Hsnd. clear E Hfst Hsnd.
  set (records := monthlyRecords host movies genres).
  assert (Hsub : forall l : loc, In l arr ->
            In l (seq (length h) (length records))).
  { intros l Hl. unfold arr in Hl.
    destruct (dateRangeApplies filters); [|exact Hl].
    unfold filterByDateRange in Hl. now apply filter_In in Hl as [Hl _]. }
  assert (Hnd : NoDup arr).
  { unfold arr. destruct (dateRangeApplies filters).
    - unfold filterByDateRange. apply NoDup_List_filter.
      unfold aggregateByMonth, allocate. simpl. apply NoDup_seq.
    - unfold aggregateByMonth, allocate. simpl. apply NoDup_seq. }
  split; [exact Hnd|]. intros i l Hi.
  assert (Hfresh : exists r, h1 !! l = Some r /\ In r records).
  { assert (Hl : In l arr)
      by (apply list_elem_of_In; eapply list_elem_of_lookup_2; eauto).
    apply Hsub, in_seq in Hl.
    unfold h1, aggregateByMonth, allocate. simpl.
    destruct (lookup_lt_is_Some_2 records (l - length h)) as [r Hr]; [lia|].
    exists r. split.
    - rewrite lookup_app_r by lia. exact Hr.
    - apply list_elem_of_In. eapply list_elem_of_lookup_2; eauto. }
  destruct Hfresh as (r & Hr & Hin).
  apply monthlyRecords_fresh in Hin as (Hpc & Hvc & Hpm & Hvm).
  unfold laterStages. rewrite calculatePercentageChange_snd.
  destruct (calculatePercentageChange_presence h1 arr Hnd i l r Hi Hr)
    as (r2 & Hr2 & (_ & Hpm2 & Hvm2) & Hzero & Hlater).
  destruct (calculateRollingAverage_presence
              (fst (calculatePercentageChange h1 arr)) arr 3
              ltac:(lia) Hnd i l r2 Hi Hr2)
    as (r3 & Hr3 & (_ & Hpc3 & Hvc3) & Hlow & Hhigh).
  unfold popularity_change_percent_at, vote_change_percent_at,
    popularity_moving_avg_at, vote_moving_avg_at.
  rewrite Hr3. simpl. split; [eauto|].
  rewrite Hpc3, Hvc3.
  assert (Hchange :
    (is_Some (MonthlyData.popularity_change_percent r2) <-> (1 <= i)%nat) /\
    (is_Some (MonthlyData.vote_change_percent r2) <-> (1 <= i)%nat)).
  { destruct i as [|i].
    - rewrite (Hzero eq_refl), Hpc, Hvc.
      split; (split; [intros [x Hx]; discriminate|lia]).
    - destruct Hlater as [H1 H2]; [lia|].
      split; (split; [lia|intros _; assumption]). }
  destruct Hchange as [Hc1 Hc2]. split; [exact Hc1|]. split; [exact Hc2|].
  destruct (Nat.lt_ge_cases i 2) as [Hlt|Hge].
  - rewrite (Hlow ltac:(lia)), Hpm2, Hvm2, Hpm, Hvm.
    split; (split; [intros [x Hx]; discriminate|lia]).
  - destruct Hhigh as [H1 H2]; [lia|].
    split; (split; [intros _; exact Hge|intros _; assumption]).
Qed.

(** ** genre-analysis.ts: the averages and the names of the distribution *)

Section GenreTotals.
Variable field : GenreStats.t -> Q.
Variable value : Movie.t -> Q.
Hypothesis field_zero : field (GenreStats.mk 0 0 0 0) = 0%Q.
Hypothesis field_step :
  forall movie stats,
    field (GenreStats.mk
             (GenreStats.count stats + 1)
             (GenreStats.totalPopularity stats + Movie.popularity movie)%Q
             (GenreStats.totalVoteAverage stats + Movie.vote_average movie)%Q
             (GenreStats.totalVoteCount stats + Movie.vote_count movie)) =
    (field stats + value movie)%Q.

Lemma countGenre_totalOf movie genreStats genreId k :
  In k (map fst genreStats) ->
  (totalOf field (countGenre movie genreStats genreId) k ==
   totalOf field genreStats k +
   (if decide (genreId = k) then value movie else 0))%Q.
Proof.
  intros Hk. apply Map_has_In in Hk. unfold Map_has in Hk.
  unfold countGenre, totalOf.
  destruct (decide (genreId = k)) as [->|Hne].
  - destruct (Map_get genreStats k) eqn:E; [|discriminate].
    rewrite Map_get_set, decide_True by reflexivity. simpl.
    rewrite field_step. reflexivity.
  - destruct (Map_get genreStats genreId) eqn:E; [|ring].
    rewrite Map_get_set, decide_False by congruence. ring.
Qed.

Lemma countGenres_fold_total movie (genreIds : list Z) :
  forall genreStats k,
    In k (map fst genreStats) ->
    (totalOf field (fold_left (countGenre movie) genreIds genreStats) k ==
     totalOf field genreStats k +
     inject_Z (Z.of_nat (count_occ Z.eq_dec genreIds k)) * value movie)%Q.
Proof.
  induction genreIds as [|g genreIds IH]; intros stats k Hk; simpl fold_left.
  - simpl. ring.
  - rewrite IH by (now rewrite countGenre_keys).
    rewrite countGenre_totalOf by exact Hk. simpl count_occ.
    destruct (Z.eq_dec g k) as [->|Hne].
    + rewrite decide_True by reflexivity.
      rewrite Nat2Z.inj_succ. unfold Z.succ. rewrite inject_Z_plus.
      change (inject_Z 1) with 1%Q. ring.
    + rewrite decide_False by exact Hne. ring.
Qed.

Lemma countMovie_total genreStats movie k :
  In k (map fst genreStats) ->
  (totalOf field (countMovie genreStats movie) k ==
   totalOf field genreStats k +
   inject_Z (Z.of_nat (count_occ Z.eq_dec (Movie.genre_ids movie) k))
   * value movie)%Q.
Proof.
  intros Hk. unfold countMovie.
  destruct (Movie.genre_ids movie) as [|g ids] eqn:E.
  - simpl. ring.
  - change ((length (g :: ids) =? 0)%nat) with false. cbv iota.
    now apply countGenres_fold_total.
Qed.

Lemma countMovies_total (movies : list Movie.t) :
  forall genreStats k,
    In k (map fst genreStats) ->
    (totalOf field (fold_left countMovie movies genreStats) k ==
     totalOf field genreStats k + genreTotal value k movies)%Q.
Proof.
  induction movies as [|movie movies IH]; intros stats k Hk; simpl.
  - ring.
  - rewrite IH by (now rewrite (proj1 (countMovie_spec stats movie k))).
    rewrite countMovie_total by exact Hk. ring.
Qed.
End GenreTotals.

Lemma initial_stats_zero (genres : list Genre.t) :
  forall (m0 : list (Z * GenreStats.t)) k s,
    (forall k s, Map_get m0 k = Some s -> s = GenreStats.mk 0 0 0 0) ->
    Map_get (fold_left
               (fun m genre => Map_set m (Genre.id genre) (GenreStats.mk 0 0 0 0))
               genres m0) k = Some s ->
    s = GenreStats.mk 0 0 0 0.
Proof.
  induction genres as [|g genres IH]; intros m0 k s H0; simpl.
  - apply H0.
  - apply IH. intros k' s'. rewrite Map_get_set.
    destruct (decide (k' = Genre.id g)); [now intros [= <-]|apply H0].
Qed.

Lemma genreMap_get_In (genres : list Genre.t) :
  forall (m0 : list (Z * string)) k name,
    Map_get (fold_left (fun m genre => Map_set m (Genre.id genre) (Genre.name genre))
                       genres m0) k = Some name ->
    Map_get m0 k = Some name \/
    exists genre, In genre genres /\ Genre.id genre = k /\
                  Genre.name genre = name.
Proof.
  induction genres as [|g genres IH]; intros m0 k name; simpl; [auto|].
  intros H. apply IH in H as [H|(genre & Hin & Hid & Hn)].
  - rewrite Map_get_set in H. destruct (decide (k = Genre.id g)) as [->|Hne].
    + inversion H; subst. right. exists g. auto.
    + now left.
  - right. exists genre. auto.
Qed.

Lemma genreMap_get_known (genres : list Genre.t) :
  forall (m0 : list (Z * string)) k,
    In k (map Genre.id genres) ->
    is_Some (Map_get (fold_left (fun m genre =>
                                   Map_set m (Genre.id genre) (Genre.name genre))
                                genres m0) k).
Proof.
  induction genres as [|g genres IH]; intros m0 k Hk; simpl; [destruct Hk|].
  destruct (in_dec Z.eq_dec k (map Genre.id genres)) as [Hin|Hnin];
    [now apply IH|].
  destruct Hk as [<-|Hk]; [|contradiction].
  clear IH. revert m0. induction genres as [|g' genres IH]; intros m0; simpl.
  - rewrite Map_get_set, decide_True by reflexivity. eauto.
  - simpl in Hnin.
    assert (Hne : Genre.id g <> Genre.id g') by (intros E; apply Hnin; auto).
    assert (Hrest : ~ In (Genre.id g) (map Genre.id genres)) by tauto.
    specialize (IH Hrest).
    assert (Hswap : forall m,
              is_Some (Map_get m (Genre.id g)) ->
              is_Some (Map_get
                         (fold_left (fun m genre =>
                                       Map_set m (Genre.id genre) (Genre.name genre))
                                    genres m) (Genre.id g))).
    { clear IH. revert Hrest. clear. induction genres as [|g'' genres IH];
        intros Hrest m Hm; simpl; [exact Hm|].
      apply IH; [simpl in Hrest; tauto|].
      rewrite Map_get_set, decide_False; [exact Hm|].
      intros E. apply Hrest. left. now symmetry. }
    apply Hswap. rewrite Map_get_set, decide_False by exact Hne.
    rewrite Map_get_set, decide_True by reflexivity. eauto.
Qed.

Lemma distributionRecord_fields genreMap totalMovies entry r :
  distributionRecord genreMap totalMovies entry = Some r ->
  GenreDistribution.genre_name r =
    match Map_get genreMap (fst entry) with
    | Some name => if truthy name then name else fallbackGenreName (fst entry)
    | None => fallbackGenreName (fst entry)
    end /\
  GenreDistribution.avg_popularity r =
    (inject_Z (Math_round
       ((GenreStats.totalPopularity (snd entry)
         / inject_Z (GenreStats.count (snd entry))) * 100)) / 100)%Q /\
  GenreDistribution.avg_vote_average r =
    (inject_Z (Math_round
       ((GenreStats.totalVoteAverage (snd entry)
         / inject_Z (GenreStats.count (snd entry))) * 100)) / 100)%Q.
Proof.
  unfold distributionRecord.
  destruct (0 <? GenreStats.count (snd entry)) eqn:E; [|discriminate].
  intros [= <-]. simpl. repeat split.
Qed.

Lemma genreOccurrences_le_length genreId movies :
  (forall movie, In movie movies -> NoDup (Movie.genre_ids movie)) ->
  genreOccurrences genreId movies <= Z.of_nat (length movies).
Proof.
  induction movies as [|m movies IH]; intros Hnd; [simpl; lia|].
  cbn [genreOccurrences fold_right length].
  fold (genreOccurrences genreId movies).
  assert (IH' : genreOccurrences genreId movies <= Z.of_nat (length movies))
    by (apply IH; intros movie Hm; apply Hnd; now right).
  assert (Hone : (count_occ Z.eq_dec (Movie.genre_ids m) genreId <= 1)%nat).
  { apply (proj1 (List.NoDup_count_occ Z.eq_dec (Movie.genre_ids m))).
    apply NoDup_ListNoDup, Hnd. now left. }
  lia.
Qed.

Lemma rounded_2dp_le_100 (x r : Q) :
  rounded_2dp x r -> (x <= 100)%Q -> (r <= 100)%Q.
Proof.
  intros [[k Hk] Hd] Hx.
  assert (H : (r <= 100 + (1 # 200))%Q).
  { apply Qabs_Qle_condition in Hd as [_ Hd]. lra. }
  rewrite Hk in *. unfold Qle in *. simpl in *. lia.
Qed.

(** X25. Every record of [analyzeGenreDistribution] carries, as its two
    averages, the total popularity and the total vote average of the
    movies that list its genre, a movie counting once for every time it
    lists the genre, divided by the record's count and rounded to 2
    decimals.  Its name is the name of a genre of the list with its id,
    replaced by the word for genre followed by the id when that name is
    empty.  When no movie lists a genre twice, no count exceeds the
    number of movies and no percentage exceeds 100.  Without movies the
    distribution is empty. *)
Theorem analyzeGenreDistribution_averages (movies : list Movie.t)
    (genres : list Genre.t) :
  let out := analyzeGenreDistribution movies genres in
  (movies = [] -> out = []) /\
  (forall r, In r out ->
     rounded_2dp
       (genreTotal Movie.popularity (GenreDistribution.genre_id r) movies
        / inject_Z (GenreDistribution.count r))%Q
       (GenreDistribution.avg_popularity r) /\
     rounded_2dp
       (genreTotal Movie.vote_average (GenreDistribution.genre_id r) movies
        / inject_Z (GenreDistribution.count r))%Q
       (GenreDistribution.avg_vote_average r) /\
     exists genre,
       In genre genres /\ Genre.id genre = GenreDistribution.genre_id r /\
       GenreDistribution.genre_name r =
         if truthy (Genre.name genre) then Genre.name genre
         else fallbackGenreName (GenreDistribution.genre_id r)) /\
  ((forall movie, In movie movies -> NoDup (Movie.genre_ids movie)) ->
   forall r, In r out ->
     GenreDistribution.count r <= Z.of_nat (length movies) /\
     (GenreDistribution.percentage r <= 100)%Q).
Proof.
  cbv zeta.
  destruct (genreDistribution_records movies genres) as (_ & Hids & Hrec).
  split; [|split].
  - intros ->. destruct (analyzeGenreDistribution [] genres) as [|r rs] eqn:E;
      [reflexivity|].
    destruct (Hrec r) as (Hpos & Hc & _); [now left|]. simpl in Hc. lia.
  - intros r Hr.
    assert (Hg : In (GenreDistribution.genre_id r) (map Genre.id genres)).
    { apply (Hids (GenreDistribution.genre_id r)), in_map_iff. eauto. }
    unfold analyzeGenreDistribution in Hr.
    set (genreMap := fold_left _ genres []) in Hr.
    set (init := fold_left
                   (fun m genre =>
                      Map_set m (Genre.id genre) (GenreStats.mk 0 0 0 0))
                   genres []) in Hr.
    set (st := fold_left countMovie movies init) in Hr.
    apply Array_sort_In, list_elem_of_In, list_elem_of_omap in Hr
      as ([k s] & He & Hf). apply list_elem_of_In in He.
    destruct (distributionRecord_Some _ _ _ _ Hf) as (Hid & Hc & Hpos & _).
    destruct (distributionRecord_fields _ _ _ _ Hf) as (Hname & Hp & Hv).
    simpl in Hid, Hc, Hpos, Hname, Hp, Hv. rewrite Hid in Hg |- *.
    destruct (initial_stats_keys genres [] (NoDup_nil_2))
      as (Hnd0 & Hkeys0 & _ & _). fold init in Hnd0, Hkeys0.
    assert (Hkeys : map fst st = map fst init)
      by apply (countMovies_spec movies init 0).
    assert (Hnd : NoDup (map fst st)) by now rewrite Hkeys.
    assert (Hk : In k (map fst init)) by (apply Hkeys0; now right).
    assert (Hinit : forall field, field (GenreStats.mk 0 0 0 0) = 0%Q ->
              totalOf field init k = 0%Q).
    { intros field Hz. unfold totalOf.
      destruct (Map_get init k) as [s0|] eqn:E0; [|reflexivity].
      apply initial_stats_zero in E0; [|intros ? ? [=]]. now subst. }
    assert (Hget : Map_get st k = Some s) by now apply Map_In_get.
    split; [|split].
    + rewrite Hp, Hc.
      pose proof (countMovies_total GenreStats.totalPopularity Movie.popularity
                    (fun _ _ => eq_refl) movies init k Hk) as Ht.
      fold st in Ht. rewrite (Hinit _ eq_refl) in Ht.
      unfold totalOf in Ht at 1. rewrite Hget in Ht. simpl in Ht.
      rewrite Qplus_0_l in Ht. rewrite <- Ht. apply round_div_100.
    + rewrite Hv, Hc.
      pose proof (countMovies_total GenreStats.totalVoteAverage
                    Movie.vote_average
                    (fun _ _ => eq_refl) movies init k Hk) as Ht.
      fold st in Ht. rewrite (Hinit _ eq_refl) in Ht.
      unfold totalOf in Ht at 1. rewrite Hget in Ht. simpl in Ht.
      rewrite Qplus_0_l in Ht. rewrite <- Ht. apply round_div_100.
    + destruct (genreMap_get_known genres [] k Hg) as [name Hn].
      fold genreMap in Hn. rewrite Hn in Hname.
      apply genreMap_get_In in Hn as [Hn|(genre & Hin & Hgid & Hgn)];
        [discriminate|].
      exists genre. split; [exact Hin|]. split; [exact Hgid|].
      now rewrite Hgn.
  - intros Hnd r Hr. destruct (Hrec r Hr) as (Hpos & Hc & Hround).
    pose proof (genreOccurrences_le_length (GenreDistribution.genre_id r)
                  movies Hnd) as Hle.
    split; [lia|]. apply (rounded_2dp_le_100 _ _ Hround).
    assert (Hlen : 0 < Z.of_nat (length movies)) by lia.
    assert (Hq : (0 < inject_Z (Z.of_nat (length movies)))%Q).
    { change 0%Q with (inject_Z 0). now rewrite <- Zlt_Qlt. }
    assert (Hcq : (inject_Z (GenreDistribution.count r)
                   <= inject_Z (Z.of_nat (length movies)))%Q).
    { rewrite <- Zle_Qle. lia. }
    assert (Hdiv : (inject_Z (GenreDistribution.count r)
                    / inject_Z (Z.of_nat (length movies)) <= 1)%Q).
    { apply Qle_shift_div_r; [exact Hq|]. now rewrite Qmult_1_l. }
    lra.
Qed.

(** ** index.ts: the summary of a result of the pipeline *)

Lemma monthlyRecords_length host movies genres :
  (length (monthlyRecords host movies genres)
   <= length (datedMovies host movies))%nat.
Proof.
  rewrite <- (length_map MonthlyData.month).
  rewrite <- (length_map (monthKeyOf host) (datedMovies host movies)).
  apply List.NoDup_incl_length.
  - apply NoDup_ListNoDup. rewrite monthlyRecords_keys.
    exact (grouping_NoDup host (List.filter (hasValidDate host) movies) []
             (NoDup_nil_2)).
  - intros k Hk. apply in_map_iff in Hk as (r & <- & Hr).
    apply monthlyRecords_In in Hr as (k & -> & Hne). simpl.
    destruct (moviesOfMonth host k _) as [|movie group] eqn:G; [congruence|].
    assert (Hin : In movie (moviesOfMonth host k
                    (List.filter (hasValidDate host) movies)))
      by (rewrite G; now left).
    apply filter_In in Hin as [Hin Hk]. apply bool_decide_eq_true in Hk.
    apply in_map_iff. exists movie. split; [exact Hk|exact Hin].
Qed.

(** X26. [getTransformationSummary] of a result of
    [transformDashboardData] reports the number of input movies as
    processed; as top movies selected, 10 or the number of movies that
    pass the tests of the ranker when they are fewer; no more genres than
    the list of genres has; and no more months than there are movies that
    pass the date filter of the aggregation. *)
Theorem pipeline_summary_counts (host : Host) (h : heap)
    (movies : list Movie.t) (genres : list Genre.t)
    (filters : DashboardFilters.t) :
  let summary :=
    getTransformationSummary
      (snd (transformDashboardData host h movies genres filters)) in
  TransformationSummary.totalMoviesProcessed summary =
    Z.of_nat (length movies) /\
  TransformationSummary.topMoviesSelected summary =
    Z.min 10 (Z.of_nat (length (rankedMovies movies))) /\
  TransformationSummary.genresFound summary <= Z.of_nat (length genres) /\
  TransformationSummary.monthsAnalyzed summary <=
    Z.of_nat (length (datedMovies host movies)) /\
  TransformationSummary.monthsAnalyzed summary <=
    TransformationSummary.totalMoviesProcessed summary.
Proof.
  cbv zeta. unfold getTransformationSummary.
  cbn [TransformationSummary.totalMoviesProcessed
       TransformationSummary.topMoviesSelected
       TransformationSummary.genresFound
       TransformationSummary.monthsAnalyzed].
  destruct (transformDashboardData_fields host h movies genres filters)
    as (Htop & Hgenres & Htotal & _). cbv zeta in Htop, Hgenres, Htotal.
  rewrite Htop, Hgenres, Htotal.
  assert (Hmonths :
    (length (DashboardData.monthly_data
               (snd (transformDashboardData host h movies genres filters)))
     <= length (datedMovies host movies))%nat).
  { pose proof (transformDashboardData_monthly host h movies genres filters)
      as E.
    apply (f_equal snd) in E. cbn [snd] in E. rewrite E, laterStages_snd.
    etransitivity; [|apply (monthlyRecords_length host movies genres)].
    unfold aggregateByMonth, allocate. cbn [fst snd].
    destruct (dateRangeApplies filters).
    - unfold filterByDateRange.
      etransitivity; [apply List.filter_length_le|]. now rewrite length_seq.
    - now rewrite length_seq. }
  split; [reflexivity|]. split; [|split; [|split]].
  - unfold getTopMovies. rewrite Array_slice_prefix by lia.
    rewrite length_take.
    rewrite (Permutation_length (sortMoviesByCriteria_Permutation _ _)).
    rewrite length_map. unfold rankedMovies. lia.
  - destruct (genreDistribution_records movies genres) as (Hnd & Hids & _).
    assert (Hle : (length (map GenreDistribution.genre_id
                             (analyzeGenreDistribution movies genres))
                   <= length (map Genre.id genres))%nat).
    { apply List.NoDup_incl_length; [now apply NoDup_ListNoDup|].
      intros k Hk. now apply Hids in Hk as [Hk _]. }
    rewrite !length_map in Hle. lia.
  - lia.
  - pose proof (List.filter_length_le (hasValidDate host) movies) as Hf.
    unfold datedMovies in Hmonths. lia.
Qed.

(** ** index.ts: what a result depends on *)

(** X27. Of the filters, [transformDashboardData] reads the two dates
    only, and these for the monthly series and the date range only: the
    top movies, the genre distribution and the total are the same under
    any two filters, and two filters with the same dates give the same
    monthly series, records and date range.  The genres are not read for
    the monthly series, the date range or the total. *)
Theorem transformDashboardData_dependence (host : Host) (h : heap)
    (movies : list Movie.t) (genres genres' : list Genre.t)
    (filters filters' : DashboardFilters.t) :
  let run := transformDashboardData host h movies genres filters in
  (let other := transformDashboardData host h movies genres filters' in
   DashboardData.top_movies (snd other) = DashboardData.top_movies (snd run) /\
   DashboardData.genre_distribution (snd other) =
     DashboardData.genre_distribution (snd run) /\
   DashboardData.total_movies (snd other) =
     DashboardData.total_movies (snd run) /\
   (DashboardFilters.startDate filters' = DashboardFilters.startDate filters ->
    DashboardFilters.endDate filters' = DashboardFilters.endDate filters ->
    fst other = fst run /\
    DashboardData.monthly_data (snd other) =
      DashboardData.monthly_data (snd run) /\
    DashboardData.date_range (snd other) =
      DashboardData.date_range (snd run))) /\
  (let other := transformDashboardData host h movies genres' filters in
   fst other = fst run /\
   DashboardData.monthly_data (snd other) =
     DashboardData.monthly_data (snd run) /\
   DashboardData.date_range (snd other) = DashboardData.date_range (snd run) /\
   DashboardData.total_movies (snd other) =
     DashboardData.total_movies (snd run)).
Proof.
  cbv zeta.
  destruct (transformDashboardData_fields host h movies genres filters)
    as (Ht & Hg & Hn & _ & Hr).
  destruct (transformDashboardData_fields host h movies genres filters')
    as (Ht' & Hg' & Hn' & _ & Hr').
  destruct (transformDashboardData_fields host h movies genres' filters)
    as (_ & _ & Hn'' & _ & Hr'').
  cbv zeta in *.
  pose proof (transformDashboardData_monthly host h movies genres filters) as E.
  pose proof (transformDashboardData_monthly host h movies genres filters')
    as E'.
  pose proof (transformDashboardData_monthly host h movies genres' filters)
    as E''.
  split.
  - split; [congruence|]. split; [congruence|]. split; [congruence|].
    intros Hs He.
    assert (Hd : dateRangeApplies filters' = dateRangeApplies filters)
      by (unfold dateRangeApplies; now rewrite Hs, He).
    rewrite Hd, Hs, He, <- E in E'. inversion E' as [[E1 E2]].
    split; [reflexivity|]. split; [reflexivity|].
    rewrite Hr, Hr', Hs, He. reflexivity.
  - change (aggregateByMonth host h movies genres')
      with (aggregateByMonth host h movies genres) in E''.
    rewrite <- E in E''. inversion E'' as [[E1 E2]].
    split; [reflexivity|]. split; [reflexivity|]. split; congruence.
Qed.

(** ** The smoothing stages, run again *)

Lemma updatedWithin_frozen P arr h h' :
  (forall r r', P r r' -> aggregates r' = aggregates r) ->
  updatedWithin P arr h h' -> frozen h h'.
Proof.
  intros HP [_ H] l. destruct (H l) as [_ R].
  unfold avg_popularity_at, avg_vote_average_at.
  destruct (h !! l), (h' !! l); try tauto; simpl.
  apply HP in R. unfold aggregates in R. now inversion R.
Qed.

Lemma calculateRollingAverage_lookup (h : heap) (arr : list loc) (W : Z) :
  NoDup arr -> 1 <= W -> W <= Z.of_nat (length arr) ->
  forall i l r, arr !! i = Some l -> h !! l = Some r ->
    fst (calculateRollingAverage h arr W) !! l =
    Some (if Z.of_nat i <? W - 1 then r else movingAverageUpdate h arr W i r).
Proof.
  intros Hnd HW Hlen i l r Hi Hl.
  pose proof (lookup_lt_Some _ _ _ Hi) as Hilen.
  unfold calculateRollingAverage.
  assert ((W <? 1) = false) as -> by lia.
  assert ((Z.of_nat (length arr) <? W) = false) as -> by lia.
  simpl fst.
  destruct (writeLoop_lookup arr h
              (rollingAverageStep arr W)
              (movingAverageUpdate h arr W)
              Hnd (rollingAverageStep_assign h arr W)
              (movingAverageUpdate_keeps h arr W)
              (seq (Z.to_nat (W - 1)) (length arr - Z.to_nat (W - 1))) h)
    as [Hin Hout].
  { apply NoDup_seq. }
  { intros j Hj. apply elem_of_seq in Hj. apply lookup_lt_is_Some. lia. }
  { apply frozen_refl. }
  destruct (Z.ltb_spec (Z.of_nat i) (W - 1)) as [Hlow|Hhigh].
  - rewrite Hout; [exact Hl|].
    intros j Hj Hjl. apply elem_of_seq in Hj.
    assert (j = i) by (eapply NoDup_lookup; eauto). lia.
  - rewrite (Hin i l); [|apply elem_of_seq; lia|exact Hi].
    now rewrite Hl.
Qed.

(** A stage that rewrites the record behind each reference of a series
    from the averages alone writes the same records when it runs again. *)
Lemma stage_idempotent (P : MonthlyData.t -> MonthlyData.t -> Prop)
    (arr : list loc) (stage : heap -> heap)
    (U : heap -> nat -> MonthlyData.t -> MonthlyData.t) :
  (forall r r', P r r' -> aggregates r' = aggregates r) ->
  (forall h, updatedWithin P arr h (stage h)) ->
  (forall h i l r, arr !! i = Some l -> h !! l = Some r ->
     stage h !! l = Some (U h i r)) ->
  (forall h h' i r, frozen h h' -> U h' i (U h i r) = U h i r) ->
  forall h, stage (stage h) = stage h.
Proof.
  intros HP Hwithin Hlookup Hagain h. apply list_eq. intros l.
  destruct (Hwithin h) as [_ H1]. destruct (Hwithin (stage h)) as [_ H2].
  destruct (H1 l) as [O1 R1], (H2 l) as [O2 R2].
  destruct (in_dec Nat.eq_dec l arr) as [Hin|Hout]; [|now apply O2].
  apply list_elem_of_In, list_elem_of_lookup_1 in Hin as [i Hi].
  destruct (h !! l) as [r|] eqn:Hr.
  - rewrite (Hlookup h i l r Hi Hr).
    rewrite (Hlookup (stage h) i l (U h i r) Hi (Hlookup h i l r Hi Hr)).
    f_equal. apply Hagain. apply (updatedWithin_frozen P arr); auto.
  - destruct (stage h !! l); [destruct R1|].
    destruct (stage (stage h) !! l); [destruct R2|reflexivity].
Qed.

Lemma percentageChangeUpdate_again h h' arr i r :
  frozen h h' ->
  percentageChangeUpdate h' arr i (percentageChangeUpdate h arr i r) =
  percentageChangeUpdate h arr i r.
Proof.
  intros Hfr. unfold percentageChangeUpdate.
  destruct (arr !! i) as [current|]; [|reflexivity].
  destruct (arr !! (i - 1)%nat) as [previous|]; [|reflexivity].
  destruct (Hfr current) as [-> ->], (Hfr previous) as [-> ->].
  now destruct r.
Qed.

Lemma movingAverageUpdate_again h h' arr W i r :
  frozen h h' ->
  movingAverageUpdate h' arr W i (movingAverageUpdate h arr W i r) =
  movingAverageUpdate h arr W i r.
Proof.
  intros Hfr. unfold movingAverageUpdate.
  rewrite (reduce_sum_ext (avg_vote_average_at h') (avg_vote_average_at h))
    by (intros x; apply Hfr).
  rewrite (reduce_sum_ext (avg_popularity_at h') (avg_popularity_at h))
    by (intros x; apply Hfr).
  now destruct r.
Qed.

(** X28. On a series of distinct records, running
    [calculatePercentageChange] on its own result changes nothing more,
    and neither does running [calculateRollingAverage] again with the same
    window: both compute from the averages, which they never write. *)
Theorem smoothing_stages_idempotent (h : heap) (monthlyData : list loc)
    (W : Z) :
  NoDup monthlyData ->
  calculatePercentageChange
    (fst (calculatePercentageChange h monthlyData))
    (snd (calculatePercentageChange h monthlyData)) =
  calculatePercentageChange h monthlyData /\
  calculateRollingAverage
    (fst (calculateRollingAverage h monthlyData W))
    (snd (calculateRollingAverage h monthlyData W)) W =
  calculateRollingAverage h monthlyData W.
Proof.
  intros Hnd. split.
  - rewrite calculatePercentageChange_snd.
    destruct (Nat.lt_ge_cases (length monthlyData) 2) as [Hshort|Hlen].
    + unfold calculatePercentageChange.
      apply Nat.ltb_lt in Hshort. now rewrite Hshort.
    + rewrite (surjective_pairing
                 (calculatePercentageChange
                    (fst (calculatePercentageChange h monthlyData))
                    monthlyData)).
      rewrite (surjective_pairing (calculatePercentageChange h monthlyData))
        at 3.
      rewrite !calculatePercentageChange_snd. f_equal.
      apply (stage_idempotent sameButChanges monthlyData
               (fun h => fst (calculatePercentageChange h monthlyData))
               (fun h i r =>
                  if (i =? 0)%nat then r
                  else percentageChangeUpdate h monthlyData i r)).
      * now intros r r' [E _].
      * intros h0. apply calculatePercentageChange_within.
      * intros h0 i l r.
        apply (calculatePercentageChange_lookup h0 monthlyData Hnd Hlen).
      * intros h0 h' i r Hfr. destruct (i =? 0)%nat; [reflexivity|].
        now apply percentageChangeUpdate_again.
  - rewrite calculateRollingAverage_snd.
    destruct ((W <? 1) || (Z.of_nat (length monthlyData) <? W)) eqn:Hguard.
    + unfold calculateRollingAverage. now rewrite Hguard.
    + apply orb_false_iff in Hguard as [H1 H2].
      rewrite (surjective_pairing
                 (calculateRollingAverage
                    (fst (calculateRollingAverage h monthlyData W))
                    monthlyData W)).
      rewrite (surjective_pairing (calculateRollingAverage h monthlyData W))
        at 3.
      rewrite !calculateRollingAverage_snd. f_equal.
      apply (stage_idempotent sameButMovingAverages monthlyData
               (fun h => fst (calculateRollingAverage h monthlyData W))
               (fun h i r =>
                  if Z.of_nat i <? W - 1 then r
                  else movingAverageUpdate h monthlyData W i r)).
      * now intros r r' [E _].
      * intros h0. apply calculateRollingAverage_within.
      * intros h0 i l r.
        apply (calculateRollingAverage_lookup h0 monthlyData W Hnd); lia.
      * intros h0 h' i r Hfr. destruct (Z.of_nat i <? W - 1); [reflexivity|].
        now apply movingAverageUpdate_again.
Qed.

Lemma smoothing_stages_idempotent_witness :
  calculatePercentageChange
    (fst (calculatePercentageChange exampleSeries [0; 1; 2]%nat))
    (snd (calculatePercentageChange exampleSeries [0; 1; 2]%nat)) =
  calculatePercentageChange exampleSeries [0; 1; 2]%nat.
Proof.
  refine (proj1 (smoothing_stages_idempotent exampleSeries [0; 1; 2]%nat 3 _)).
  apply (NoDup_seq 0 3).
Defined.
